(** * mailbox-MPC node: threshold signing engine, nonce guard and state store

    A shallow embedding of the node of [src/node/app] (crypto.py,
    hardware.py, state.py and the sign-approve / sign-finalize commands of
    main.py), and the properties of its specification.

    Layout: Python primitives used by the code, the curve layer, the DKG
    and signer engines, the HSM token, the node-state store, the
    sign-approve guard; then the statements and their proofs. *)

From Stdlib Require Import ZArith Lia List Strings.String Strings.Ascii Strings.Byte Bool.
From Stdlib Require Import Znumtheory Zpow_facts Zmod.Zmod Field Sorted.
From stdpp Require Import gmap strings list fin_maps.

#[local] Open Scope string_scope.
#[local] Open Scope Z_scope.
#[local] Set Warnings "-register-all".

(** ** Python primitives *)

Module Py.

(** Python [str] is modelled as a string of 8-bit characters and [bytes] as
    a list of bytes; [str.encode()] is the identity on the ASCII range. *)
Definition bytes := list byte.

Definition encode (s : string) : bytes := list_byte_of_string s.

(** [s[:n]] and [s[n:]]. *)
Fixpoint str_take (n : nat) (s : string) : string :=
  match n, s with
  | S n', String c s' => String c (str_take n' s')
  | _, _ => EmptyString
  end.

Fixpoint str_drop (n : nat) (s : string) : string :=
  match n, s with
  | S n', String _ s' => str_drop n' s'
  | _, _ => s
  end.

(** The value of a digit in base 16 (both cases, as [int(s, 16)] accepts)
    and in base 10. *)
Definition digit_value (c : ascii) : option Z :=
  let n := Z.of_N (N_of_ascii c) in
  if (48 <=? n) && (n <=? 57) then Some (n - 48)
  else if (97 <=? n) && (n <=? 122) then Some (n - 87)
  else if (65 <=? n) && (n <=? 90) then Some (n - 55)
  else None.

Definition digit_in_base (base : Z) (c : ascii) : option Z :=
  match digit_value c with
  | Some d => if d <? base then Some d else None
  | None => None
  end.

(** Characters that [int()] skips at both ends of its argument. *)
Definition is_space (c : ascii) : bool :=
  let n := Z.of_N (N_of_ascii c) in
  ((9 <=? n) && (n <=? 13)) || ((28 <=? n) && (n <=? 32)).

Fixpoint lstrip (s : string) : string :=
  match s with
  | String c s' => if is_space c then lstrip s' else s
  | EmptyString => EmptyString
  end.

Fixpoint rstrip (s : string) : string :=
  match s with
  | String c s' =>
      match rstrip s' with
      | EmptyString => if is_space c then EmptyString else String c EmptyString
      | r => String c r
      end
  | EmptyString => EmptyString
  end.

(** Digits with single underscores between them: [after_digit] tells
    whether the previous character was a digit, the only place where an
    underscore or the end of the numeral may come. *)
Fixpoint parse_digits (base : Z) (after_digit : bool) (acc : Z) (s : string)
  : option Z :=
  match s with
  | EmptyString => if after_digit then Some acc else None
  | String c s' =>
      if Ascii.eqb c "_"%char then
        if after_digit then parse_digits base false acc s' else None
      else
        match digit_in_base base c with
        | Some d => parse_digits base true (acc * base + d) s'
        | None => None
        end
  end.

(** After the sign, base 16 accepts an optional [0x] or [0X], which one
    underscore may follow. *)
Definition strip_base_prefix (base : Z) (s : string) : string :=
  if base =? 16 then
    match s with
    | String "0" (String "x" (String "_" s')) => s'
    | String "0" (String "X" (String "_" s')) => s'
    | String "0" (String "x" s') => s'
    | String "0" (String "X" s') => s'
    | _ => s
    end
  else s.

(** [int(s, base)] for base 10 and 16; [None] is [ValueError]. *)
Definition int_of_str (base : Z) (s : string) : option Z :=
  let s1 := rstrip (lstrip s) in
  let '(neg, s2) :=
    match s1 with
    | String "-" r => (true, r)
    | String "+" r => (false, r)
    | _ => (false, s1)
    end in
  match parse_digits base false 0 (strip_base_prefix base s2) with
  | Some v => Some (if neg : bool then - v else v)
  | None => None
  end.

(** [format(x, 'x')]: lowercase digits, most significant first, a minus
    sign for a negative number. *)
Definition hex_char (d : Z) : ascii :=
  if d <? 10 then ascii_of_N (Z.to_N (48 + d)) else ascii_of_N (Z.to_N (87 + d)).

Fixpoint hex_digits (fuel : nat) (x : Z) (acc : string) : string :=
  match fuel with
  | O => acc
  | S fuel' =>
      let acc' := String (hex_char (x mod 16)) acc in
      if x / 16 =? 0 then acc' else hex_digits fuel' (x / 16) acc'
  end.

Definition hex_of_nonneg (x : Z) : string :=
  hex_digits (S (Z.to_nat (Z.log2 x))) x EmptyString.

Definition format_x (x : Z) : string :=
  if x <? 0 then String "-" (hex_of_nonneg (- x)) else hex_of_nonneg x.

(** [str(x)]: the decimal numeral. *)
Fixpoint dec_digits (fuel : nat) (x : Z) (acc : string) : string :=
  match fuel with
  | O => acc
  | S fuel' =>
      let acc' := String (ascii_of_N (Z.to_N (48 + x mod 10))) acc in
      if x / 10 =? 0 then acc' else dec_digits fuel' (x / 10) acc'
  end.

Definition str_of_int (x : Z) : string :=
  if x <? 0
  then String "-" (dec_digits (S (Z.to_nat (Z.log2 (- x)))) (- x) EmptyString)
  else dec_digits (S (Z.to_nat (Z.log2 x))) x EmptyString.

Fixpoint zeros (n : nat) : string :=
  match n with
  | O => EmptyString
  | S n' => String "0" (zeros n')
  end.

(** [format(x, '064x')]: the zero padding comes after the sign and fills
    the field to 64 characters; a longer numeral is left as it is. *)
Definition format_064x (x : Z) : string :=
  if x <? 0 then
    let d := hex_of_nonneg (- x) in
    String "-" (zeros (63 - String.length d) +:+ d)
  else
    let d := hex_of_nonneg x in
    zeros (64 - String.length d) +:+ d.

(** [int.from_bytes(bs, 'big')]. *)
Definition int_from_bytes (bs : bytes) : Z :=
  fold_left (fun acc b => acc * 256 + Z.of_N (Byte.to_N b)) bs 0.

(** [x.to_bytes(n, 'big')]; [None] is [OverflowError] (a negative number or
    one that does not fit). *)
Fixpoint to_bytes_aux (n : nat) (x : Z) (acc : bytes) : bytes :=
  match n with
  | O => acc
  | S n' =>
      let b := match Byte.of_N (Z.to_N (x mod 256)) with
               | Some b => b
               | None => x00
               end in
      to_bytes_aux n' (x / 256) (b :: acc)
  end.

Definition to_bytes (n : nat) (x : Z) : option bytes :=
  if (0 <=? x) && (x <? 256 ^ Z.of_nat n) then Some (to_bytes_aux n x nil)
  else None.

(** [bs.hex()]: two lowercase digits per byte. *)
Definition bytes_hex (bs : bytes) : string :=
  fold_right (fun b s =>
    let n := Z.of_N (Byte.to_N b) in
    String (hex_char (n / 16)) (String (hex_char (n mod 16)) s)) EmptyString bs.

(** [bytes.fromhex(s)]: two digits per byte, ASCII whitespace skipped
    between bytes; [None] is [ValueError]. *)
Definition is_ascii_space (c : ascii) : bool :=
  let n := Z.of_N (N_of_ascii c) in
  ((9 <=? n) && (n <=? 13)) || (n =? 32).

Fixpoint bytes_fromhex (s : string) : option bytes :=
  match s with
  | EmptyString => Some nil
  | String c s' =>
      if is_ascii_space c then bytes_fromhex s'
      else
        match s' with
        | String c' s'' =>
            match digit_in_base 16 c, digit_in_base 16 c' with
            | Some hi, Some lo =>
                match Byte.of_N (Z.to_N (hi * 16 + lo)), bytes_fromhex s'' with
                | Some b, Some bs => Some (b :: bs)
                | _, _ => None
                end
            | _, _ => None
            end
        | EmptyString => None
        end
  end.

(** [s.replace(old, "")]: the occurrences of [old] are removed from left
    to right. *)
Fixpoint remove_all_fuel (fuel : nat) (old s : string) : string :=
  match fuel with
  | O => s
  | S fuel' =>
      match s with
      | EmptyString => EmptyString
      | String c s' =>
          if String.prefix old s
          then remove_all_fuel fuel' old (str_drop (String.length old) s)
          else String c (remove_all_fuel fuel' old s')
      end
  end.

Definition remove_all (old s : string) : string :=
  if String.eqb old EmptyString then s
  else remove_all_fuel (S (String.length s)) old s.

End Py.

(** ** Exceptions and dictionaries *)

(** The exceptions the modelled code raises. *)
Inductive exn : Set :=
  | ValueError | KeyError | TypeError | IndexError | OverflowError
  | SecurityError | NoSuchKey | PostFailed.

Inductive res (A : Type) : Type :=
  | Ok (v : A)
  | Raise (e : exn).
Arguments Ok {A} v.
Arguments Raise {A} e.

#[global] Instance res_ret : MRet res := fun A v => Ok v.
#[global] Instance res_bind : MBind res := fun A B f m =>
  match m with
  | Ok v => f v
  | Raise e => Raise e
  end.

Definition of_option {A} (e : exn) (o : option A) : res A :=
  match o with
  | Some v => Ok v
  | None => Raise e
  end.

Fixpoint mapM_res {A B} (f : A -> res B) (l : list A) : res (list B) :=
  match l with
  | nil => Ok nil
  | a :: l' => b ← f a; bs ← mapM_res f l'; Ok (b :: bs)
  end.

(** A Python [dict] with string keys whose values are iterated: the
    entries in insertion order; assigning to a key that is present keeps
    its place. *)
Module Dict.

Definition dict (V : Type) := list (string * V).

Fixpoint get {V} (d : dict V) (k : string) : option V :=
  match d with
  | nil => None
  | (k', v) :: d' => if String.eqb k k' then Some v else get d' k
  end.

Fixpoint set {V} (d : dict V) (k : string) (v : V) : dict V :=
  match d with
  | nil => (k, v) :: nil
  | (k', v') :: d' =>
      if String.eqb k k' then (k, v) :: d' else (k', v') :: set d' k v
  end.

Definition mem {V} (d : dict V) (k : string) : bool :=
  match get d k with
  | Some _ => true
  | None => false
  end.

Definition keys {V} (d : dict V) : list string := map fst d.
Definition values {V} (d : dict V) : list V := map snd d.

(** [d[k]], which raises [KeyError]. *)
Definition item {V} (d : dict V) (k : string) : res V :=
  of_option KeyError (get d k).

End Dict.

Abbreviation dict := Dict.dict.

(** ** The curve layer (crypto.py) *)

(** [fastecdsa.point.Point]: the affine coordinates; the point at infinity
    is the point with both coordinates zero. *)
Record Point : Set := mkPoint { px : Z; py : Z }.

Definition Point_eqb (P Q : Point) : bool :=
  (px P =? px Q) && (py P =? py Q).

(** What the code takes from the [fastecdsa] library: the parameters of the
    curve, its base point, and the arithmetic of its points. *)
Class Fastecdsa : Type := {
  curve_p : Z;                               (* CURVE.p *)
  curve_a : Z;                               (* CURVE.a *)
  curve_b : Z;                               (* CURVE.b *)
  ORDER : Z;                                 (* CURVE.q *)
  G : Point;                                 (* CURVE.G *)
  point_add : Point -> Point -> Point;       (* P + Q *)
  point_neg : Point -> Point;                (* -P *)
  point_mul : Z -> Point -> Point            (* k * P *)
}.

(** A JSON document: what [json.dumps] receives and [json.loads] returns. *)
Inductive json : Type :=
  | JNull
  | JBool (b : bool)
  | JInt (n : Z)
  | JStr (s : string)
  | JObj (fields : list (string * json)).

(** What the code takes from Python's standard library: the hash functions
    of [hashlib] and [hmac], and the JSON printer and parser. *)
Class PyLib : Type := {
  sha256 : Py.bytes -> Py.bytes;
  hmac_sha512 : Py.bytes -> Py.bytes -> Py.bytes;
  json_dumps : json -> string;
  json_loads : Py.bytes -> res json
}.

Section Crypto.
Context {curve : Fastecdsa} {pylib : PyLib}.

(** [Point(x, y, curve=CURVE)]: the library's constructor raises
    [ValueError] for coordinates that do not satisfy the curve equation. *)
Definition is_point_on_curve (x y : Z) : bool :=
  (y * y - (x * x * x + curve_a * x + curve_b)) mod curve_p =? 0.

Definition Point_new (x y : Z) : res Point :=
  if is_point_on_curve x y then Ok (mkPoint x y) else Raise ValueError.

Definition IDENTITY : Point := point_add G (point_neg G).

Definition is_identity (P : Point) : bool :=
  (px P =? 0) && (py P =? 0).

Definition point_to_hex (P : Point) : string :=
  if is_identity P then "00"
  else
    let prefix := if py P mod 2 =? 0 then "02" else "03" in
    prefix +:+ Py.format_064x (px P).

Definition hex_to_point (h : string) : res Point :=
  if String.eqb h "00" then Ok IDENTITY
  else
    let prefix := Py.str_take 2 h in
    x ← of_option ValueError (Py.int_of_str 16 (Py.str_drop 2 h));
    let y_squared := (Zpow_mod x 3 curve_p + curve_a * x + curve_b) mod curve_p in
    let y := Zpow_mod y_squared ((curve_p + 1) / 4) curve_p in
    let y :=
      if (String.eqb prefix "02" && negb (y mod 2 =? 0))
         || (String.eqb prefix "03" && (y mod 2 =? 0))
      then curve_p - y else y in
    Point_new x y.

(** [pow(a, -1, m)] raises [ValueError] when [a] has no inverse. *)
Definition mod_inverse (a m : Z) : res Z :=
  if Z.gcd a m =? 1 then Ok (Z.invmod a m) else Raise ValueError.

(** [int(node_id.replace("node", ""))]. *)
Definition node_index (node_id : string) : res Z :=
  of_option ValueError (Py.int_of_str 10 (Py.remove_all "node" node_id)).

(** *** Feldman VSS *)

Record DKGRound : Type := mkDKGRound {
  round_id : string;
  dkg_node_id : string;
  dkg_my_index : Z;
  threshold : Z;
  total_nodes : Z;
  my_coefficients : option (list Z);
  my_commitments : option (list Point);
  shares_for_others : dict Z;
  received_shares : dict Z;
  other_commitments : dict (list Point);
  my_final_share : option Z;
  group_public_key : option Point
}.

(** [FeldmanDKG.__init__]. *)
Definition FeldmanDKG (round_id node_id : string) (threshold total_nodes : Z)
  : res DKGRound :=
  i ← node_index node_id;
  Ok {| round_id := round_id; dkg_node_id := node_id; dkg_my_index := i;
        threshold := threshold; total_nodes := total_nodes;
        my_coefficients := None; my_commitments := None;
        shares_for_others := nil; received_shares := nil;
        other_commitments := nil;
        my_final_share := None; group_public_key := None |}.

Definition set_polynomial (st : DKGRound) (coeffs : list Z) (cs : list Point)
  : DKGRound :=
  {| round_id := round_id st; dkg_node_id := dkg_node_id st;
     dkg_my_index := dkg_my_index st;
     threshold := threshold st; total_nodes := total_nodes st;
     my_coefficients := Some coeffs; my_commitments := Some cs;
     shares_for_others := shares_for_others st;
     received_shares := received_shares st;
     other_commitments := other_commitments st;
     my_final_share := my_final_share st;
     group_public_key := group_public_key st |}.

(** [generate_polynomial]; [sampled] are the [threshold] values that
    [secrets.randbelow(ORDER)] returns. *)
Definition generate_polynomial (st : DKGRound) (sampled : list Z)
  : DKGRound * list string :=
  let cs := map (fun a_k => point_mul a_k G) sampled in
  (set_polynomial st sampled cs, map point_to_hex cs).

(** The loop [for k, coeff in enumerate(coefficients)] of
    [compute_share_for] and [finalize], from index [k] on. *)
Fixpoint eval_loop (coeffs : list Z) (k index result : Z) : Z :=
  match coeffs with
  | nil => result
  | coeff :: rest =>
      eval_loop rest (k + 1) index
        ((result + coeff * Zpow_mod index k ORDER) mod ORDER)
  end.

Definition compute_share_for (st : DKGRound) (target_node_id : string) : res Z :=
  target_index ← node_index target_node_id;
  coeffs ← of_option TypeError (my_coefficients st);
  Ok (eval_loop coeffs 0 target_index 0).

Definition set_other_commitments (st : DKGRound) (oc : dict (list Point))
  : DKGRound :=
  {| round_id := round_id st; dkg_node_id := dkg_node_id st;
     dkg_my_index := dkg_my_index st;
     threshold := threshold st; total_nodes := total_nodes st;
     my_coefficients := my_coefficients st;
     my_commitments := my_commitments st;
     shares_for_others := shares_for_others st;
     received_shares := received_shares st;
     other_commitments := oc;
     my_final_share := my_final_share st;
     group_public_key := group_public_key st |}.

Definition receive_commitment (st : DKGRound) (from_node : string)
    (commitments_hex : list string) : res DKGRound :=
  cs ← mapM_res hex_to_point commitments_hex;
  Ok (set_other_commitments st (Dict.set (other_commitments st) from_node cs)).

Definition set_received_shares (st : DKGRound) (rs : dict Z) : DKGRound :=
  {| round_id := round_id st; dkg_node_id := dkg_node_id st;
     dkg_my_index := dkg_my_index st;
     threshold := threshold st; total_nodes := total_nodes st;
     my_coefficients := my_coefficients st;
     my_commitments := my_commitments st;
     shares_for_others := shares_for_others st;
     received_shares := rs;
     other_commitments := other_commitments st;
     my_final_share := my_final_share st;
     group_public_key := group_public_key st |}.

(** The loop [for k, C_k in enumerate(commitments)] of [receive_share]. *)
Fixpoint feldman_loop (commitments : list Point) (k index : Z) (right : Point)
  : Point :=
  match commitments with
  | nil => right
  | C_k :: rest =>
      let coeff := Zpow_mod index k ORDER in
      feldman_loop rest (k + 1) index (point_add right (point_mul coeff C_k))
  end.

Definition receive_share (st : DKGRound) (from_node : string) (share_value : Z)
  : bool * DKGRound :=
  match Dict.get (other_commitments st) from_node with
  | None => (false, st)
  | Some commitments =>
      let left := point_mul share_value G in
      let right := feldman_loop commitments 0 (dkg_my_index st) IDENTITY in
      if negb (Point_eqb left right) then (false, st)
      else (true, set_received_shares st
                    (Dict.set (received_shares st) from_node share_value))
  end.

Definition finalize (st : DKGRound) : res (Z * Point) :=
  coeffs ← of_option TypeError (my_coefficients st);
  let my_own_share := eval_loop coeffs 0 (dkg_my_index st) 0 in
  let final_share :=
    fold_left (fun acc share => (acc + share) mod ORDER)
      (Dict.values (received_shares st)) my_own_share in
  mine ← of_option TypeError (my_commitments st);
  c0 ← of_option IndexError (head mine);
  group_pk ← fold_left (fun acc commitments =>
                 pk ← acc;
                 c ← of_option IndexError (head commitments);
                 Ok (point_add pk c))
               (Dict.values (other_commitments st)) (Ok c0);
  Ok (final_share, group_pk).

(** *** Threshold signing *)

Record SigningRound : Type := mkSigningRound {
  request_id : string;
  message_hash : Py.bytes;
  my_nonce_k : option Z;
  nonce_commitments : dict Point;
  partial_signatures : dict Z
}.

(** [SigningRound.to_dict]. *)
Definition to_dict (session : SigningRound) : json :=
  JObj (("request_id", JStr (request_id session))
     :: ("message_hash", JStr (Py.bytes_hex (message_hash session)))
     :: ("my_nonce_k",
         match my_nonce_k session with
         | Some k => JStr (Py.format_x k)
         | None => JNull
         end)
     :: ("nonce_commitments",
         JObj (map (fun '(node_id, point) => (node_id, JStr (point_to_hex point)))
                 (nonce_commitments session)))
     :: ("partial_signatures",
         JObj (map (fun '(node_id, sig) => (node_id, JStr (Py.format_x sig)))
                 (partial_signatures session)))
     :: nil).

Record ThresholdSigner : Type := mkThresholdSigner {
  node_id : string;
  my_index : Z;
  my_share : Z;
  group_pubkey : Point;
  sessions : dict SigningRound
}.

(** [ThresholdSigner.__init__]. *)
Definition ThresholdSigner_init (node_id : string) (my_share : Z)
    (group_pubkey : Point) : res ThresholdSigner :=
  i ← node_index node_id;
  Ok {| node_id := node_id; my_index := i; my_share := my_share;
        group_pubkey := group_pubkey; sessions := nil |}.

Definition set_sessions (signer : ThresholdSigner) (ss : dict SigningRound)
  : ThresholdSigner :=
  {| node_id := node_id signer; my_index := my_index signer;
     my_share := my_share signer; group_pubkey := group_pubkey signer;
     sessions := ss |}.

Definition create_nonce_commitment_from_k (signer : ThresholdSigner)
    (req_id : string) (msg_hash : Py.bytes) (k : Z) (R_hex : string)
  : res (string * ThresholdSigner) :=
  R_i ← hex_to_point R_hex;
  let session :=
    {| request_id := req_id; message_hash := msg_hash;
       my_nonce_k := Some k;
       nonce_commitments := (node_id signer, R_i) :: nil;
       partial_signatures := nil |} in
  Ok (R_hex, set_sessions signer (Dict.set (sessions signer) req_id session)).

Definition receive_nonce_commitment (signer : ThresholdSigner)
    (req_id from_node R_hex : string) : res ThresholdSigner :=
  R_j ← hex_to_point R_hex;
  session ← Dict.item (sessions signer) req_id;
  let session' :=
    {| request_id := request_id session;
       message_hash := message_hash session;
       my_nonce_k := my_nonce_k session;
       nonce_commitments := Dict.set (nonce_commitments session) from_node R_j;
       partial_signatures := partial_signatures session |} in
  Ok (set_sessions signer (Dict.set (sessions signer) req_id session')).

(** The loop [for node_id in participants: R = R + nonce_commitments[node_id]]
    of [compute_partial_signature] and [combine_signatures]. *)
Fixpoint aggregate_loop (commitments : dict Point) (participants : list string)
    (R : Point) : res Point :=
  match participants with
  | nil => Ok R
  | node_id :: rest =>
      R_j ← Dict.item commitments node_id;
      aggregate_loop commitments rest (point_add R R_j)
  end.

(** The challenge [e]: SHA-256 of the two encodings followed by the
    message hash, as an integer modulo the order. *)
Definition challenge (R_hex : string) (pubkey : Point) (msg_hash : Py.bytes)
  : Z :=
  let data := (Py.encode (R_hex +:+ point_to_hex pubkey) ++ msg_hash)%list in
  Py.int_from_bytes (sha256 data) mod ORDER.

(** The loop over [participant_indices] that builds [num] and [den]. *)
Fixpoint lagrange_loop (indices : list Z) (my_index num den : Z) : Z * Z :=
  match indices with
  | nil => (num, den)
  | j :: rest =>
      if negb (j =? my_index)
      then lagrange_loop rest my_index
             ((num * (- j)) mod ORDER) ((den * (my_index - j)) mod ORDER)
      else lagrange_loop rest my_index num den
  end.

Definition compute_partial_signature (signer : ThresholdSigner)
    (req_id : string) (participants : list string)
  : res (string * ThresholdSigner) :=
  session ← Dict.item (sessions signer) req_id;
  R ← aggregate_loop (nonce_commitments session) participants IDENTITY;
  let e := challenge (point_to_hex R) (group_pubkey signer)
             (message_hash session) in
  participant_indices ← mapM_res node_index participants;
  let '(num, den) := lagrange_loop participant_indices (my_index signer) 1 1 in
  den_inv ← mod_inverse den ORDER;
  let lambda_i := (num * den_inv) mod ORDER in
  k ← of_option TypeError (my_nonce_k session);
  let s_i := (k + e * lambda_i * my_share signer) mod ORDER in
  let session' :=
    {| request_id := request_id session;
       message_hash := message_hash session;
       my_nonce_k := None;
       nonce_commitments := nonce_commitments session;
       partial_signatures :=
         Dict.set (partial_signatures session) (node_id signer) s_i |} in
  Ok (Py.format_064x s_i,
      set_sessions signer (Dict.set (sessions signer) req_id session')).

Definition combine_signatures (partials : dict Z)
    (nonce_commitments : dict Point) (participants : list string)
  : res (string * string) :=
  R ← aggregate_loop nonce_commitments participants IDENTITY;
  let s := fold_left Z.add (Dict.values partials) 0 mod ORDER in
  Ok (point_to_hex R, Py.format_064x s).

Definition verify_signature (R_hex s_hex : string) (pubkey : Point)
    (msg_hash : Py.bytes) : res bool :=
  R ← hex_to_point R_hex;
  s ← of_option ValueError (Py.int_of_str 16 s_hex);
  let e := challenge R_hex pubkey msg_hash in
  Ok (Point_eqb (point_mul s G) (point_add R (point_mul e pubkey))).

(** [ThresholdSigner.to_json]: the dictionary [data], and its
    serialization [json.dumps(data).encode()]. *)
Definition to_json_data (signer : ThresholdSigner) : json :=
  JObj (("node_id", JStr (node_id signer))
     :: ("my_index", JInt (my_index signer))
     :: ("my_share", JStr (Py.format_x (my_share signer)))
     :: ("group_pubkey", JStr (point_to_hex (group_pubkey signer)))
     :: ("sessions",
         JObj (map (fun '(req_id, session) => (req_id, to_dict session))
                 (sessions signer)))
     :: nil).

Definition to_json (signer : ThresholdSigner) : Py.bytes :=
  Py.encode (json_dumps (to_json_data signer)).

End Crypto.

(** *** Two instances of the library

    Modelled from the library: the affine chord-and-tangent arithmetic that
    [fastecdsa] implements for a curve [y^2 = x^3 + a x + b] over the field
    of [p] elements, with scalars reduced modulo the order [q] of the base
    point. It is used to run the code on the real curve and on a small
    one. *)
Module Affine.

Section Ops.
Variables p a q : Z.

Definition neg (P : Point) : Point :=
  if is_identity P then P else mkPoint (px P) ((- py P) mod p).

Definition add (P Q : Point) : Point :=
  if is_identity P then Q
  else if is_identity Q then P
  else if px P =? px Q then
    if (py P + py Q) mod p =? 0 then mkPoint 0 0
    else
      let l := ((3 * px P * px P + a) * Z.invmod (2 * py P) p) mod p in
      let x3 := (l * l - 2 * px P) mod p in
      mkPoint x3 ((l * (px P - x3) - py P) mod p)
  else
    let l := ((py Q - py P) * Z.invmod (px Q - px P) p) mod p in
    let x3 := (l * l - px P - px Q) mod p in
    mkPoint x3 ((l * (px P - x3) - py P) mod p).

Fixpoint mul_pos (k : positive) (P : Point) : Point :=
  match k with
  | xH => P
  | xO k' => let D := mul_pos k' P in add D D
  | xI k' => let D := mul_pos k' P in add (add D D) P
  end.

Definition mul (k : Z) (P : Point) : Point :=
  match k mod q with
  | Zpos k' => mul_pos k' P
  | _ => mkPoint 0 0
  end.

End Ops.

Definition make (p a b q : Z) (g : Point) : Fastecdsa :=
  {| curve_p := p; curve_a := a; curve_b := b; ORDER := q; G := g;
     point_add := add p a; point_neg := neg p; point_mul := mul p a q |}.

End Affine.

(** secp256k1, the curve the node runs on. *)
Definition secp256k1 : Fastecdsa :=
  Affine.make
    (2 ^ 256 - 2 ^ 32 - 977) 0 7
    0xFFFFFFFFFFFFFFFFFFFFFFFFFFFFFFFEBAAEDCE6AF48A03BBFD25E8CD0364141
    (mkPoint
       0x79BE667EF9DCBBAC55A06295CE870B07029BFCDB2DCE28D959F2815B16F81798
       0x483ADA7726A3C4655DA4FBFC0E1108A8FD17B448A68554199C47D08FFB10D4B8).

(** A curve of the same shape, [y^2 = x^3 + 7] over the field of 43
    elements; its 31 points are the multiples of [(2, 12)]. *)
Definition toy_curve : Fastecdsa :=
  Affine.make 43 0 7 31 (mkPoint 2 12).

(** A stand-in for the standard library on the small curve: the hash is
    the input read as a number and reduced, the printer writes the fields
    of a document one after the other, and the parser knows one signing
    request. *)
Fixpoint toy_dumps (j : json) : string :=
  match j with
  | JNull => "null"
  | JBool b => if b then "true" else "false"
  | JInt n => Py.format_x n
  | JStr s => s
  | JObj fields =>
      (fix go (l : list (string * json)) : string :=
         match l with
         | nil => "}"
         | (k, v) :: l' => k +:+ ":" +:+ toy_dumps v +:+ ";" +:+ go l'
         end) fields
  end.

Definition toy_request : json :=
  JObj (("request_id", JStr "tx_1")
     :: ("message_hash", JStr "2cf24dba")
     :: ("message_preview", JStr "hello")
     :: ("requester", JStr "node2")
     :: ("timestamp", JInt 0) :: nil).

Definition toy_pylib : PyLib :=
  {| sha256 := fun data =>
       match Byte.of_N (Z.to_N (Py.int_from_bytes data mod 251)) with
       | Some b => b :: nil
       | None => nil
       end;
     hmac_sha512 := fun key data =>
       match Byte.of_N (Z.to_N ((Py.int_from_bytes key
                                 + Py.int_from_bytes data) mod 251)) with
       | Some b => b :: nil
       | None => nil
       end;
     json_dumps := toy_dumps;
     json_loads := fun data =>
       if String.eqb (string_of_list_byte data) (toy_dumps toy_request)
       then Ok toy_request else Raise ValueError |}.

(** ** The HSM token (hardware.py) *)

(** The token: the [VALUE] of its objects by [LABEL], and the mode that
    [os.environ.get('HSM_MODE', 'production')] returns. An operation that
    raises may have changed the token, so every operation returns the
    token with its result. *)
Record HardwareToken : Type := mkToken {
  objects : gmap string Py.bytes;
  HSM_MODE : string
}.

(** secp256k1's order, as hardware.py spells it out. *)
Definition CURVE_ORDER : Z :=
  0xFFFFFFFFFFFFFFFFFFFFFFFFFFFFFFFEBAAEDCE6AF48A03BBFD25E8CD0364141.

Record NonceDerivation : Type := mkNonceDerivation {
  counter : Z;
  k : Z;
  R_hex : string;
  nd_request_id : string;
  message_hash_hex : string
}.

Definition NONCE_MASTER_LABEL : string := "NONCE_MASTER_SEED".
Definition NONCE_COUNTER_LABEL : string := "NONCE_COUNTER".

Section Hardware.
Context {curve : Fastecdsa} {pylib : PyLib}.

(** [session.get_key(label=...)], [session.create_object] and
    [key.destroy()]. *)
Definition get_key (hsm : HardwareToken) (label : string) : res Py.bytes :=
  of_option NoSuchKey (objects hsm !! label).

Definition create_object (hsm : HardwareToken) (label : string)
    (value : Py.bytes) : HardwareToken :=
  mkToken (<[label := value]> (objects hsm)) (HSM_MODE hsm).

Definition destroy (hsm : HardwareToken) (label : string) : HardwareToken :=
  mkToken (delete label (objects hsm)) (HSM_MODE hsm).

Definition is_production_mode (hsm : HardwareToken) : bool :=
  String.eqb (HSM_MODE hsm) "production".

Definition store_dkg_share (hsm : HardwareToken) (round_id : string)
    (share_bytes : Py.bytes) : HardwareToken :=
  let label := "DKG_SHARE_" +:+ round_id in
  let hsm1 :=
    match get_key hsm label with
    | Ok _ => destroy hsm label
    | Raise _ => hsm
    end in
  create_object hsm1 label share_bytes.

Definition get_dkg_share (hsm : HardwareToken) (round_id : string)
  : res Py.bytes :=
  if is_production_mode hsm then Raise SecurityError
  else get_key hsm ("DKG_SHARE_" +:+ round_id).

Definition has_nonce_commitment (hsm : HardwareToken) (request_id : string)
  : bool :=
  match get_key hsm ("NONCE_" +:+ request_id) with
  | Ok _ => true
  | Raise _ => false
  end.

Definition store_nonce_commitment (hsm : HardwareToken)
    (request_id commitment_hex : string) : res unit * HardwareToken :=
  let label := "NONCE_" +:+ request_id in
  if has_nonce_commitment hsm request_id then (Raise SecurityError, hsm)
  else (Ok tt, create_object hsm label (Py.encode commitment_hex)).

Definition has_nonce_master_seed (hsm : HardwareToken) : bool :=
  match get_key hsm NONCE_MASTER_LABEL with
  | Ok _ => true
  | Raise _ => false
  end.

(** [initialize_nonce_derivation]; [master_seed] is what [os.urandom(32)]
    returns. *)
Definition initialize_nonce_derivation (hsm : HardwareToken)
    (master_seed : Py.bytes) : bool * HardwareToken :=
  if has_nonce_master_seed hsm then (false, hsm)
  else
    let hsm1 := create_object hsm NONCE_MASTER_LABEL master_seed in
    (true, create_object hsm1 NONCE_COUNTER_LABEL (Py.to_bytes_aux 8 0 nil)).

Definition _get_nonce_master_seed (hsm : HardwareToken) : res Py.bytes :=
  if is_production_mode hsm then Raise SecurityError
  else get_key hsm NONCE_MASTER_LABEL.

Definition _get_nonce_counter (hsm : HardwareToken) : res Z :=
  if is_production_mode hsm then Raise SecurityError
  else value ← get_key hsm NONCE_COUNTER_LABEL; Ok (Py.int_from_bytes value).

Definition _increment_nonce_counter (hsm : HardwareToken)
  : res Z * HardwareToken :=
  if is_production_mode hsm then (Raise SecurityError, hsm)
  else
    match get_key hsm NONCE_COUNTER_LABEL with
    | Raise e => (Raise e, hsm)
    | Ok current =>
        let current_value := Py.int_from_bytes current in
        let new_value := current_value + 1 in
        let hsm1 := destroy hsm NONCE_COUNTER_LABEL in
        match Py.to_bytes 8 new_value with
        | None => (Raise OverflowError, hsm1)
        | Some value => (Ok new_value, create_object hsm1 NONCE_COUNTER_LABEL value)
        end
    end.

Definition _store_derivation_record (hsm : HardwareToken) (counter : Z)
    (request_id R_hex message_hash_hex : string) : HardwareToken :=
  let label := "NONCE_DERIV_" +:+ Py.str_of_int counter in
  let record :=
    json_dumps (JObj (("counter", JInt counter)
                   :: ("request_id", JStr request_id)
                   :: ("R_hex", JStr R_hex)
                   :: ("message_hash_hex", JStr message_hash_hex) :: nil)) in
  create_object hsm label (Py.encode record).

Definition derive_nonce (hsm : HardwareToken) (request_id : string)
    (message_hash : Py.bytes) : res NonceDerivation * HardwareToken :=
  if negb (has_nonce_master_seed hsm) then (Raise SecurityError, hsm)
  else
    match _increment_nonce_counter hsm with
    | (Raise e, hsm1) => (Raise e, hsm1)
    | (Ok counter, hsm1) =>
        match _get_nonce_master_seed hsm1 with
        | Raise e => (Raise e, hsm1)
        | Ok master_seed =>
            match Py.to_bytes 8 counter with
            | None => (Raise OverflowError, hsm1)
            | Some counter_bytes =>
                let derivation_input :=
                  (x00 :: counter_bytes ++ Py.encode request_id
                       ++ message_hash)%list in
                let derived := hmac_sha512 master_seed derivation_input in
                let k := Py.int_from_bytes (firstn 32 derived) mod CURVE_ORDER in
                if k =? 0 then (Raise SecurityError, hsm1)
                else
                  let R := point_mul k G in
                  let R_hex := point_to_hex R in
                  let hsm2 :=
                    _store_derivation_record hsm1 counter request_id R_hex
                      (Py.bytes_hex message_hash) in
                  (Ok {| counter := counter; k := k; R_hex := R_hex;
                         nd_request_id := request_id;
                         message_hash_hex := Py.bytes_hex message_hash |},
                   hsm2)
            end
        end
    end.

End Hardware.

(** ** The node-state store (state.py) *)

Record DKGState : Type := mkDKGState {
  dkg_round_id : string;
  phase : string;
  dkg_threshold : Z;
  dkg_total_nodes : Z;
  my_share_stored : bool;
  group_pubkey_hex : string
}.

(** The entries of [nonce_derivations]. *)
Record DerivationInfo : Type := mkDerivationInfo {
  di_counter : Z;
  di_R_hex : string;
  di_message_hash_hex : string
}.

Record SigningState : Type := mkSigningState {
  used_nonces : gmap string string;
  nonce_derivations : gmap string DerivationInfo
}.

Record NodeState : Type := mkNodeState {
  ns_node_id : string;
  initialized : bool;
  identity_key_posted : bool;
  dkg : DKGState;
  signing : SigningState
}.

(** [NodeState(node_id=node_id)], what [RigidState.__init__] saves when
    there is no state file. *)
Definition NodeState_default (node_id : string) : NodeState :=
  {| ns_node_id := node_id; initialized := false;
     identity_key_posted := false;
     dkg := {| dkg_round_id := ""; phase := "none"; dkg_threshold := 0;
               dkg_total_nodes := 0; my_share_stored := false;
               group_pubkey_hex := "" |};
     signing := {| used_nonces := ∅; nonce_derivations := ∅ |} |}.

(** The store is its state file; [None] before the file exists. *)
Definition RigidState_init (file : option NodeState) (node_id : string)
  : NodeState :=
  match file with
  | Some s => s
  | None => NodeState_default node_id
  end.

(** [update(updater)]: load, apply, save. *)
Definition update (file : NodeState) (updater : NodeState -> NodeState)
  : NodeState :=
  updater file.

Definition check_nonce_unused (file : NodeState) (request_id : string) : bool :=
  match used_nonces (signing file) !! request_id with
  | Some _ => false
  | None => true
  end.

Definition set_signing (s : NodeState) (sg : SigningState) : NodeState :=
  {| ns_node_id := ns_node_id s; initialized := initialized s;
     identity_key_posted := identity_key_posted s; dkg := dkg s;
     signing := sg |}.

Definition record_nonce_use (file : NodeState) (request_id commitment : string)
  : NodeState :=
  update file (fun s =>
    set_signing s
      {| used_nonces := <[request_id := commitment]> (used_nonces (signing s));
         nonce_derivations := nonce_derivations (signing s) |}).

Definition record_nonce_derivation (file : NodeState) (request_id : string)
    (counter : Z) (R_hex message_hash_hex : string) : NodeState :=
  update file (fun s =>
    set_signing s
      {| used_nonces := <[request_id := R_hex]> (used_nonces (signing s));
         nonce_derivations :=
           <[request_id := {| di_counter := counter; di_R_hex := R_hex;
                              di_message_hash_hex := message_hash_hex |}]>
             (nonce_derivations (signing s)) |}).

Definition get_derivation_info (file : NodeState) (request_id : string)
  : option DerivationInfo :=
  nonce_derivations (signing file) !! request_id.

(** The updaters that main.py passes to [update]: those of [init],
    [dkg-start], [dkg-distribute] and [dkg-finalize]. *)
Definition set_dkg (s : NodeState) (d : DKGState) : NodeState :=
  {| ns_node_id := ns_node_id s; initialized := initialized s;
     identity_key_posted := identity_key_posted s; dkg := d;
     signing := signing s |}.

Definition init_update (s : NodeState) : NodeState :=
  {| ns_node_id := ns_node_id s; initialized := true;
     identity_key_posted := true; dkg := dkg s; signing := signing s |}.

Definition dkg_start_update (round_id : string) (threshold total : Z)
    (s : NodeState) : NodeState :=
  set_dkg s {| dkg_round_id := round_id; phase := "committed";
               dkg_threshold := threshold; dkg_total_nodes := total;
               my_share_stored := my_share_stored (dkg s);
               group_pubkey_hex := group_pubkey_hex (dkg s) |}.

Definition dkg_distribute_update (s : NodeState) : NodeState :=
  set_dkg s {| dkg_round_id := dkg_round_id (dkg s); phase := "distributed";
               dkg_threshold := dkg_threshold (dkg s);
               dkg_total_nodes := dkg_total_nodes (dkg s);
               my_share_stored := my_share_stored (dkg s);
               group_pubkey_hex := group_pubkey_hex (dkg s) |}.

Definition dkg_finalize_update (pk_hex : string) (s : NodeState) : NodeState :=
  set_dkg s {| dkg_round_id := dkg_round_id (dkg s); phase := "finalized";
               dkg_threshold := dkg_threshold (dkg s);
               dkg_total_nodes := dkg_total_nodes (dkg s);
               my_share_stored := true;
               group_pubkey_hex := pk_hex |}.

(** The operations on the store that the node performs. *)
Inductive store_op : Type :=
  | OpInit
  | OpDkgStart (round_id : string) (threshold total : Z)
  | OpDkgDistribute
  | OpDkgFinalize (pk_hex : string)
  | OpRecordNonceUse (request_id commitment : string)
  | OpRecordNonceDerivation (request_id : string) (counter : Z)
      (R_hex message_hash_hex : string).

Definition store_step (file : NodeState) (op : store_op) : NodeState :=
  match op with
  | OpInit => update file init_update
  | OpDkgStart r t n => update file (dkg_start_update r t n)
  | OpDkgDistribute => update file dkg_distribute_update
  | OpDkgFinalize pk => update file (dkg_finalize_update pk)
  | OpRecordNonceUse r c => record_nonce_use file r c
  | OpRecordNonceDerivation r c R m => record_nonce_derivation file r c R m
  end.

(** ** sign-approve (main.py) *)

(** What one node sees: its state file, its token, the bulletin board (the
    files of the Git repository, by path) and the signer files it wrote. *)
Record World : Type := mkWorld {
  state_file : NodeState;
  token : HardwareToken;
  board : gmap string Py.bytes;
  signer_files : gmap string Py.bytes
}.

(** What a call of [sign-approve] did: it derived a nonce, it built (and
    tried to post) a nonce commitment. *)
Inductive event : Type :=
  | Derived (request_id : string) (d : NonceDerivation)
  | Committed (request_id : string) (R_commitment : string).

(** How a call ends: one of the [return]s of the command, in the order of
    the code, or an exception that nothing catches. *)
Inductive outcome : Type :=
  | DkgNotComplete
  | NonceUsedLocal
  | NonceUsedHSM
  | CommitmentOnBoard
  | RequestNotFound
  | Rejected
  | ProductionMode
  | DerivationFailed (e : exn)
  | Approved
  | Uncaught (e : exn).

Section Node.
Context {curve : Fastecdsa} {pylib : PyLib}.
Variable NODE_ID : string.

(** [mailbox.read(path)] and the test [if data:] on its result, which an
    absent file and an empty one both fail. *)
Definition mailbox_read (b : gmap string Py.bytes) (path : string)
  : option Py.bytes := b !! path.

Definition truthy (data : option Py.bytes) : bool :=
  match data with
  | Some (_ :: _) => true
  | _ => false
  end.

Definition commitment_path (request_id : string) : string :=
  "signing/" +:+ request_id +:+ "/commitments/" +:+ NODE_ID +:+ ".json".

Definition request_path (request_id : string) : string :=
  "signing/" +:+ request_id +:+ "/request.json".

Definition signer_path (request_id : string) : string :=
  "signer_" +:+ request_id +:+ ".json".

(** [d.get(key, default)] on a parsed document; a document that is not an
    object has no [get]. *)
Fixpoint fields_get (fields : list (string * json)) (key : string)
  : option json :=
  match fields with
  | nil => None
  | (k', v) :: rest => if String.eqb key k' then Some v else fields_get rest key
  end.

(** The recovery of layer 3: the [try] block, whose exceptions are all
    caught. [existing_R[:32]] needs a string. *)
Definition recover (w : World) (request_id : string) (existing : Py.bytes)
  : World :=
  match json_loads existing with
  | Ok (JObj fields) =>
      let existing_R :=
        match fields_get fields "R_commitment" with
        | Some v => v
        | None => JStr "unknown"
        end in
      match existing_R with
      | JStr R =>
          match store_nonce_commitment (token w) request_id R with
          | (Ok _, hsm1) =>
              mkWorld (record_nonce_use (state_file w) request_id R) hsm1
                (board w) (signer_files w)
          | (Raise _, hsm1) =>
              mkWorld (state_file w) hsm1 (board w) (signer_files w)
          end
      | _ => w
      end
  | _ => w
  end.

(** The construction of the [SigningRequest] from the parsed request: the
    document must be an object with exactly the fields of the dataclass;
    the result is its [message_hash]. *)
Definition request_fields : list string :=
  "request_id" :: "message_hash" :: "message_preview" :: "requester"
  :: "timestamp" :: nil.

Definition SigningRequest_message_hash (data : Py.bytes) : res json :=
  doc ← json_loads data;
  match doc with
  | JObj fields =>
      if forallb (fun k => bool_decide (k ∈ request_fields)) (map fst fields)
         && forallb (fun k => bool_decide (k ∈ map fst fields)) request_fields
      then of_option TypeError (fields_get fields "message_hash")
      else Raise TypeError
  | _ => Raise TypeError
  end.

(** [NonceCommitment(...).to_json()]. *)
Definition NonceCommitment_to_json (request_id R_commitment : string)
    (timestamp : Z) : Py.bytes :=
  Py.encode (json_dumps
    (JObj (("node_id", JStr NODE_ID)
        :: ("request_id", JStr request_id)
        :: ("R_commitment", JStr R_commitment)
        :: ("timestamp", JInt timestamp) :: nil))).

(** What the call reads from outside the node: the answer to the prompt,
    the clock, and whether [mailbox.post] gets through. *)
Record approve_input : Type := mkApproveInput {
  confirm : bool;
  timestamp : Z;
  post_succeeds : bool
}.

Definition set_token (w : World) (hsm : HardwareToken) : World :=
  mkWorld (state_file w) hsm (board w) (signer_files w).

Definition sign_approve (w : World) (request_id : string) (inp : approve_input)
  : World * outcome * list event :=
  let current := state_file w in
  if negb (my_share_stored (dkg current)) then (w, DkgNotComplete, nil)
  (* Layer 1: local state *)
  else if negb (check_nonce_unused (state_file w) request_id)
  then (w, NonceUsedLocal, nil)
  (* Layer 2: HSM *)
  else if has_nonce_commitment (token w) request_id
  then (w, NonceUsedHSM, nil)
  else
  (* Layer 3: bulletin board *)
  let existing_commitment := mailbox_read (board w) (commitment_path request_id) in
  if truthy existing_commitment
  then (recover w request_id (default nil existing_commitment),
        CommitmentOnBoard, nil)
  else
  let req_data := mailbox_read (board w) (request_path request_id) in
  if negb (truthy req_data) then (w, RequestNotFound, nil)
  else
  match SigningRequest_message_hash (default nil req_data) with
  | Raise e => (w, Uncaught e, nil)
  | Ok req_message_hash =>
  if negb (confirm inp) then (w, Rejected, nil)
  else if is_production_mode (token w) then (w, ProductionMode, nil)
  else
  match get_dkg_share (token w) (dkg_round_id (dkg current)) with
  | Raise e => (w, Uncaught e, nil)
  | Ok share_bytes =>
  let share := Py.int_from_bytes share_bytes in
  match req_message_hash with
  | JStr req_hash_hex =>
  match Py.bytes_fromhex req_hash_hex with
  | None => (w, Uncaught ValueError, nil)
  | Some message_hash_bytes =>
  match derive_nonce (token w) request_id message_hash_bytes with
  | (Raise e, hsm1) => (set_token w hsm1, DerivationFailed e, nil)
  | (Ok derivation, hsm1) =>
  let ev1 := Derived request_id derivation in
  let R := R_hex derivation in
  match
    (pk ← hex_to_point (group_pubkey_hex (dkg current));
     signer ← ThresholdSigner_init NODE_ID share pk;
     create_nonce_commitment_from_k signer request_id message_hash_bytes
       (k derivation) R)
  with
  | Raise e => (set_token w hsm1, Uncaught e, ev1 :: nil)
  | Ok (_, signer) =>
  let hsm2 := snd (store_nonce_commitment hsm1 request_id R) in
  (* Step 2: local state *)
  let file' :=
    record_nonce_derivation (state_file w) request_id (counter derivation)
      R (message_hash_hex derivation) in
  (* Step 3: bulletin board *)
  let msg := NonceCommitment_to_json request_id R (timestamp inp) in
  let ev2 := Committed request_id R in
  if negb (post_succeeds inp)
  then (mkWorld file' hsm2 (board w) (signer_files w), Uncaught PostFailed,
        ev1 :: ev2 :: nil)
  else
  let board' := <[commitment_path request_id := msg]> (board w) in
  let files' :=
    <[signer_path request_id := to_json signer]> (signer_files w) in
  (mkWorld file' hsm2 board' files', Approved, ev1 :: ev2 :: nil)
  end
  end
  end
  | _ => (w, Uncaught TypeError, nil)
  end
  end
  end.

(** A node's life: calls of sign-approve, between which the state file or
    the board may be put back to another content. *)
Inductive action : Type :=
  | Approve (request_id : string) (inp : approve_input)
  | RewindLocal (file : NodeState)
  | RewindBoard (b : gmap string Py.bytes).

Definition step (w : World) (a : action) : World * list event :=
  match a with
  | Approve request_id inp =>
      let '(w', _, evs) := sign_approve w request_id inp in (w', evs)
  | RewindLocal file =>
      (mkWorld file (token w) (board w) (signer_files w), nil)
  | RewindBoard b =>
      (mkWorld (state_file w) (token w) b (signer_files w), nil)
  end.

Fixpoint run (w : World) (actions : list action) : World * list event :=
  match actions with
  | nil => (w, nil)
  | a :: rest =>
      let '(w1, evs1) := step w a in
      let '(w2, evs2) := run w1 rest in
      (w2, (evs1 ++ evs2)%list)
  end.

End Node.

(** * Properties *)

(** ** The node-state store *)

(** Every request with recorded derivation metadata is a used nonce. *)
Definition derivations_are_used (s : NodeState) : Prop :=
  dom (nonce_derivations (signing s)) ⊆ dom (used_nonces (signing s)).

Lemma record_nonce_derivation_both s rid c R m :
  used_nonces (signing (record_nonce_derivation s rid c R m)) !! rid = Some R
  ∧ nonce_derivations (signing (record_nonce_derivation s rid c R m)) !! rid
    = Some (mkDerivationInfo c R m).
Proof.
  unfold record_nonce_derivation, update; simpl.
  by rewrite !lookup_insert_eq.
Qed.

Lemma record_nonce_use_only s rid c :
  used_nonces (signing (record_nonce_use s rid c)) !! rid = Some c
  ∧ nonce_derivations (signing (record_nonce_use s rid c))
    = nonce_derivations (signing s).
Proof.
  unfold record_nonce_use, update; simpl.
  by rewrite lookup_insert_eq.
Qed.

Lemma store_step_keeps_invariant s op :
  derivations_are_used s → derivations_are_used (store_step s op).
Proof.
  unfold derivations_are_used.
  destruct op; simpl; unfold update, record_nonce_use,
    record_nonce_derivation, update; simpl; try done.
  - rewrite dom_insert_L. set_solver.
  - rewrite !dom_insert_L. set_solver.
Qed.

Lemma store_run_keeps_invariant ops s :
  derivations_are_used s → derivations_are_used (fold_left store_step ops s).
Proof.
  revert s. induction ops as [|op ops IH]; intros s Hs; simpl; [done|].
  apply IH, store_step_keeps_invariant, Hs.
Qed.

(** C10: the store starts with both maps empty, each of its operations
    keeps the keys of [nonce_derivations] among the keys of [used_nonces]
    (recording a derivation writes the request into both maps, recording a
    plain use writes [used_nonces] only), and so, after any operations, a
    request with derivation metadata fails the layer-1 check. *)
Theorem store_derivations_in_used_nonces :
  (∀ node_id,
     used_nonces (signing (RigidState_init None node_id)) = ∅
     ∧ nonce_derivations (signing (RigidState_init None node_id)) = ∅)
  ∧ (∀ s op, derivations_are_used s → derivations_are_used (store_step s op))
  ∧ (∀ s rid c R m,
       used_nonces (signing (record_nonce_derivation s rid c R m)) !! rid = Some R
       ∧ nonce_derivations (signing (record_nonce_derivation s rid c R m)) !! rid
         = Some (mkDerivationInfo c R m))
  ∧ (∀ s rid c,
       nonce_derivations (signing (record_nonce_use s rid c))
       = nonce_derivations (signing s))
  ∧ (∀ node_id ops rid,
       let s := fold_left store_step ops (RigidState_init None node_id) in
       is_Some (get_derivation_info s rid) → check_nonce_unused s rid = false).
Proof.
  split; [done|].
  split; [apply store_step_keeps_invariant|].
  split; [apply record_nonce_derivation_both|].
  split; [intros; apply record_nonce_use_only|].
  intros node_id ops rid s Hd.
  assert (Hinv : derivations_are_used s).
  { apply store_run_keeps_invariant. unfold derivations_are_used.
    simpl. set_solver. }
  unfold get_derivation_info in Hd.
  apply elem_of_dom in Hd. apply Hinv in Hd. apply elem_of_dom in Hd.
  unfold check_nonce_unused. by destruct Hd as [v ->].
Qed.

Lemma store_derivations_in_used_nonces_witness :
  check_nonce_unused
    (fold_left store_step
       (OpInit :: OpRecordNonceDerivation "tx_1" 1 "02ab" "2cf2" :: nil)
       (RigidState_init None "node1")) "tx_1" = false.
Proof.
  apply (proj2 (proj2 (proj2 (proj2 store_derivations_in_used_nonces)))).
  unfold get_derivation_info; simpl.
  rewrite lookup_insert_eq. eexists; reflexivity.
Defined.

(** ** Dictionaries *)

Lemma Dict_get_set_eq {V} (d : dict V) key v :
  Dict.get (Dict.set d key v) key = Some v.
Proof.
  induction d as [|[k' v'] d IH]; simpl.
  - by rewrite String.eqb_refl.
  - destruct (String.eqb key k') eqn:E; simpl; rewrite ?String.eqb_refl, ?E; auto.
Qed.

Lemma Dict_get_set_ne {V} (d : dict V) key key' v :
  key ≠ key' → Dict.get (Dict.set d key v) key' = Dict.get d key'.
Proof.
  intros Hne. induction d as [|[k0 v0] d IH]; simpl.
  - destruct (String.eqb_spec key' key); congruence.
  - destruct (String.eqb_spec key k0) as [->|Hk]; simpl.
    + destruct (String.eqb_spec key' k0); congruence.
    + destruct (String.eqb_spec key' k0); auto.
Qed.

(** ** The signer engine: the nonce after a partial signature *)

Section SignerFacts.
Context {curve : Fastecdsa} {pylib : PyLib}.

(** C4: when [compute_partial_signature] returns, the session it worked on
    holds no nonce any more: [my_nonce_k] is [None] in the signer's state
    after the call (and was a number before it, as the partial signature
    needs one). *)
Theorem compute_partial_signature_wipes_nonce
    (signer signer' : ThresholdSigner) (req_id : string)
    (participants : list string) (s_hex : string) :
  compute_partial_signature signer req_id participants = Ok (s_hex, signer') →
  (∃ session k, Dict.get (sessions signer) req_id = Some session
                ∧ my_nonce_k session = Some k)
  ∧ (∃ session', Dict.get (sessions signer') req_id = Some session'
                 ∧ my_nonce_k session' = None).
Proof.
  unfold compute_partial_signature, Dict.item.
  destruct (Dict.get (sessions signer) req_id) as [session|] eqn:Hs;
    simpl; [|discriminate].
  destruct (aggregate_loop _ _ _) as [R|]; simpl; [|discriminate].
  destruct (mapM_res _ _) as [idx|]; simpl; [|discriminate].
  destruct (lagrange_loop _ _ _ _) as [num den].
  destruct (mod_inverse _ _) as [den_inv|]; simpl; [|discriminate].
  destruct (my_nonce_k session) as [k0|] eqn:Hk; simpl; [|discriminate].
  intros [= _ <-]. split.
  - by exists session, k0.
  - eexists. simpl. rewrite Dict_get_set_eq. by split.
Qed.

End SignerFacts.

(** A signer of the small curve in the middle of a session with node2. *)
Definition toy_signer : ThresholdSigner :=
  {| node_id := "node1"; my_index := 1; my_share := 5;
     group_pubkey := @point_mul toy_curve 7 (@G toy_curve);
     sessions :=
       ("tx_1",
        {| request_id := "tx_1"; message_hash := x2c :: xf2 :: nil;
           my_nonce_k := Some 3;
           nonce_commitments :=
             ("node1", @point_mul toy_curve 3 (@G toy_curve))
             :: ("node2", @point_mul toy_curve 4 (@G toy_curve)) :: nil;
           partial_signatures := nil |}) :: nil |}.

Definition toy_partial : string * ThresholdSigner :=
  Eval vm_compute in
    match @compute_partial_signature toy_curve toy_pylib toy_signer "tx_1"
            ("node1" :: "node2" :: nil) with
    | Ok r => r
    | Raise _ => (EmptyString, toy_signer)
    end.

Lemma compute_partial_signature_wipes_nonce_witness :
  (∃ session k, Dict.get (sessions toy_signer) "tx_1" = Some session
                ∧ my_nonce_k session = Some k)
  ∧ (∃ session', Dict.get (sessions (snd toy_partial)) "tx_1" = Some session'
                 ∧ my_nonce_k session' = None).
Proof.
  apply (compute_partial_signature_wipes_nonce
           (curve := toy_curve) (pylib := toy_pylib)
           toy_signer (snd toy_partial) "tx_1" ("node1" :: "node2" :: nil)
           (fst toy_partial)).
  vm_compute. reflexivity.
Defined.

(** ** The DKG engine: shares are stored only when they verify *)

Lemma Point_eqb_eq (P Q : Point) : Point_eqb P Q = true ↔ P = Q.
Proof.
  unfold Point_eqb. destruct P as [x1 y1], Q as [x2 y2]; simpl.
  rewrite andb_true_iff, !Z.eqb_eq. split.
  - by intros [-> ->].
  - by intros [= -> ->].
Qed.

(** The operations of the engine that change a session. *)
Inductive dkg_op : Type :=
  | DoGeneratePolynomial (sampled : list Z)
  | DoReceiveCommitment (from_node : string) (commitments_hex : list string)
  | DoReceiveShare (from_node : string) (share_value : Z).

Section FeldmanFacts.
Context {curve : Fastecdsa} {pylib : PyLib}.

(** The right-hand side of Feldman's equation, as the specification writes
    it: the sum over [k] of [(index^k mod n) * C_k], from the identity. *)
Definition feldman_sum (index : Z) (commitments : list Point) : Point :=
  fold_left
    (fun acc '(k, C_k) =>
       point_add acc (point_mul ((index ^ Z.of_nat k) mod ORDER) C_k))
    (combine (seq 0 (length commitments)) commitments) IDENTITY.

(** A share passes verification in a session when the sender's commitments
    are there and Feldman's equation holds against them. *)
Definition passes (st : DKGRound) (from_node : string) (share_value : Z) : Prop :=
  ∃ commitments,
    Dict.get (other_commitments st) from_node = Some commitments
    ∧ point_mul share_value G = feldman_sum (dkg_my_index st) commitments.

(** One operation of the engine; a [receive_commitment] that raises leaves
    the session as it was. *)
Definition dkg_step (st : DKGRound) (op : dkg_op) : DKGRound :=
  match op with
  | DoGeneratePolynomial sampled => fst (generate_polynomial st sampled)
  | DoReceiveCommitment from_node hexes =>
      match receive_commitment st from_node hexes with
      | Ok st' => st'
      | Raise _ => st
      end
  | DoReceiveShare from_node share_value =>
      snd (receive_share st from_node share_value)
  end.

(** The sessions a run goes through, each with the operation applied to
    it, and the session it ends in. *)
Fixpoint dkg_run (st : DKGRound) (ops : list dkg_op)
  : list (DKGRound * dkg_op) * DKGRound :=
  match ops with
  | nil => (nil, st)
  | op :: rest =>
      let '(calls, final) := dkg_run (dkg_step st op) rest in
      ((st, op) :: calls, final)
  end.

Lemma feldman_loop_sum (Hn : ORDER ≠ 0) index commitments :
  feldman_loop commitments 0 index IDENTITY = feldman_sum index commitments.
Proof.
  unfold feldman_sum.
  enough (Hgen : ∀ cs (n : nat) acc,
    feldman_loop cs (Z.of_nat n) index acc
    = fold_left
        (fun acc '(k, C_k) =>
           point_add acc (point_mul ((index ^ Z.of_nat k) mod ORDER) C_k))
        (combine (seq n (length cs)) cs) acc) by apply (Hgen _ 0%nat).
  induction cs as [|C cs IH]; intros n acc; simpl; [done|].
  rewrite Zpow_mod_correct by done.
  replace (Z.of_nat n + 1) with (Z.of_nat (S n)) by lia.
  apply IH.
Qed.

Lemma receive_share_spec (Hn : ORDER ≠ 0) st from_node share_value :
  (fst (receive_share st from_node share_value) = true
   ↔ passes st from_node share_value)
  ∧ (fst (receive_share st from_node share_value) = true →
     snd (receive_share st from_node share_value)
     = set_received_shares st
         (Dict.set (received_shares st) from_node share_value))
  ∧ (fst (receive_share st from_node share_value) = false →
     snd (receive_share st from_node share_value) = st).
Proof.
  unfold receive_share, passes.
  destruct (Dict.get (other_commitments st) from_node) as [cs|] eqn:Hc.
  - rewrite feldman_loop_sum by done.
    destruct (Point_eqb _ _) eqn:E; simpl.
    + apply Point_eqb_eq in E. repeat split; try done. by exists cs.
    + repeat split; try done. intros (cs' & [= <-] & Heq).
      apply Point_eqb_eq in Heq. congruence.
  - simpl. repeat split; try done. by intros (cs & ? & _).
Qed.

Lemma dkg_step_received (Hn : ORDER ≠ 0) st op from_node v :
  Dict.get (received_shares (dkg_step st op)) from_node = Some v →
  Dict.get (received_shares st) from_node = Some v
  ∨ (op = DoReceiveShare from_node v ∧ passes st from_node v).
Proof.
  destruct op as [sampled|f hexes|f share]; simpl.
  - auto.
  - unfold receive_commitment.
    destruct (mapM_res _ _); simpl; auto.
  - destruct (receive_share_spec Hn st f share) as (Hiff & Hyes & Hno).
    destruct (fst (receive_share st f share)) eqn:E.
    + rewrite Hyes by done. simpl.
      destruct (decide (f = from_node)) as [->|Hne].
      * rewrite Dict_get_set_eq. intros [= ->]. right. split; [done|].
        by apply Hiff.
      * rewrite Dict_get_set_ne by done. auto.
    + rewrite Hno by done. auto.
Qed.


End FeldmanFacts.

(** A session of node1 on the small curve that holds the commitments of
    node2 for the polynomial [3 + 4 x]: the share 7 verifies. *)
Definition toy_dkg_session : DKGRound :=
  {| round_id := "r1"; dkg_node_id := "node1"; dkg_my_index := 1;
     threshold := 2; total_nodes := 3;
     my_coefficients := None; my_commitments := None;
     shares_for_others := nil; received_shares := nil;
     other_commitments :=
       ("node2", @point_mul toy_curve 3 (@G toy_curve)
                 :: @point_mul toy_curve 4 (@G toy_curve) :: nil) :: nil;
     my_final_share := None; group_public_key := None |}.


(** ** The signer engine: combining partial signatures *)

Definition Zsum (l : list Z) : Z := fold_left Z.add l 0.

Lemma fold_left_Zadd l a : fold_left Z.add l a = a + Zsum l.
Proof.
  unfold Zsum. revert a. induction l as [|x l IH]; intros a; simpl; [lia|].
  rewrite (IH (a + x)), (IH (0 + x)). lia.
Qed.

Lemma Zsum_cons x l : Zsum (x :: l) = x + Zsum l.
Proof. unfold Zsum at 1. simpl. by rewrite fold_left_Zadd. Qed.

Lemma Zsum_app l1 l2 : Zsum (l1 ++ l2) = Zsum l1 + Zsum l2.
Proof.
  induction l1 as [|x l1 IH]; simpl; [done|]. rewrite !Zsum_cons, IH. lia.
Qed.

Lemma Zsum_perm l1 l2 : l1 ≡ₚ l2 → Zsum l1 = Zsum l2.
Proof.
  induction 1 as [|x l1 l2 _ IH|x y l|l1 l2 l3 _ IH1 _ IH2];
    rewrite ?Zsum_cons; try lia; congruence.
Qed.

Lemma Dict_get_in_keys {V} (d : dict V) key :
  key ∉ Dict.keys d → Dict.get d key = None.
Proof.
  induction d as [|[k0 v0] d IH]; simpl; [done|].
  intros Hn. destruct (String.eqb_spec key k0) as [->|_].
  - exfalso. apply Hn. left.
  - apply IH. intros H. apply Hn. by right.
Qed.

(** The values of a dictionary, looked up key by key. *)
Lemma Dict_values_lookup {V} (d : dict V) :
  NoDup (Dict.keys d) →
  map (Dict.get d) (Dict.keys d) = map Some (Dict.values d).
Proof.
  induction d as [|[k0 v0] d IH]; simpl; [done|].
  intros Hnd. apply NoDup_cons in Hnd as [Hk0 Hnd].
  rewrite String.eqb_refl. f_equal. rewrite <- IH by done.
  apply map_ext_in. intros key Hin.
  destruct (String.eqb_spec key k0) as [->|_]; [|done].
  exfalso. apply Hk0. by apply list_elem_of_In.
Qed.

Section CombineFacts.
Context {curve : Fastecdsa} {pylib : PyLib}.

(** The combination as the specification words it: the commitments and the
    partial signatures of the participants, and a failure when one of them
    has no partial signature. *)
Definition combine_spec (partials : dict Z) (commitments : dict Point)
    (participants : list string) : res (string * string) :=
  R ← aggregate_loop commitments participants IDENTITY;
  s_js ← mapM_res (fun j => Dict.item partials j) participants;
  Ok (point_to_hex R, Py.format_064x (Zsum s_js mod ORDER)).

Lemma aggregate_loop_spec commitments participants R0 :
  match mapM_res (fun j => Dict.item commitments j) participants with
  | Ok R_js =>
      aggregate_loop commitments participants R0
      = Ok (fold_left point_add R_js R0)
  | Raise e =>
      aggregate_loop commitments participants R0 = Raise KeyError
      ∧ e = KeyError
      ∧ ∃ j, j ∈ participants ∧ Dict.get commitments j = None
  end.
Proof.
  revert R0. induction participants as [|j rest IH]; intros R0; simpl; [done|].
  unfold Dict.item.
  destruct (Dict.get commitments j) as [R_j|] eqn:Hj; simpl.
  - specialize (IH (point_add R0 R_j)).
    destruct (mapM_res _ rest) as [R_js|e]; simpl; [done|].
    destruct IH as (-> & -> & j' & Hin & Hnone).
    repeat split; try done. exists j'. split; [by right|done].
  - repeat split; try done. exists j. split; [left|done].
Qed.

Lemma mapM_item_values (partials : dict Z) participants :
  NoDup (Dict.keys partials) → Dict.keys partials ≡ₚ participants →
  ∃ s_js, mapM_res (fun j => Dict.item partials j) participants = Ok s_js
          ∧ Zsum s_js = Zsum (Dict.values partials).
Proof.
  intros Hnd Hperm.
  assert (Hall : ∀ l, mapM_res (fun j => Dict.item partials j) l
                      = match mapM_res (of_option KeyError)
                                (map (Dict.get partials) l) with
                        | Ok v => Ok v | Raise e => Raise e end).
  { induction l as [|j l IH]; simpl; [done|]. rewrite IH. unfold Dict.item.
    destruct (Dict.get partials j); simpl; [|done].
    by destruct (mapM_res _ (map _ l)). }
  assert (Hsome : ∀ (l : list Z),
            mapM_res (of_option KeyError) (map Some l) = Ok l).
  { induction l as [|x l IH]; simpl; [done|]. by rewrite IH. }
  assert (Hp : map (Dict.get partials) participants
               ≡ₚ map Some (Dict.values partials)).
  { rewrite <- Dict_values_lookup by done. by rewrite Hperm. }
  assert (Hex : ∃ s_js, map (Dict.get partials) participants = map Some s_js
                        ∧ s_js ≡ₚ Dict.values partials).
  { revert Hp. generalize (Dict.values partials) as vs.
    generalize (map (Dict.get partials) participants) as os.
    intros os vs Hp.
    apply Permutation_map_inv in Hp as (l' & -> & Hp').
    exists l'. split; [done|]. by symmetry. }
  destruct Hex as (s_js & Heq & Hperm').
  exists s_js. split.
  - by rewrite Hall, Heq, Hsome.
  - by apply Zsum_perm.
Qed.

(** C6, as the code has it: [combine_signatures] adds the commitments of
    the participants, in their order, and fails (with [KeyError]) exactly
    when one of them has no commitment; its [s] is the sum of all the
    values of the partials map modulo the order, whoever they are from, and
    a participant without a partial signature is no failure. It is the
    combination of the specification when the keys of the partials map are
    the participants. *)
Theorem combine_signatures_sums_all_partials
    (partials : dict Z) (commitments : dict Point) (participants : list string) :
  match mapM_res (fun j => Dict.item commitments j) participants with
  | Ok R_js =>
      combine_signatures partials commitments participants
      = Ok (point_to_hex (fold_left point_add R_js IDENTITY),
            Py.format_064x (Zsum (Dict.values partials) mod ORDER))
  | Raise _ =>
      combine_signatures partials commitments participants = Raise KeyError
      ∧ ∃ j, j ∈ participants ∧ Dict.get commitments j = None
  end
  ∧ (NoDup (Dict.keys partials) → Dict.keys partials ≡ₚ participants →
     combine_signatures partials commitments participants
     = combine_spec partials commitments participants).
Proof.
  split.
  - unfold combine_signatures.
    pose proof (aggregate_loop_spec commitments participants IDENTITY) as H.
    destruct (mapM_res _ participants) as [R_js|e].
    + by rewrite H.
    + destruct H as (-> & _ & Hj). by split.
  - intros Hnd Hperm. unfold combine_signatures, combine_spec.
    destruct (aggregate_loop _ _ _) as [R|e]; simpl; [|done].
    destruct (mapM_item_values partials participants Hnd Hperm)
      as (s_js & -> & Hsum).
    simpl. unfold Zsum in *. by rewrite Hsum.
Qed.

End CombineFacts.

(** On the small curve: a partials map with one entry more than the
    participants is added up whole, and a participant without an entry is
    no failure, where the combination of the specification answers 1 and
    fails. *)
Lemma combine_signatures_counterexample :
  let commitments :=
    ("node1", @point_mul toy_curve 3 (@G toy_curve))
    :: ("node2", @point_mul toy_curve 4 (@G toy_curve)) :: nil in
  (@combine_signatures toy_curve (("node1", 1) :: ("node2", 2) :: nil)
     commitments ("node1" :: nil)
   = Ok ("03" +:+ Py.format_064x 35, Py.format_064x 3)
   ∧ @combine_spec toy_curve (("node1", 1) :: ("node2", 2) :: nil)
       commitments ("node1" :: nil)
     = Ok ("03" +:+ Py.format_064x 35, Py.format_064x 1))
  ∧ (@combine_signatures toy_curve (("node1", 1) :: nil)
       commitments ("node1" :: "node2" :: nil)
     = Ok ("02" +:+ Py.format_064x 25, Py.format_064x 1)
     ∧ @combine_spec toy_curve (("node1", 1) :: nil)
         commitments ("node1" :: "node2" :: nil)
       = Raise KeyError).
Proof. vm_compute. repeat split; reflexivity. Qed.

Lemma combine_signatures_sums_all_partials_witness :
  let partials := ("node2", 2) :: ("node1", 1) :: nil in
  let commitments :=
    ("node1", @point_mul toy_curve 3 (@G toy_curve))
    :: ("node2", @point_mul toy_curve 4 (@G toy_curve)) :: nil in
  @combine_signatures toy_curve partials commitments ("node1" :: "node2" :: nil)
  = @combine_spec toy_curve partials commitments ("node1" :: "node2" :: nil).
Proof.
  intros partials commitments.
  apply (proj2 (combine_signatures_sums_all_partials (curve := toy_curve)
                  partials commitments ("node1" :: "node2" :: nil))).
  - vm_compute. repeat constructor; set_solver.
  - vm_compute. apply Permutation_swap.
Defined.

(** ** Hexadecimal numerals: [int(format(x, 'x'), 16) = x] *)

Module PyFacts.
Import Py.

(** The characters that [format] writes for a number that is not
    negative. *)
Definition is_hex_lower (c : ascii) : bool :=
  match digit_in_base 16 c with
  | Some d => Ascii.eqb c (hex_char d)
  | None => false
  end.

Fixpoint all_hex (s : string) : bool :=
  match s with
  | EmptyString => true
  | String c s' => is_hex_lower c && all_hex s'
  end.

(** The number of digits that [hex_digits] writes. *)
Fixpoint ndigits (fuel : nat) (x : Z) : nat :=
  match fuel with
  | O => O
  | S fuel' => if x / 16 =? 0 then 1%nat else S (ndigits fuel' (x / 16))
  end.

Lemma small_cases (P : Z → Prop) (n : nat) (d : Z) :
  0 ≤ d < Z.of_nat n → (∀ i, (i < n)%nat → P (Z.of_nat i)) → P d.
Proof.
  intros Hd H. rewrite <- (Z2Nat.id d) by lia. apply H. lia.
Qed.

Lemma hex_char_facts d :
  0 ≤ d < 16 →
  digit_in_base 16 (hex_char d) = Some d
  ∧ is_hex_lower (hex_char d) = true.
Proof.
  intros Hd. pattern d. apply (small_cases _ 16%nat d Hd).
  intros i Hi. do 16 (destruct i as [|i]; [vm_compute; done|]). lia.
Qed.

Lemma is_hex_lower_facts c :
  is_hex_lower c = true →
  is_space c = false ∧ Ascii.eqb c "_" = false
  ∧ c ≠ "-"%char ∧ c ≠ "+"%char ∧ c ≠ "x"%char ∧ c ≠ "X"%char
  ∧ ∃ d, digit_in_base 16 c = Some d ∧ 0 ≤ d < 16.
Proof.
  unfold is_hex_lower.
  destruct (digit_in_base 16 c) as [d|] eqn:Hd; [|done].
  assert (Hr : 0 ≤ d < 16).
  { unfold digit_in_base, digit_value in Hd.
    repeat (match type of Hd with
            | context [if ?b then _ else _] => destruct b eqn:?
            end); simplify_eq; lia. }
  intros Hc. apply Ascii.eqb_eq in Hc. subst c. clear Hd.
  pattern d. apply (small_cases _ 16%nat d Hr).
  intros i Hi.
  do 16 (destruct i as [|i];
         [vm_compute; repeat split; try discriminate; eexists; split;
          [reflexivity|done]|]).
  lia.
Qed.

Lemma parse_hex_digits fuel : ∀ x acc a b,
  0 ≤ x < 16 ^ Z.of_nat fuel →
  parse_digits 16 b a (hex_digits fuel x acc)
  = parse_digits 16 (b || negb (Nat.eqb fuel 0))
      (a * 16 ^ Z.of_nat (ndigits fuel x) + x) acc.
Proof.
  induction fuel as [|fuel IH]; intros x acc a b Hx.
  - simpl in *. replace x with 0 by lia. rewrite orb_false_r.
    f_equal. lia.
  - cbn [hex_digits ndigits Nat.eqb negb]. rewrite orb_true_r.
    assert (H16 : 0 ≤ x mod 16 < 16) by (apply Z.mod_pos_bound; lia).
    destruct (hex_char_facts _ H16) as [Hdig Hlow].
    destruct (is_hex_lower_facts _ Hlow) as (_ & Hus & _).
    assert (Hstep : ∀ a' b', parse_digits 16 b' a'
                      (String (hex_char (x mod 16)) acc)
                    = parse_digits 16 true (a' * 16 + x mod 16) acc).
    { intros a' b'. cbn [parse_digits]. by rewrite Hus, Hdig. }
    destruct (Z.eqb_spec (x / 16) 0) as [H0|H0].
    + rewrite Hstep. f_equal.
      pose proof (Z.div_mod x 16 ltac:(lia)) as Hdm. simpl. lia.
    + rewrite IH.
      2:{ split; [apply Z.div_pos; lia|].
          apply Z.div_lt_upper_bound; [lia|].
          replace (Z.of_nat (S fuel)) with (Z.succ (Z.of_nat fuel)) in Hx by lia.
          rewrite Z.pow_succ_r in Hx by lia. lia. }
      rewrite Hstep. f_equal.
      replace (Z.of_nat (S (ndigits fuel (x / 16))))
        with (Z.succ (Z.of_nat (ndigits fuel (x / 16)))) by lia.
      rewrite Z.pow_succ_r by lia.
      pose proof (Z.div_mod x 16 ltac:(lia)) as Hdm.
      set (P := 16 ^ Z.of_nat (ndigits fuel (x / 16))) in *. lia.
Qed.

Lemma all_hex_digits fuel : ∀ x acc,
  all_hex acc = true → all_hex (hex_digits fuel x acc) = true.
Proof.
  induction fuel as [|fuel IH]; intros x acc Hacc; simpl; [done|].
  assert (H16 : 0 ≤ x mod 16 < 16) by (apply Z.mod_pos_bound; lia).
  destruct (hex_char_facts _ H16) as [_ Hlow].
  destruct (x / 16 =? 0); [simpl; by rewrite Hlow|].
  apply IH. simpl. by rewrite Hlow.
Qed.

Lemma length_hex_digits fuel : ∀ x acc,
  String.length (hex_digits fuel x acc)
  = (ndigits fuel x + String.length acc)%nat.
Proof.
  induction fuel as [|fuel IH]; intros x acc; simpl; [done|].
  destruct (x / 16 =? 0); simpl; [done|]. rewrite IH. simpl. lia.
Qed.

Lemma log2_fuel x :
  0 ≤ x → x < 16 ^ Z.of_nat (S (Z.to_nat (Z.log2 x))).
Proof.
  intros Hx. destruct (Z.eq_dec x 0) as [->|Hne].
  { apply Z.pow_pos_nonneg; lia. }
  pose proof (Z.log2_nonneg x).
  replace (Z.of_nat (S (Z.to_nat (Z.log2 x)))) with (Z.succ (Z.log2 x)) by lia.
  pose proof (Z.log2_spec x ltac:(lia)) as [_ Hlt].
  eapply Z.lt_le_trans; [exact Hlt|].
  apply Z.pow_le_mono_l. lia.
Qed.

Lemma all_hex_of_nonneg x : all_hex (hex_of_nonneg x) = true.
Proof. by apply all_hex_digits. Qed.

Lemma all_hex_zeros n s : all_hex s = true → all_hex (zeros n +:+ s) = true.
Proof. induction n; simpl; auto. Qed.

Lemma all_hex_format_064x x : 0 ≤ x → all_hex (format_064x x) = true.
Proof.
  intros Hx. unfold format_064x.
  destruct (Z.ltb_spec x 0); [lia|].
  apply all_hex_zeros, all_hex_of_nonneg.
Qed.

Lemma parse_zeros n s b :
  parse_digits 16 b 0 (zeros n +:+ s)
  = parse_digits 16 (b || negb (Nat.eqb n 0)) 0 s.
Proof.
  revert b. induction n as [|n IH]; intros b; simpl.
  - by rewrite orb_false_r.
  - rewrite IH. simpl. by rewrite orb_true_r.
Qed.

Lemma lstrip_hex s : all_hex s = true → lstrip s = s.
Proof.
  destruct s as [|c s]; simpl; [done|].
  intros [Hc _]%andb_true_iff.
  by destruct (is_hex_lower_facts _ Hc) as (-> & _).
Qed.

Lemma rstrip_hex s : all_hex s = true → rstrip s = s.
Proof.
  induction s as [|c s IH]; simpl; [done|].
  intros [Hc Hs]%andb_true_iff. rewrite IH by done.
  destruct (is_hex_lower_facts _ Hc) as (-> & _).
  by destruct s.
Qed.

(** [int(s, 16)] on a string of lowercase digits is the plain reading of
    the digits. *)
Lemma int_of_str_hex s :
  all_hex s = true → int_of_str 16 s = parse_digits 16 false 0 s.
Proof.
  intros Hs. unfold int_of_str. rewrite lstrip_hex, rstrip_hex by done.
  destruct s as [|c s]; [done|].
  simpl in Hs. apply andb_true_iff in Hs as [Hc Hs].
  destruct (is_hex_lower_facts _ Hc) as (_ & _ & Hm & Hp & _).
  assert (Hsign : match String c s with
                  | String "-" r => (true, r)
                  | String "+" r => (false, r)
                  | _ => (false, String c s)
                  end = (false, String c s)).
  { destruct c as [[] [] [] [] [] [] [] []]; try done. }
  rewrite Hsign.
  assert (Hpre : strip_base_prefix 16 (String c s) = String c s).
  { unfold strip_base_prefix. simpl.
    destruct s as [|c' s]; [by destruct c as [[] [] [] [] [] [] [] []]|].
    simpl in Hs. apply andb_true_iff in Hs as [Hc' _].
    destruct (is_hex_lower_facts _ Hc') as (_ & _ & _ & _ & Hx & HX & _).
    destruct c as [[] [] [] [] [] [] [] []]; try done;
      destruct c' as [[] [] [] [] [] [] [] []]; try done. }
  rewrite Hpre.
  by destruct (parse_digits 16 false 0 (String c s)).
Qed.

Lemma int_of_format_x x : 0 ≤ x → int_of_str 16 (format_x x) = Some x.
Proof.
  intros Hx. unfold format_x. destruct (Z.ltb_spec x 0); [lia|].
  rewrite int_of_str_hex by apply all_hex_of_nonneg.
  unfold hex_of_nonneg. rewrite parse_hex_digits.
  2:{ split; [done|]. by apply log2_fuel. }
  simpl. f_equal.
Qed.

Lemma int_of_format_064x x : 0 ≤ x → int_of_str 16 (format_064x x) = Some x.
Proof.
  intros Hx. rewrite int_of_str_hex by by apply all_hex_format_064x.
  unfold format_064x. destruct (Z.ltb_spec x 0); [lia|].
  rewrite parse_zeros. unfold hex_of_nonneg. rewrite parse_hex_digits.
  2:{ split; [done|]. by apply log2_fuel. }
  cbn [Nat.eqb negb]. rewrite orb_true_r. simpl. f_equal.
Qed.

End PyFacts.

(** ** The curve layer: square roots modulo [p] *)

Section SquareRoots.
Variable p : Z.
Hypothesis p_prime : Z.prime p.
Hypothesis p_mod_4 : p mod 4 = 3.

Lemma p_bounds : 3 ≤ p ∧ p mod 2 = 1.
Proof using p_prime p_mod_4.
  split.
  - pose proof (Z.prime_ge_2 _ p_prime).
    pose proof (Z.mod_le p 4 ltac:(lia) ltac:(lia)). lia.
  - pose proof (Z.div_mod p 4 ltac:(lia)) as H.
    rewrite p_mod_4 in H.
    rewrite H. replace (4 * (p / 4) + 3) with (1 + (2 * (p / 4) + 1) * 2) by lia.
    by rewrite Z.mod_add.
Qed.

(** The candidate root [r^((p+1)/4)] squares to [r] when [r] is a square. *)
Lemma candidate_squared r y :
  (y * y - r) mod p = 0 →
  (Zpow_mod (r mod p) ((p + 1) / 4) p * Zpow_mod (r mod p) ((p + 1) / 4) p - r)
    mod p = 0.
Proof using p_prime p_mod_4.
  intros Hy. destruct p_bounds as [Hp3 _].
  rewrite Zpow_mod_correct by lia.
  set (m := (p + 1) / 4).
  assert (Hm : p + 1 = 4 * m).
  { unfold m. pose proof (Z.div_mod p 4 ltac:(lia)) as H.
    rewrite p_mod_4 in H.
    replace (p + 1) with ((p / 4 + 1) * 4) by lia.
    rewrite Z.div_mul by lia. lia. }
  assert (Hm0 : 0 ≤ m) by lia.
  assert (Hr : r mod p = (y * y) mod p).
  { apply Z.mod_divide in Hy; [|lia]. destruct Hy as [c Hc].
    replace r with (y * y + (- c) * p) by lia. by rewrite Z.mod_add by lia. }
  assert (Hsq : ((r mod p) ^ m mod p * ((r mod p) ^ m mod p)) mod p = r mod p).
  { rewrite <- Zmult_mod, <- Z.pow_add_r by lia.
    rewrite Z.mod_pow_l, <- Z.mod_pow_l, Hr, Z.mod_pow_l.
    rewrite <- Z.pow_2_r, <- Z.pow_mul_r by lia.
    replace (2 * (m + m)) with (p + 1) by lia.
    rewrite Z.pow_add_r, Z.pow_1_r by lia.
    rewrite Zmult_mod, Z.fermat, <- Zmult_mod by done.
    by rewrite Z.pow_2_r. }
  rewrite Zminus_mod, Hsq, Z.sub_diag. apply Z.mod_0_l. lia.
Qed.

(** Two numbers below [p] with the same square are equal or opposite. *)
Lemma square_roots_mod y1 y2 :
  0 ≤ y1 < p → 0 ≤ y2 < p → (y1 * y1 - y2 * y2) mod p = 0 →
  y1 = y2 ∨ (y1 = p - y2 ∧ y2 ≠ 0).
Proof using p_prime.
  intros H1 H2 Hsq. pose proof (Z.prime_ge_2 _ p_prime).
  apply Z.mod_divide in Hsq; [|lia].
  replace (y1 * y1 - y2 * y2) with ((y1 - y2) * (y1 + y2)) in Hsq by lia.
  apply Z.divide_prime_mul in Hsq as [[c Hc]|[c Hc]]; [| |done].
  - left. assert (c = 0) by nia. lia.
  - assert (c = 0 ∨ c = 1) as [->| ->] by nia; [left|right]; lia.
Qed.

End SquareRoots.

(** ** The curve layer: encodings of points *)

Section EncodingFacts.
Context {curve : Fastecdsa}.

(** The right-hand side of the curve equation. *)
Definition curve_rhs (x : Z) : Z := x * x * x + curve_a * x + curve_b.

(** A point as the library holds it: the point at infinity, or reduced
    coordinates that satisfy the equation. *)
Definition valid_point (P : Point) : Prop :=
  P = mkPoint 0 0
  ∨ (0 ≤ px P < curve_p ∧ 0 ≤ py P < curve_p
     ∧ is_point_on_curve (px P) (py P) = true).

(** A well-formed encoding: ["00"], or the prefix for the parity of [y]
    followed by the 64 digits of [x], for a point [(x, y)] of the curve. *)
Definition well_formed (h : string) : Prop :=
  h = "00"
  ∨ ∃ x y, 0 ≤ x < curve_p ∧ 0 ≤ y < curve_p
           ∧ is_point_on_curve x y = true ∧ ¬ (x = 0 ∧ y = 0)
           ∧ h = (if y mod 2 =? 0 then "02" else "03") +:+ Py.format_064x x.

(** The encodings that the specification has rejected: a length other
    than 2 or 66, a prefix other than the three, an [x] that is not below
    [p], or no square root. *)
Definition spec_invalid (h : string) : Prop :=
  (String.length h ≠ 2%nat ∧ String.length h ≠ 66%nat)
  ∨ (Py.str_take 2 h ≠ "00" ∧ Py.str_take 2 h ≠ "02" ∧ Py.str_take 2 h ≠ "03")
  ∨ (∃ x, Py.int_of_str 16 (Py.str_drop 2 h) = Some x ∧ curve_p ≤ x)
  ∨ (∃ x, Py.int_of_str 16 (Py.str_drop 2 h) = Some x
          ∧ ¬ ∃ y, (y * y - curve_rhs x) mod curve_p = 0).

Lemma is_point_on_curve_iff x y :
  is_point_on_curve x y = true ↔ (y * y - curve_rhs x) mod curve_p = 0.
Proof.
  unfold is_point_on_curve, curve_rhs. by rewrite Z.eqb_eq.
Qed.

Hypothesis p_prime : Z.prime curve_p.
Hypothesis p_mod_4 : curve_p mod 4 = 3.

(** The candidate root that [hex_to_point] computes for [x]. *)
Definition candidate (x : Z) : Z :=
  Zpow_mod ((Zpow_mod x 3 curve_p + curve_a * x + curve_b) mod curve_p)
    ((curve_p + 1) / 4) curve_p.

Lemma y_squared_rhs x :
  (Zpow_mod x 3 curve_p + curve_a * x + curve_b) mod curve_p
  = curve_rhs x mod curve_p.
Proof using p_prime.
  pose proof (Z.prime_ge_2 _ p_prime).
  rewrite Zpow_mod_correct by lia. unfold curve_rhs.
  rewrite <- !Z.add_assoc, Z.add_mod_idemp_l by lia.
  f_equal. replace (x ^ 3) with (x * x * x) by ring. done.
Qed.

Lemma candidate_range x : 0 ≤ candidate x < curve_p.
Proof using p_prime.
  pose proof (Z.prime_ge_2 _ p_prime).
  unfold candidate. rewrite Zpow_mod_correct by lia.
  apply Z.mod_pos_bound. lia.
Qed.

Lemma candidate_is_root x :
  (∃ y, (y * y - curve_rhs x) mod curve_p = 0) →
  (candidate x * candidate x - curve_rhs x) mod curve_p = 0.
Proof using p_prime p_mod_4.
  intros [y Hy]. unfold candidate. rewrite y_squared_rhs.
  by apply (candidate_squared _ p_prime p_mod_4 _ y).
Qed.

Lemma opposite_on_curve x y :
  is_point_on_curve x (curve_p - y) = is_point_on_curve x y.
Proof using p_mod_4.
  unfold is_point_on_curve. f_equal.
  replace ((curve_p - y) * (curve_p - y) - (x * x * x + curve_a * x + curve_b))
    with (y * y - (x * x * x + curve_a * x + curve_b)
          + (curve_p - 2 * y) * curve_p) by ring.
  apply Z.mod_add.
  intros H0. rewrite H0 in p_mod_4. discriminate p_mod_4.
Qed.

(** What [hex_to_point] does with an encoding other than ["00"] whose
    digits read as [x]. *)
Lemma hex_to_point_digits h x :
  h ≠ "00" → Py.int_of_str 16 (Py.str_drop 2 h) = Some x →
  hex_to_point h
  = let y := candidate x in
    Point_new x
      (if (String.eqb (Py.str_take 2 h) "02" && negb (y mod 2 =? 0))
          || (String.eqb (Py.str_take 2 h) "03" && (y mod 2 =? 0))
       then curve_p - y else y).
Proof.
  intros Hne Hx. unfold hex_to_point.
  destruct (String.eqb_spec h "00"); [done|].
  rewrite Hx. reflexivity.
Qed.

Lemma hex_to_point_succeeds_iff h x :
  h ≠ "00" → Py.int_of_str 16 (Py.str_drop 2 h) = Some x →
  (∃ P, hex_to_point h = Ok P)
  ↔ ∃ y, (y * y - curve_rhs x) mod curve_p = 0.
Proof using p_prime p_mod_4.
  intros Hne Hx. rewrite (hex_to_point_digits h x Hne Hx). cbv zeta.
  unfold Point_new.
  match goal with
  | |- context [is_point_on_curve x ?y] =>
      assert (Hon : is_point_on_curve x y = is_point_on_curve x (candidate x))
  end.
  { destruct (_ || _); [apply opposite_on_curve|done]. }
  rewrite Hon. split.
  - intros [P HP].
    destruct (is_point_on_curve x (candidate x)) eqn:E; [|discriminate].
    exists (candidate x). by apply is_point_on_curve_iff.
  - intros Hy. apply candidate_is_root, is_point_on_curve_iff in Hy.
    rewrite Hy. eauto.
Qed.

(** The encoding of a point of the curve decodes to the point. *)
Lemma hex_to_point_encoding x y :
  0 ≤ x → 0 ≤ y < curve_p → is_point_on_curve x y = true →
  hex_to_point ((if y mod 2 =? 0 then "02" else "03") +:+ Py.format_064x x)
  = Ok (mkPoint x y).
Proof using p_prime p_mod_4.
  intros Hx Hy Hon.
  set (h := (if y mod 2 =? 0 then "02" else "03") +:+ Py.format_064x x).
  assert (Hne : h ≠ "00") by (unfold h; destruct (y mod 2 =? 0); discriminate).
  assert (Hdrop : Py.str_drop 2 h = Py.format_064x x)
    by (unfold h; by destruct (y mod 2 =? 0)).
  assert (Htake : Py.str_take 2 h = if y mod 2 =? 0 then "02" else "03")
    by (unfold h; by destruct (y mod 2 =? 0)).
  rewrite (hex_to_point_digits h x Hne)
    by (rewrite Hdrop; by apply PyFacts.int_of_format_064x).
  cbv zeta. rewrite Htake.
  pose proof (candidate_range x) as Hc.
  assert (Hroot : (candidate x * candidate x - curve_rhs x) mod curve_p = 0).
  { apply candidate_is_root. exists y. by apply is_point_on_curve_iff. }
  assert (Hsame : (candidate x * candidate x - y * y) mod curve_p = 0).
  { apply is_point_on_curve_iff in Hon.
    pose proof (Z.prime_ge_2 _ p_prime).
    apply Z.mod_divide in Hon, Hroot; try lia. apply Z.mod_divide; [lia|].
    replace (candidate x * candidate x - y * y)
      with ((candidate x * candidate x - curve_rhs x)
            - (y * y - curve_rhs x)) by ring.
    by apply Z.divide_sub_r. }
  destruct (p_bounds _ p_prime p_mod_4) as [Hp3 Hodd].
  assert (Hpar : ∀ z, 0 ≤ z → (curve_p - z) mod 2 = 1 - z mod 2).
  { intros z Hz.
    pose proof (Z.div_mod curve_p 2 ltac:(lia)).
    pose proof (Z.div_mod z 2 ltac:(lia)).
    pose proof (Z.mod_pos_bound z 2 ltac:(lia)).
    rewrite Hodd in *.
    replace (curve_p - z)
      with ((1 - z mod 2) + (curve_p / 2 - z / 2) * 2) by lia.
    rewrite Z.mod_add by lia. apply Z.mod_small. lia. }
  pose proof (Z.mod_pos_bound y 2 ltac:(lia)) as Hy2.
  destruct (square_roots_mod _ p_prime (candidate x) y Hc Hy Hsame)
    as [Heq|[Heq Hy0]]; rewrite Heq.
  - destruct (Z.eqb_spec (y mod 2) 0); simpl; unfold Point_new; by rewrite Hon.
  - rewrite Hpar by lia.
    destruct (Z.eqb_spec (y mod 2) 0) as [E|E]; simpl.
    + rewrite E. simpl. replace (curve_p - (curve_p - y)) with y by lia.
      unfold Point_new. by rewrite Hon.
    + replace (1 - y mod 2) with 0 by lia. simpl.
      replace (curve_p - (curve_p - y)) with y by lia.
      unfold Point_new. by rewrite Hon.
Qed.

Lemma hex_to_point_of_valid P :
  IDENTITY = mkPoint 0 0 → valid_point P →
  hex_to_point (point_to_hex P) = Ok P.
Proof using p_prime p_mod_4.
  intros Hid HP. unfold point_to_hex.
  destruct (is_identity P) eqn:Hi.
  - unfold is_identity in Hi. apply andb_true_iff in Hi as [Hx Hy].
    apply Z.eqb_eq in Hx, Hy. destruct P as [x y]; simpl in *; subst.
    unfold hex_to_point. simpl. by rewrite Hid.
  - destruct HP as [->|(Hx & Hy & Hon)]; [done|].
    destruct P as [x y]; simpl in *.
    apply hex_to_point_encoding; [lia|done|done].
Qed.

(** C9: a well-formed encoding decodes to a point whose encoding it is
    (["00"] included), with the prefix ["02"] for an even and ["03"] for
    an odd [y] of the decoded point; and two points with the same encoding
    are the same point. *)
Theorem point_hex_round_trip (identity_zero : IDENTITY = mkPoint 0 0) :
  (∀ h, well_formed h →
     ∃ P, hex_to_point h = Ok P ∧ point_to_hex P = h
          ∧ (h ≠ "00" →
             (Py.str_take 2 h = "02" ↔ py P mod 2 = 0)
             ∧ (Py.str_take 2 h = "03" ↔ py P mod 2 = 1)))
  ∧ (∀ P Q, valid_point P → valid_point Q →
       point_to_hex P = point_to_hex Q → P = Q).
Proof using p_prime p_mod_4.
  split.
  - intros h [->|(x & y & Hx & Hy & Hon & Hnz & ->)].
    + exists (mkPoint 0 0). unfold hex_to_point. simpl.
      rewrite identity_zero. by repeat split.
    + exists (mkPoint x y).
      split; [apply hex_to_point_encoding; [lia|done|done]|].
      assert (Hni : is_identity (mkPoint x y) = false).
      { unfold is_identity; simpl.
        destruct (Z.eqb_spec x 0), (Z.eqb_spec y 0); try done. tauto. }
      split; [unfold point_to_hex; by rewrite Hni|].
      intros _. simpl.
      pose proof (Z.mod_pos_bound y 2 ltac:(lia)).
      destruct (Z.eqb_spec (y mod 2) 0); simpl; split; split;
        try done; try lia.
  - intros P Q HP HQ Heq.
    pose proof (hex_to_point_of_valid P identity_zero HP) as H1.
    pose proof (hex_to_point_of_valid Q identity_zero HQ) as H2.
    rewrite Heq in H1. congruence.
Qed.

(** C8, as the code has it: ["00"] decodes to the identity; any other
    string either decodes to a point or raises [ValueError], and it raises
    exactly when the characters after the first two do not read as a
    number in base 16, or read as an [x] for which [x^3 + a x + b] has no
    square root modulo [p]. Neither the length, nor the prefix, nor the
    size of [x] is looked at. *)
Theorem hex_to_point_failures :
  hex_to_point "00" = Ok IDENTITY
  ∧ ∀ h, h ≠ "00" →
      (hex_to_point h = Raise ValueError ∨ ∃ P, hex_to_point h = Ok P)
      ∧ (hex_to_point h = Raise ValueError
         ↔ match Py.int_of_str 16 (Py.str_drop 2 h) with
           | None => True
           | Some x => ¬ ∃ y, (y * y - curve_rhs x) mod curve_p = 0
           end).
Proof using p_prime p_mod_4.
  split; [done|]. intros h Hne.
  destruct (Py.int_of_str 16 (Py.str_drop 2 h)) as [x|] eqn:Hx.
  - pose proof (hex_to_point_succeeds_iff h x Hne Hx) as Hiff.
    assert (Hcases : hex_to_point h = Raise ValueError
                     ∨ ∃ P, hex_to_point h = Ok P).
    { rewrite (hex_to_point_digits h x Hne Hx). cbv zeta. unfold Point_new.
      destruct (is_point_on_curve _ _); eauto. }
    split; [done|]. split.
    + intros Hr Hy. apply Hiff in Hy as [P HP]. congruence.
    + intros Hno. destruct Hcases as [?|HP]; [done|].
      exfalso. apply Hno, Hiff, HP.
  - assert (Hr : hex_to_point h = Raise ValueError).
    { unfold hex_to_point. destruct (String.eqb_spec h "00"); [done|].
      by rewrite Hx. }
    split; [by left|]. by split.
Qed.

End EncodingFacts.

(** Primality of a small number, by trial division. *)
Lemma prime_by_trial (p : Z) :
  1 < p →
  forallb (fun n => negb (p mod n =? 0))
    (map Z.of_nat (seq 2 (Z.to_nat p - 2))) = true →
  Z.prime p.
Proof.
  intros Hp Hall. split; [done|]. intros n Hn Hdiv.
  rewrite forallb_forall in Hall.
  assert (Hin : In n (map Z.of_nat (seq 2 (Z.to_nat p - 2)))).
  { apply in_map_iff. exists (Z.to_nat n). split; [lia|].
    apply in_seq. lia. }
  apply Hall in Hin. apply Z.mod_divide in Hdiv; [|lia].
  rewrite Hdiv in Hin. discriminate.
Qed.

Lemma toy_p_prime : Z.prime (@curve_p toy_curve).
Proof. apply prime_by_trial; [done|]. vm_compute. reflexivity. Qed.

Lemma toy_order_prime : Z.prime (@ORDER toy_curve).
Proof. apply prime_by_trial; [done|]. vm_compute. reflexivity. Qed.

Lemma point_hex_round_trip_witness :
  ∃ P, @hex_to_point toy_curve ("02" +:+ Py.format_064x 2) = Ok P
       ∧ @point_to_hex P = "02" +:+ Py.format_064x 2
       ∧ (Py.str_take 2 ("02" +:+ Py.format_064x 2) = "02" ↔ py P mod 2 = 0).
Proof.
  destruct (proj1 (point_hex_round_trip (curve := toy_curve) toy_p_prime
                     eq_refl eq_refl)
              ("02" +:+ Py.format_064x 2)) as (P & H1 & H2 & H3).
  - right. exists 2, 12. vm_compute. repeat split; try discriminate.
    intros [H _]. discriminate H.
  - exists P. split; [done|]. split; [done|].
    apply H3. discriminate.
Defined.

Lemma hex_to_point_failures_witness :
  @hex_to_point toy_curve "0203" = Raise ValueError
  ∨ ∃ P, @hex_to_point toy_curve "0203" = Ok P.
Proof.
  apply (proj2 (hex_to_point_failures (curve := toy_curve) toy_p_prime eq_refl)).
  discriminate.
Defined.

(** On secp256k1: an encoding with the prefix ["04"], one of three
    characters, and one whose [x] is [p + 1] all decode, although the
    specification rejects each of them. *)
Lemma hex_to_point_counterexample :
  let h1 := "04" +:+ Py.format_064x (px (@G secp256k1)) in
  let h2 := "021" in
  let h3 := "02" +:+ Py.format_064x (@curve_p secp256k1 + 1) in
  (@spec_invalid secp256k1 h1 ∧ @hex_to_point secp256k1 h1 = Ok (@G secp256k1))
  ∧ (@spec_invalid secp256k1 h2 ∧ ∃ P, @hex_to_point secp256k1 h2 = Ok P)
  ∧ (@spec_invalid secp256k1 h3 ∧ ∃ P, @hex_to_point secp256k1 h3 = Ok P).
Proof.
  cbv zeta. split; [|split].
  - split.
    + right. left. vm_compute. repeat split; discriminate.
    + vm_compute. reflexivity.
  - split.
    + left. vm_compute. split; discriminate.
    + eexists. vm_compute. reflexivity.
  - split.
    + right. right. left. eexists. split; [vm_compute; reflexivity|].
      vm_compute. discriminate.
    + eexists. vm_compute. reflexivity.
Qed.

(** ** A node on the small curve *)

(** node1 after its DKG, with a token in demo mode that holds its share,
    the master seed and a fresh counter, and a board with one request. *)
Definition toy_state : NodeState :=
  dkg_finalize_update
    (@point_to_hex (@point_mul toy_curve 7 (@G toy_curve)))
    (dkg_start_update "r1" 2 3 (init_update (NodeState_default "node1"))).

Definition toy_token : HardwareToken :=
  snd (initialize_nonce_derivation
         (store_dkg_share (mkToken ∅ "demo") "r1" (x05 :: nil))
         (x01 :: x02 :: x03 :: nil)).

Definition toy_world : World :=
  {| state_file := toy_state;
     token := toy_token;
     board := {[ request_path "tx_1" := Py.encode (toy_dumps toy_request) ]};
     signer_files := ∅ |}.

Definition toy_input : approve_input :=
  {| confirm := true; timestamp := 0; post_succeeds := true |}.

Definition toy_approved : World * outcome * list event :=
  @sign_approve toy_curve toy_pylib "node1" toy_world "tx_1" toy_input.

(** ** sign-approve: what a call does *)

Section ApproveFacts.
Context {curve : Fastecdsa} {pylib : PyLib}.
Variable NODE_ID : string.

(** The three layers of the guard, as sign-approve tests them. *)
Definition guard_passes (w : World) (request_id : string) : Prop :=
  used_nonces (signing (state_file w)) !! request_id = None
  ∧ objects (token w) !! ("NONCE_" +:+ request_id) = None
  ∧ truthy (mailbox_read (board w) (commitment_path NODE_ID request_id)) = false.

(** The signer that sign-approve builds from a derivation. *)
Definition approve_signer (w : World) (request_id : string)
    (msg_hash : Py.bytes) (share : Z) (d : NonceDerivation)
  : res (string * ThresholdSigner) :=
  pk ← hex_to_point (group_pubkey_hex (dkg (state_file w)));
  signer ← ThresholdSigner_init NODE_ID share pk;
  create_nonce_commitment_from_k signer request_id msg_hash (k d) (R_hex d).

(** A call that leaves events passed the guard and derived a nonce; it
    stops there when building the signer raises, and otherwise records the
    commitment in the token and the state file and builds the message for
    the board. *)
Lemma sign_approve_inv w request_id inp w' o evs :
  sign_approve NODE_ID w request_id inp = (w', o, evs) →
  (evs = nil ∧ o ≠ Approved
   ∧ (state_file w' = state_file w ∨ o = CommitmentOnBoard))
  ∨ ∃ msg_hash share d hsm1,
      my_share_stored (dkg (state_file w)) = true
      ∧ guard_passes w request_id
      ∧ derive_nonce (token w) request_id msg_hash = (Ok d, hsm1)
      ∧ ((∃ e, approve_signer w request_id msg_hash share d = Raise e
               ∧ evs = Derived request_id d :: nil
               ∧ o = Uncaught e
               ∧ w' = set_token w hsm1)
         ∨ (∃ r signer,
              approve_signer w request_id msg_hash share d = Ok (r, signer)
              ∧ evs = Derived request_id d :: Committed request_id (R_hex d) :: nil
              ∧ token w' = snd (store_nonce_commitment hsm1 request_id (R_hex d))
              ∧ state_file w'
                = record_nonce_derivation (state_file w) request_id
                    (counter d) (R_hex d) (message_hash_hex d)
              ∧ (o = Approved →
                 signer_files w' !! signer_path request_id
                 = Some (to_json signer)))).
Proof.
  unfold sign_approve.
  destruct (my_share_stored (dkg (state_file w))) eqn:Hdkg; simpl;
    [|intros [= <- <- <-]; left; by auto].
  destruct (check_nonce_unused (state_file w) request_id) eqn:Hl1; simpl;
    [|intros [= <- <- <-]; left; by auto].
  destruct (has_nonce_commitment (token w) request_id) eqn:Hl2;
    [intros [= <- <- <-]; left; by auto|].
  destruct (truthy (mailbox_read (board w) (commitment_path NODE_ID request_id)))
    eqn:Hl3; [intros [= <- <- <-]; left; by auto|].
  destruct (truthy (mailbox_read (board w) (request_path request_id)));
    simpl; [|intros [= <- <- <-]; left; by auto].
  destruct (SigningRequest_message_hash _) as [req_hash|e];
    [|intros [= <- <- <-]; left; by auto].
  destruct (confirm inp); simpl; [|intros [= <- <- <-]; left; by auto].
  destruct (is_production_mode (token w)); [intros [= <- <- <-]; left; by auto|].
  destruct (get_dkg_share _ _) as [share_bytes|e];
    [|intros [= <- <- <-]; left; by auto].
  destruct req_hash as [| | |req_hash_hex|]; try (intros [= <- <- <-]; left; by auto).
  destruct (Py.bytes_fromhex req_hash_hex) as [msg_hash|];
    [|intros [= <- <- <-]; left; by auto].
  destruct (derive_nonce (token w) request_id msg_hash) as [[d|e] hsm1] eqn:Hd;
    [|intros [= <- <- <-]; left; repeat split; [done|left; by destruct w]].
  assert (Hguard : guard_passes w request_id).
  { unfold guard_passes. split; [|split; [|done]].
    - unfold check_nonce_unused in Hl1. by destruct (_ !! _).
    - unfold has_nonce_commitment, get_key in Hl2. by destruct (_ !! _). }
  intros H. right. exists msg_hash, (Py.int_from_bytes share_bytes), d, hsm1.
  split; [done|]. split; [done|]. split; [done|].
  unfold approve_signer.
  destruct (hex_to_point (group_pubkey_hex (dkg (state_file w))) ≫= _)
    as [[r signer]|e]; simpl in H.
  - right. exists r, signer. split; [done|].
    destruct (post_succeeds inp); simpl in H; injection H as <- <- <-;
      repeat split; try done.
    intros _. simpl. by rewrite lookup_insert_eq.
  - left. exists e. by injection H as <- <- <-.
Qed.

End ApproveFacts.

(** ** The persisted signer document *)

(** A field of a document, and the nonce field of the session of a request
    in the signer document. *)
Definition json_field (doc : json) (key : string) : option json :=
  match doc with
  | JObj fields => fields_get fields key
  | _ => None
  end.

Definition persisted_nonce (doc : json) (request_id : string) : option json :=
  ss ← json_field doc "sessions";
  session ← json_field ss request_id;
  json_field session "my_nonce_k".

Section DocumentFacts.
Context {curve : Fastecdsa} {pylib : PyLib}.

Lemma fields_get_sessions (ss : dict SigningRound) request_id :
  fields_get (map (fun '(req_id, session) => (req_id, to_dict session)) ss)
    request_id
  = to_dict <$> Dict.get ss request_id.
Proof.
  induction ss as [|[r s] ss IH]; simpl; [done|].
  by destruct (String.eqb request_id r).
Qed.

Lemma persisted_nonce_to_json signer request_id session :
  Dict.get (sessions signer) request_id = Some session →
  persisted_nonce (to_json_data signer) request_id
  = Some match my_nonce_k session with
         | Some k => JStr (Py.format_x k)
         | None => JNull
         end.
Proof.
  intros Hs. unfold persisted_nonce, to_json_data. simpl.
  rewrite fields_get_sessions, Hs. reflexivity.
Qed.

Lemma derive_nonce_k hsm request_id msg_hash d hsm' :
  derive_nonce hsm request_id msg_hash = (Ok d, hsm') →
  0 < k d < CURVE_ORDER
  ∧ R_hex d = point_to_hex (point_mul (k d) G)
  ∧ nd_request_id d = request_id.
Proof.
  unfold derive_nonce.
  destruct (has_nonce_master_seed hsm); simpl; [|discriminate].
  destruct (_increment_nonce_counter hsm) as [[c|e] hsm1]; [|discriminate].
  destruct (_get_nonce_master_seed hsm1) as [seed|e]; [|discriminate].
  destruct (Py.to_bytes 8 c) as [cb|]; [|discriminate].
  destruct (Z.eqb_spec (Py.int_from_bytes (firstn 32
              (hmac_sha512 seed (x00 :: cb ++ Py.encode request_id ++ msg_hash)))
              mod CURVE_ORDER) 0) as [|Hk]; [discriminate|].
  intros [= <- <-]. simpl. split; [|done].
  match goal with
  | |- 0 < ?a mod _ < _ =>
      pose proof (Z.mod_pos_bound a CURVE_ORDER ltac:(done))
  end.
  lia.
Qed.

Lemma approve_signer_session NODE_ID w request_id msg_hash share d r signer :
  approve_signer NODE_ID w request_id msg_hash share d = Ok (r, signer) →
  ∃ session, Dict.get (sessions signer) request_id = Some session
             ∧ my_nonce_k session = Some (k d).
Proof.
  unfold approve_signer.
  destruct (hex_to_point _) as [pk|]; simpl; [|discriminate].
  destruct (ThresholdSigner_init _ _ _) as [signer0|]; simpl; [|discriminate].
  unfold create_nonce_commitment_from_k.
  destruct (hex_to_point _) as [R_i|]; simpl; [|discriminate].
  intros [= _ <-]. simpl. eexists. by rewrite Dict_get_set_eq.
Qed.

(** C3, as the code has it: the signer document has, for every session, a
    field [my_nonce_k] that holds the nonce in hexadecimal as long as the
    session holds one, and is null only once the nonce is wiped. An
    approved sign-approve writes the document of the signer it has just
    given the derived nonce, so the file it writes holds the nonce [k] of
    the derivation, which reads back from it. *)
Theorem signer_document_holds_nonce :
  (∀ signer request_id session,
     Dict.get (sessions signer) request_id = Some session →
     persisted_nonce (to_json_data signer) request_id
     = Some match my_nonce_k session with
            | Some k => JStr (Py.format_x k)
            | None => JNull
            end)
  ∧ (∀ NODE_ID w request_id inp w' evs,
       sign_approve NODE_ID w request_id inp = (w', Approved, evs) →
       ∃ d signer,
         In (Derived request_id d) evs
         ∧ signer_files w' !! signer_path request_id = Some (to_json signer)
         ∧ persisted_nonce (to_json_data signer) request_id
           = Some (JStr (Py.format_x (k d)))
         ∧ Py.int_of_str 16 (Py.format_x (k d)) = Some (k d)).
Proof.
  split; [apply persisted_nonce_to_json|].
  intros NODE_ID w request_id inp w' evs H.
  apply sign_approve_inv in H
    as [(_ & ? & _)|(mh & share & d & hsm1 & _ & _ & Hd & Hcases)];
    [done|].
  destruct Hcases as [(e & _ & _ & ? & _)|(r & signer & Hs & -> & _ & _ & Hfile)];
    [discriminate|].
  exists d, signer. split; [left; done|]. split; [by apply Hfile|].
  destruct (approve_signer_session _ _ _ _ _ _ _ _ Hs) as (session & Hget & Hk).
  rewrite (persisted_nonce_to_json _ _ _ Hget), Hk. split; [done|].
  apply PyFacts.int_of_format_x.
  destruct (derive_nonce_k _ _ _ _ _ Hd) as [? _]. lia.
Qed.

End DocumentFacts.

(** The derivation and the signer of the approval on the small curve. *)
Definition toy_derivation : NonceDerivation :=
  Eval vm_compute in
    match fst (@derive_nonce toy_curve toy_pylib toy_token "tx_1"
                 (x2c :: xf2 :: x4d :: xba :: nil)) with
    | Ok d => d
    | Raise _ => mkNonceDerivation 0 0 "" "" ""
    end.

Definition toy_written_signer : ThresholdSigner :=
  Eval vm_compute in
    match @approve_signer toy_curve "node1" toy_world "tx_1"
            (x2c :: xf2 :: x4d :: xba :: nil) 5 toy_derivation with
    | Ok (_, signer) => signer
    | Raise _ => toy_signer
    end.

Lemma signer_document_holds_nonce_witness :
  ∃ d signer,
    In (Derived "tx_1" d) (snd toy_approved)
    ∧ signer_files (fst (fst toy_approved)) !! signer_path "tx_1"
      = Some (to_json (pylib := toy_pylib) signer)
    ∧ persisted_nonce (to_json_data signer) "tx_1"
      = Some (JStr (Py.format_x (k d)))
    ∧ Py.int_of_str 16 (Py.format_x (k d)) = Some (k d).
Proof.
  apply (proj2 (signer_document_holds_nonce (curve := toy_curve)
                  (pylib := toy_pylib))
           "node1" toy_world "tx_1" toy_input).
  vm_compute. reflexivity.
Defined.

(** On the small curve: the file that the approval of [tx_1] writes is the
    document of a signer whose session field [my_nonce_k] is ["31"], the
    derived nonce 49 in hexadecimal. *)
Lemma signer_document_counterexample :
  snd (fst toy_approved) = Approved
  ∧ In (Derived "tx_1" toy_derivation) (snd toy_approved)
  ∧ k toy_derivation = 49
  ∧ signer_files (fst (fst toy_approved)) !! "signer_tx_1.json"
    = Some (to_json (pylib := toy_pylib) toy_written_signer)
  ∧ persisted_nonce (to_json_data toy_written_signer) "tx_1"
    = Some (JStr "31")
  ∧ Py.int_of_str 16 "31" = Some 49.
Proof. vm_compute. repeat split; auto. Qed.

(** ** The HSM token: the derivation counter *)

Lemma int_from_bytes_fold (bs : Py.bytes) (a : Z) :
  0 ≤ a →
  0 ≤ fold_left (fun acc b => acc * 256 + Z.of_N (Byte.to_N b)) bs a.
Proof.
  revert a. induction bs as [|b bs IH]; intros a Ha; simpl; [done|].
  apply IH. lia.
Qed.

Lemma int_from_bytes_nonneg bs : 0 ≤ Py.int_from_bytes bs.
Proof. by apply int_from_bytes_fold. Qed.

Lemma fold_to_bytes_aux n : ∀ x acc a,
  0 ≤ x →
  fold_left (fun acc b => acc * 256 + Z.of_N (Byte.to_N b))
    (Py.to_bytes_aux n x acc) a
  = fold_left (fun acc b => acc * 256 + Z.of_N (Byte.to_N b)) acc
      (a * 256 ^ Z.of_nat n + x mod 256 ^ Z.of_nat n).
Proof.
  induction n as [|n IH]; intros x acc a Hx.
  - simpl. f_equal. rewrite Z.mod_1_r. lia.
  - cbn [Py.to_bytes_aux]. rewrite IH by (apply Z.div_pos; lia).
    cbn [fold_left].
    pose proof (Z.mod_pos_bound x 256 ltac:(lia)) as Hb.
    destruct (Byte.of_N (Z.to_N (x mod 256))) as [b|] eqn:Eb.
    2:{ apply Byte.of_N_None_iff in Eb. lia. }
    apply Byte.to_of_N in Eb. rewrite Eb, Z2N.id by lia.
    f_equal.
    replace (Z.of_nat (S n)) with (Z.succ (Z.of_nat n)) by lia.
    rewrite Z.pow_succ_r by lia.
    rewrite (Z.rem_mul_r x 256 (256 ^ Z.of_nat n)) by lia.
    lia.
Qed.

Lemma int_from_to_bytes n x bs :
  Py.to_bytes n x = Some bs → Py.int_from_bytes bs = x.
Proof.
  unfold Py.to_bytes.
  destruct (Z.leb_spec 0 x); simpl; [|discriminate].
  destruct (Z.ltb_spec x (256 ^ Z.of_nat n)); [|discriminate].
  intros [= <-]. unfold Py.int_from_bytes.
  rewrite fold_to_bytes_aux by done. simpl. by apply Z.mod_small.
Qed.

Lemma to_bytes_None n x : 0 ≤ x → Py.to_bytes n x = None → 256 ^ Z.of_nat n ≤ x.
Proof.
  unfold Py.to_bytes. intros Hx.
  destruct (Z.leb_spec 0 x); simpl; [|lia].
  by destruct (Z.ltb_spec x (256 ^ Z.of_nat n)).
Qed.

(** The operations of the token that create or destroy objects. *)
Inductive hsm_op : Type :=
  | HStoreDkgShare (round_id : string) (share_bytes : Py.bytes)
  | HStoreNonceCommitment (request_id commitment_hex : string)
  | HInitialize (master_seed : Py.bytes)
  | HDeriveNonce (request_id : string) (msg_hash : Py.bytes).

(** Two labels that differ in a character of their fixed part. *)
Ltac label_ne :=
  let H := fresh in intros H; vm_compute in H; discriminate H.

Section CounterFacts.
Context {curve : Fastecdsa} {pylib : PyLib}.

(** The value of the counter object, when the token has one. *)
Definition stored_counter (hsm : HardwareToken) : option Z :=
  Py.int_from_bytes <$> objects hsm !! NONCE_COUNTER_LABEL.

(** One operation: the token after it, and the counter that a
    [derive_nonce] that returns has observed. *)
Definition hsm_step (hsm : HardwareToken) (op : hsm_op)
  : HardwareToken * option Z :=
  match op with
  | HStoreDkgShare r s => (store_dkg_share hsm r s, None)
  | HStoreNonceCommitment r c => (snd (store_nonce_commitment hsm r c), None)
  | HInitialize seed => (snd (initialize_nonce_derivation hsm seed), None)
  | HDeriveNonce r m =>
      match derive_nonce hsm r m with
      | (Ok d, hsm') => (hsm', Some (counter d))
      | (Raise _, hsm') => (hsm', None)
      end
  end.

(** The counters observed by the derivations of a life of the token. *)
Fixpoint hsm_run (hsm : HardwareToken) (ops : list hsm_op) : list Z :=
  match ops with
  | nil => nil
  | op :: rest =>
      let '(hsm', observed) := hsm_step hsm op in
      match observed with
      | Some c => c :: hsm_run hsm' rest
      | None => hsm_run hsm' rest
      end
  end.

Lemma derive_nonce_effect hsm request_id msg_hash r hsm' :
  derive_nonce hsm request_id msg_hash = (r, hsm') →
  objects hsm' !! NONCE_MASTER_LABEL = objects hsm !! NONCE_MASTER_LABEL
  ∧ match r with
    | Ok d =>
        ∃ c counter_bytes master_seed,
          stored_counter hsm = Some c
          ∧ counter d = c + 1
          ∧ stored_counter hsm' = Some (c + 1)
          ∧ Py.to_bytes 8 (c + 1) = Some counter_bytes
          ∧ objects hsm !! NONCE_MASTER_LABEL = Some master_seed
          ∧ k d = Py.int_from_bytes (firstn 32
                    (hmac_sha512 master_seed
                       (x00 :: counter_bytes ++ Py.encode request_id
                            ++ msg_hash)%list)) mod CURVE_ORDER
    | Raise e =>
        hsm' = hsm
        ∨ ∃ c, stored_counter hsm = Some c
               ∧ ((2 ^ 64 ≤ c + 1 ∧ stored_counter hsm' = None)
                  ∨ stored_counter hsm' = Some (c + 1))
    end.
Proof.
  unfold derive_nonce.
  destruct (has_nonce_master_seed hsm) eqn:Hseed; simpl;
    [|intros [= <- <-]; auto].
  unfold _increment_nonce_counter.
  destruct (is_production_mode hsm) eqn:Hmode; [intros [= <- <-]; auto|].
  unfold get_key at 1.
  destruct (objects hsm !! NONCE_COUNTER_LABEL) as [cur|] eqn:Hcur; simpl;
    [|intros [= <- <-]; auto].
  assert (Hc : stored_counter hsm = Some (Py.int_from_bytes cur))
    by (unfold stored_counter; by rewrite Hcur).
  pose proof (int_from_bytes_nonneg cur) as Hnn.
  destruct (Py.to_bytes 8 (Py.int_from_bytes cur + 1)) as [cb|] eqn:Hcb.
  2:{ intros [= <- <-]. split; [simpl; by rewrite lookup_delete_ne|].
      right. eexists. split; [done|].
      left. split.
      - apply to_bytes_None in Hcb; [|lia]. exact Hcb.
      - unfold stored_counter. simpl. by rewrite lookup_delete_eq. }
  set (hsm1 := create_object (destroy hsm NONCE_COUNTER_LABEL)
                 NONCE_COUNTER_LABEL cb).
  assert (Hc1 : stored_counter hsm1 = Some (Py.int_from_bytes cur + 1)).
  { unfold stored_counter, hsm1. simpl. rewrite lookup_insert_eq. simpl.
    by rewrite (int_from_to_bytes _ _ _ Hcb). }
  assert (Hs1 : objects hsm1 !! NONCE_MASTER_LABEL
                = objects hsm !! NONCE_MASTER_LABEL).
  { unfold hsm1. simpl. rewrite lookup_insert_ne by done.
    by rewrite lookup_delete_ne. }
  unfold _get_nonce_master_seed.
  replace (is_production_mode hsm1) with false by done.
  unfold get_key. rewrite Hs1.
  destruct (objects hsm !! NONCE_MASTER_LABEL) as [seed|] eqn:Hs; simpl.
  2:{ intros [= <- <-]. split; [done|]. right. eauto. }
  rewrite Hcb. cbv zeta.
  match goal with
  | |- context [if ?t =? 0 then _ else _] =>
      destruct (Z.eqb_spec t 0) as [Hk0|Hk0]
  end.
  { intros [= <- <-]. split; [by rewrite Hs1|]. right. eauto. }
  intros [= <- <-]. split.
  - unfold _store_derivation_record. simpl.
    rewrite lookup_insert_ne by done.
    rewrite lookup_insert_ne by done. by rewrite lookup_delete_ne.
  - exists (Py.int_from_bytes cur), cb, seed. simpl.
    repeat split; try done.
    unfold stored_counter, _store_derivation_record. simpl.
    rewrite lookup_insert_ne by done. rewrite lookup_insert_eq. simpl.
    by rewrite (int_from_to_bytes _ _ _ Hcb).
Qed.

Lemma has_seed_lookup hsm :
  has_nonce_master_seed hsm = true ↔ is_Some (objects hsm !! NONCE_MASTER_LABEL).
Proof.
  unfold has_nonce_master_seed, get_key.
  destruct (objects hsm !! NONCE_MASTER_LABEL); simpl; split; intros H;
    try done; try (by eexists); by destruct H.
Qed.

(** An operation on a token with a master seed keeps the seed, and leaves
    the counter alone unless it is a derivation. *)
Lemma hsm_step_effect hsm op :
  has_nonce_master_seed hsm = true →
  has_nonce_master_seed (fst (hsm_step hsm op)) = true
  ∧ ∀ c, stored_counter hsm = Some c →
      match snd (hsm_step hsm op) with
      | Some c' => c' = c + 1 ∧ stored_counter (fst (hsm_step hsm op)) = Some c'
      | None =>
          stored_counter (fst (hsm_step hsm op)) = Some c
          ∨ stored_counter (fst (hsm_step hsm op)) = Some (c + 1)
          ∨ (2 ^ 64 ≤ c + 1 ∧ stored_counter (fst (hsm_step hsm op)) = None)
      end.
Proof.
  intros Hseed. pose proof (proj1 (has_seed_lookup hsm) Hseed) as [seed Hs].
  destruct op as [r s|r c0|seed'|r m]; simpl.
  - split.
    + apply has_seed_lookup. unfold store_dkg_share, get_key.
      destruct (objects hsm !! ("DKG_SHARE_" +:+ r)); simpl.
      * rewrite lookup_insert_ne by label_ne.
        rewrite lookup_delete_ne by label_ne. by rewrite Hs.
      * rewrite lookup_insert_ne by label_ne. by rewrite Hs.
    + intros c Hc. left. revert Hc.
      unfold stored_counter, store_dkg_share, get_key.
      destruct (objects hsm !! ("DKG_SHARE_" +:+ r)); simpl.
      * rewrite lookup_insert_ne by label_ne.
        by rewrite lookup_delete_ne by label_ne.
      * by rewrite lookup_insert_ne by label_ne.
  - unfold store_nonce_commitment, has_nonce_commitment, get_key.
    destruct (objects hsm !! ("NONCE_" +:+ r)) as [v|] eqn:Hv; simpl.
    { split; [done|]. auto. }
    split.
    + apply has_seed_lookup. simpl.
      rewrite lookup_insert_ne by congruence. by rewrite Hs.
    + intros c Hc. left. revert Hc. unfold stored_counter. simpl.
      destruct (objects hsm !! NONCE_COUNTER_LABEL) eqn:Hcl; [|done].
      rewrite lookup_insert_ne by congruence. by rewrite Hcl.
  - unfold initialize_nonce_derivation. rewrite Hseed. simpl. auto.
  - destruct (derive_nonce hsm r m) as [[d|e] hsm'] eqn:Hd;
      apply derive_nonce_effect in Hd as [Hseed' Hd]; simpl.
    + split; [apply has_seed_lookup; rewrite Hseed', Hs; by eexists|].
      intros c Hc. destruct Hd as (c1 & cb & sd & Hc1 & -> & Hc' & _).
      rewrite Hc in Hc1. injection Hc1 as <-. done.
    + split; [apply has_seed_lookup; rewrite Hseed', Hs; by eexists|].
      intros c Hc. destruct Hd as [->|(c1 & Hc1 & Hd)]; [auto|].
      rewrite Hc in Hc1. injection Hc1 as <-.
      destruct Hd as [[? ?]|?]; auto.
Qed.

Lemma hsm_run_above ops : ∀ hsm c0,
  has_nonce_master_seed hsm = true →
  stored_counter hsm = Some c0 →
  c0 + Z.of_nat (length ops) < 2 ^ 64 →
  StronglySorted Z.lt (hsm_run hsm ops) ∧ Forall (fun c => c0 < c) (hsm_run hsm ops).
Proof.
  induction ops as [|op ops IH]; intros hsm c0 Hseed Hc Hlen;
    [split; constructor|].
  cbn [hsm_run]. cbn [length] in Hlen.
  destruct (hsm_step_effect hsm op Hseed) as [Hseed' Hstep].
  specialize (Hstep c0 Hc).
  destruct (hsm_step hsm op) as [hsm' [c'|]]; simpl in *.
  - destruct Hstep as [-> Hc'].
    destruct (IH hsm' (c0 + 1) Hseed' Hc' ltac:(lia)) as [Hsorted Hall].
    split.
    + by constructor.
    + constructor; [lia|]. eapply Forall_impl; [exact Hall|].
      simpl. intros; lia.
  - destruct Hstep as [Hc'|[Hc'|[Hover _]]]; [| |lia].
    + apply (IH hsm' c0 Hseed' Hc'). lia.
    + destruct (IH hsm' (c0 + 1) Hseed' Hc' ltac:(lia)) as [Hsorted Hall].
      split; [done|]. eapply Forall_impl; [exact Hall|].
      simpl. intros; lia.
Qed.

(** C7: a [derive_nonce] that returns has read the counter [c] of the
    token, returns [c + 1], leaves [c + 1] in the token, and has hashed
    the bytes of [c + 1]; no operation on a token with a master seed
    lowers the counter; so, in a life of the token that does not exhaust
    the 64 bits of the counter, the counters that the derivations observe
    are strictly increasing, hence all different. *)
Theorem nonce_counter_strictly_increasing :
  (∀ hsm request_id msg_hash d hsm',
     derive_nonce hsm request_id msg_hash = (Ok d, hsm') →
     ∃ c counter_bytes master_seed,
       stored_counter hsm = Some c
       ∧ counter d = c + 1
       ∧ stored_counter hsm' = Some (c + 1)
       ∧ Py.to_bytes 8 (c + 1) = Some counter_bytes
       ∧ objects hsm !! NONCE_MASTER_LABEL = Some master_seed
       ∧ k d = Py.int_from_bytes (firstn 32
                 (hmac_sha512 master_seed
                    (x00 :: counter_bytes ++ Py.encode request_id
                         ++ msg_hash)%list)) mod CURVE_ORDER)
  ∧ (∀ hsm op c c',
       has_nonce_master_seed hsm = true →
       stored_counter hsm = Some c →
       stored_counter (fst (hsm_step hsm op)) = Some c' →
       c ≤ c')
  ∧ (∀ hsm ops c0,
       has_nonce_master_seed hsm = true →
       stored_counter hsm = Some c0 →
       c0 + Z.of_nat (length ops) < 2 ^ 64 →
       StronglySorted Z.lt (hsm_run hsm ops)
       ∧ NoDup (hsm_run hsm ops)
       ∧ Forall (fun c => c0 < c) (hsm_run hsm ops)).
Proof.
  split; [|split].
  - intros hsm request_id msg_hash d hsm' Hd.
    by apply derive_nonce_effect in Hd as [_ Hd].
  - intros hsm op c c' Hseed Hc Hc'.
    destruct (hsm_step_effect hsm op Hseed) as [_ Hstep].
    specialize (Hstep c Hc).
    destruct (snd (hsm_step hsm op)).
    + destruct Hstep as [-> Hs]. rewrite Hs in Hc'. injection Hc' as <-. lia.
    + destruct Hstep as [Hs|[Hs|[_ Hs]]]; rewrite Hs in Hc'; simplify_eq; lia.
  - intros hsm ops c0 Hseed Hc Hlen.
    destruct (hsm_run_above ops hsm c0 Hseed Hc Hlen) as [Hsorted Hall].
    split; [done|]. split; [|done].
    clear Hall. induction Hsorted as [|c l _ IH Hlt]; constructor; [|done].
    intros Hin. rewrite Forall_forall in Hlt.
    apply Hlt in Hin. lia.
Qed.

End CounterFacts.

Lemma nonce_counter_strictly_increasing_witness :
  let ops := HDeriveNonce "tx_1" (x2c :: nil)
             :: HStoreNonceCommitment "COUNTER" "00"
             :: HInitialize (x09 :: nil)
             :: HDeriveNonce "tx_1" (x2c :: nil) :: nil in
  @hsm_run toy_curve toy_pylib toy_token ops = 1 :: 2 :: nil
  ∧ StronglySorted Z.lt (@hsm_run toy_curve toy_pylib toy_token ops)
  ∧ NoDup (@hsm_run toy_curve toy_pylib toy_token ops).
Proof.
  intros ops. split; [vm_compute; reflexivity|].
  destruct (proj2 (proj2 (nonce_counter_strictly_increasing
                            (curve := toy_curve) (pylib := toy_pylib)))
              toy_token ops 0) as (H1 & H2 & _).
  - vm_compute. reflexivity.
  - vm_compute. reflexivity.
  - vm_compute. reflexivity.
  - by split.
Defined.

(** ** sign-approve: one nonce for a request *)

(** The events of a request in a trace. *)
Definition is_derived (request_id : string) (ev : event) : bool :=
  match ev with
  | Derived r _ => bool_decide (r = request_id)
  | Committed _ _ => false
  end.

Definition is_committed (request_id : string) (ev : event) : bool :=
  match ev with
  | Derived _ _ => false
  | Committed r _ => bool_decide (r = request_id)
  end.

Definition count_derived (request_id : string) (evs : list event) : nat :=
  length (filter (fun ev => is_derived request_id ev = true) evs).

Definition count_committed (request_id : string) (evs : list event) : nat :=
  length (filter (fun ev => is_committed request_id ev = true) evs).

Section GuardFacts.
Context {curve : Fastecdsa} {pylib : PyLib}.
Variable NODE_ID : string.

(** A state file from which sign-approve can rebuild the group key. *)
Definition local_ok (s : NodeState) : Prop :=
  my_share_stored (dkg s) = true →
  ∃ P, hex_to_point (group_pubkey_hex (dkg s)) = Ok P.

(** Rewinds of the state file put back such a state file. *)
Definition rewinds_ok (actions : list action) : Prop :=
  Forall (fun a => match a with
                   | RewindLocal s => local_ok s
                   | _ => True
                   end) actions.

Lemma insert_keeps (objs : gmap string Py.bytes) L L' v :
  is_Some (objs !! L) → is_Some (<[L' := v]> objs !! L).
Proof.
  intros H. destruct (decide (L' = L)) as [->|Hne].
  - rewrite lookup_insert_eq. by eexists.
  - by rewrite lookup_insert_ne.
Qed.

Lemma store_nonce_commitment_keeps hsm r c L :
  is_Some (objects hsm !! L) →
  is_Some (objects (snd (store_nonce_commitment hsm r c)) !! L).
Proof.
  unfold store_nonce_commitment.
  destruct (has_nonce_commitment hsm r); simpl; [done|]. apply insert_keeps.
Qed.

Lemma store_nonce_commitment_records hsm r c :
  is_Some (objects (snd (store_nonce_commitment hsm r c)) !! ("NONCE_" +:+ r)).
Proof.
  unfold store_nonce_commitment, has_nonce_commitment, get_key.
  destruct (objects hsm !! ("NONCE_" +:+ r)) eqn:E; simpl.
  - rewrite E. by eexists.
  - rewrite lookup_insert_eq. by eexists.
Qed.

Lemma derive_nonce_keeps hsm r m res hsm' L :
  derive_nonce hsm r m = (res, hsm') →
  L ≠ NONCE_COUNTER_LABEL →
  is_Some (objects hsm !! L) → is_Some (objects hsm' !! L).
Proof.
  intros Hd Hne HL. revert Hd. unfold derive_nonce.
  destruct (has_nonce_master_seed hsm); simpl; [|by intros [= <- <-]].
  unfold _increment_nonce_counter.
  destruct (is_production_mode hsm); [by intros [= <- <-]|].
  destruct (get_key hsm NONCE_COUNTER_LABEL); [|by intros [= <- <-]].
  assert (Hdel : is_Some (objects (destroy hsm NONCE_COUNTER_LABEL) !! L))
    by (simpl; by rewrite lookup_delete_ne).
  destruct (Py.to_bytes 8 _) as [cb|] eqn:Hcb; [|by intros [= <- <-]].
  assert (Hins : is_Some (objects (create_object
                   (destroy hsm NONCE_COUNTER_LABEL) NONCE_COUNTER_LABEL cb) !! L))
    by (simpl; by apply insert_keeps).
  destruct (_get_nonce_master_seed _); [|by intros [= <- <-]].
  rewrite Hcb. cbv zeta.
  destruct (_ =? 0); intros [= <- <-]; [done|].
  unfold _store_derivation_record. by apply insert_keeps.
Qed.

Lemma recover_keeps w r existing :
  dkg (state_file (recover w r existing)) = dkg (state_file w)
  ∧ ∀ L, is_Some (objects (token w) !! L) →
         is_Some (objects (token (recover w r existing)) !! L).
Proof.
  unfold recover.
  destruct (json_loads existing) as [[| | | |fields]|]; try done.
  destruct (match fields_get fields "R_commitment" with
            | Some v => v
            | None => JStr "unknown"
            end) as [| | |R|]; try done.
  pose proof (store_nonce_commitment_keeps (token w) r R) as Hk.
  destruct (store_nonce_commitment (token w) r R) as [[?|?] hsm1]; simpl in *;
    split; done.
Qed.

(** Whatever a call does, it keeps the DKG part of the state file and the
    objects of the token other than the counter. *)
Lemma sign_approve_keeps w request_id inp w' o evs :
  sign_approve NODE_ID w request_id inp = (w', o, evs) →
  dkg (state_file w') = dkg (state_file w)
  ∧ ∀ L, L ≠ NONCE_COUNTER_LABEL →
         is_Some (objects (token w) !! L) → is_Some (objects (token w') !! L).
Proof.
  unfold sign_approve.
  destruct (my_share_stored (dkg (state_file w))); simpl;
    [|by intros [= <- <- <-]].
  destruct (check_nonce_unused (state_file w) request_id); simpl;
    [|by intros [= <- <- <-]].
  destruct (has_nonce_commitment (token w) request_id);
    [by intros [= <- <- <-]|].
  destruct (truthy (mailbox_read (board w) (commitment_path NODE_ID request_id))).
  { intros [= <- <- <-].
    destruct (recover_keeps w request_id
                (default nil (mailbox_read (board w)
                   (commitment_path NODE_ID request_id)))) as [H1 H2].
    split; [done|]. intros L _. apply H2. }
  destruct (truthy (mailbox_read (board w) (request_path request_id)));
    simpl; [|by intros [= <- <- <-]].
  destruct (SigningRequest_message_hash _) as [req_hash|e];
    [|by intros [= <- <- <-]].
  destruct (confirm inp); simpl; [|by intros [= <- <- <-]].
  destruct (is_production_mode (token w)); [by intros [= <- <- <-]|].
  destruct (get_dkg_share _ _) as [share_bytes|e]; [|by intros [= <- <- <-]].
  destruct req_hash as [| | |req_hash_hex|]; try by intros [= <- <- <-].
  destruct (Py.bytes_fromhex req_hash_hex) as [msg_hash|];
    [|by intros [= <- <- <-]].
  destruct (derive_nonce (token w) request_id msg_hash) as [[d|e] hsm1] eqn:Hd.
  2:{ intros [= <- <- <-]. split; [done|]. intros L HL.
      by apply (derive_nonce_keeps _ _ _ _ _ L Hd). }
  pose proof (fun L => derive_nonce_keeps _ _ _ _ _ L Hd) as Hkeep.
  destruct (hex_to_point (group_pubkey_hex (dkg (state_file w))) ≫= _)
    as [[r signer]|e].
  - destruct (post_succeeds inp); simpl; intros [= <- <- <-];
      (split; [done|]); intros L HL HS; simpl;
      by apply store_nonce_commitment_keeps, Hkeep.
  - intros [= <- <- <-]. split; [done|]. intros L HL HS. by apply Hkeep.
Qed.

(** The events of a call, and what they tell about the worlds before and
    after it. *)
Lemma sign_approve_events w request_id inp w' o evs :
  sign_approve NODE_ID w request_id inp = (w', o, evs) →
  evs = nil
  ∨ (guard_passes NODE_ID w request_id
     ∧ is_Some (objects (token w) !! NONCE_COUNTER_LABEL)
     ∧ my_share_stored (dkg (state_file w)) = true
     ∧ ∃ d msg_hash share,
         R_hex d = point_to_hex (point_mul (k d) G)
         ∧ ((evs = Derived request_id d :: nil
             ∧ ∃ e, approve_signer NODE_ID w request_id msg_hash share d = Raise e)
            ∨ (evs = Derived request_id d
                     :: Committed request_id (R_hex d) :: nil
               ∧ is_Some (objects (token w') !! ("NONCE_" +:+ request_id))))).
Proof.
  intros H.
  apply sign_approve_inv in H
    as [(-> & _)|(mh & share & d & hsm1 & Hdkg & Hg & Hd & Hcases)]; [by left|].
  right. split; [done|].
  pose proof (derive_nonce_effect _ _ _ _ _ Hd) as [_ (c & _ & _ & Hc & _)].
  split.
  { unfold stored_counter in Hc.
    destruct (objects (token w) !! NONCE_COUNTER_LABEL); [by eexists|done]. }
  split; [done|].
  exists d, mh, share.
  split; [by destruct (derive_nonce_k _ _ _ _ _ Hd) as (_ & ? & _)|].
  destruct Hcases as [(e & He & -> & _)|(r & signer & _ & -> & Htok & _)].
  - left. split; [done|]. by exists e.
  - right. split; [done|]. rewrite Htok. apply store_nonce_commitment_records.
Qed.

(** With a node name that has an index, commitments that decode, and a
    state file that holds the group key, building the signer does not
    raise. *)
Lemma approve_signer_ok w request_id msg_hash share d :
  (∃ i, node_index NODE_ID = Ok i) →
  (∀ n, ∃ P, hex_to_point (point_to_hex (point_mul n G)) = Ok P) →
  local_ok (state_file w) →
  my_share_stored (dkg (state_file w)) = true →
  R_hex d = point_to_hex (point_mul (k d) G) →
  ∃ r, approve_signer NODE_ID w request_id msg_hash share d = Ok r.
Proof.
  intros [i Hi] Hdec Hok Hdkg HR. unfold approve_signer.
  destruct (Hok Hdkg) as [pk ->]. simpl.
  unfold ThresholdSigner_init. rewrite Hi. simpl.
  unfold create_nonce_commitment_from_k. rewrite HR.
  destruct (Hdec (k d)) as [P ->]. simpl. by eexists.
Qed.

Lemma count_derived_app r evs1 evs2 :
  count_derived r (evs1 ++ evs2) = (count_derived r evs1 + count_derived r evs2)%nat.
Proof. unfold count_derived. by rewrite filter_app, length_app. Qed.

Lemma count_committed_app r evs1 evs2 :
  count_committed r (evs1 ++ evs2)
  = (count_committed r evs1 + count_committed r evs2)%nat.
Proof. unfold count_committed. by rewrite filter_app, length_app. Qed.

(** The counts of the events of one call. *)
Lemma sign_approve_counts w request_id inp w' o evs rid :
  sign_approve NODE_ID w request_id inp = (w', o, evs) →
  (count_derived rid evs = 0 ∧ count_committed rid evs = 0)%nat
  ∨ (request_id = rid
     ∧ guard_passes NODE_ID w rid
     ∧ is_Some (objects (token w) !! NONCE_COUNTER_LABEL)
     ∧ my_share_stored (dkg (state_file w)) = true
     ∧ ∃ d msg_hash share,
         R_hex d = point_to_hex (point_mul (k d) G)
         ∧ ((count_derived rid evs = 1 ∧ count_committed rid evs = 0
             ∧ ∃ e, approve_signer NODE_ID w rid msg_hash share d = Raise e)
            ∨ (count_derived rid evs = 1 ∧ count_committed rid evs = 1
               ∧ is_Some (objects (token w') !! ("NONCE_" +:+ rid)))))%nat.
Proof.
  intros H. apply sign_approve_events in H as [->|(Hg & Hc & Hdkg & Hev)];
    [by left|].
  destruct Hev as (d & mh & share & HR & Hev).
  destruct (decide (request_id = rid)) as [->|Hne].
  - right. split; [done|]. split; [done|]. split; [done|]. split; [done|].
    exists d, mh, share. split; [done|].
    destruct Hev as [[-> He]|[-> Hs]]; [left|right];
      unfold count_derived, count_committed; simpl;
      rewrite !filter_cons; simpl; rewrite ?bool_decide_eq_true_2 by done;
      repeat (case_decide; try done).
  - left. destruct Hev as [[-> _]|[-> _]];
      unfold count_derived, count_committed; simpl;
      rewrite !filter_cons; simpl;
      rewrite ?bool_decide_eq_false_2 by done;
      repeat (case_decide; try done).
Qed.

Lemma run_cons w a rest :
  snd (run NODE_ID w (a :: rest))
  = (snd (step NODE_ID w a) ++ snd (run NODE_ID (fst (step NODE_ID w a)) rest))%list.
Proof.
  simpl. destruct (step NODE_ID w a) as [w1 evs1]; simpl.
  by destruct (run NODE_ID w1 rest).
Qed.

(** A request with a record in the token gets no further commitment, and
    no request gets more than one. *)
Lemma run_committed rid actions : ∀ w,
  (is_Some (objects (token w) !! ("NONCE_" +:+ rid)) →
   "NONCE_" +:+ rid ≠ NONCE_COUNTER_LABEL →
   count_committed rid (snd (run NODE_ID w actions)) = 0%nat)
  ∧ (count_committed rid (snd (run NODE_ID w actions)) ≤ 1)%nat.
Proof.
  induction actions as [|a rest IH]; intros w; [simpl; split; [done|apply Nat.le_0_l]|].
  rewrite run_cons, count_committed_app.
  destruct a as [r inp|s|b]; simpl.
  - destruct (sign_approve NODE_ID w r inp) as [[w1 o] evs1] eqn:Hsa; simpl.
    pose proof (sign_approve_keeps _ _ _ _ _ _ Hsa) as [_ Hkeep].
    destruct (IH w1) as [IH0 IH1].
    destruct (sign_approve_counts _ _ _ _ _ _ rid Hsa)
      as [[_ ->]|(-> & Hg & Hc & _ & d & mh & sh & _ & Hev)].
    + split; [|done]. intros HS Hne. apply IH0; [|done]. by apply Hkeep.
    + assert (Hne : "NONCE_" +:+ rid ≠ NONCE_COUNTER_LABEL).
      { intros Heq. destruct Hg as (_ & Hn & _). rewrite Heq in Hn.
        rewrite Hn in Hc. by destruct Hc. }
      split.
      * intros [v Hv]. destruct Hg as (_ & Hn & _). congruence.
      * destruct Hev as [(_ & -> & _)|(_ & -> & HS)]; [apply IH1|].
        rewrite IH0 by done. lia.
  - apply (IH (mkWorld s (token w) (board w) (signer_files w))).
  - apply (IH (mkWorld (state_file w) (token w) b (signer_files w))).
Qed.

Section Derivations.
Hypothesis node_has_index : ∃ i, node_index NODE_ID = Ok i.
Hypothesis commitments_decode :
  ∀ n, ∃ P, hex_to_point (point_to_hex (point_mul n G)) = Ok P.

Lemma run_derived rid actions : ∀ w,
  local_ok (state_file w) → rewinds_ok actions →
  (is_Some (objects (token w) !! ("NONCE_" +:+ rid)) →
   "NONCE_" +:+ rid ≠ NONCE_COUNTER_LABEL →
   count_derived rid (snd (run NODE_ID w actions)) = 0%nat)
  ∧ (count_derived rid (snd (run NODE_ID w actions)) ≤ 1)%nat.
Proof using node_has_index commitments_decode.
  induction actions as [|a rest IH]; intros w Hok Hrew;
    [simpl; split; [done|apply Nat.le_0_l]|].
  apply Forall_cons in Hrew as [Ha Hrew].
  rewrite run_cons, count_derived_app.
  destruct a as [r inp|s|b]; simpl.
  - destruct (sign_approve NODE_ID w r inp) as [[w1 o] evs1] eqn:Hsa; simpl.
    pose proof (sign_approve_keeps _ _ _ _ _ _ Hsa) as [Hdkg Hkeep].
    assert (Hok1 : local_ok (state_file w1))
      by (unfold local_ok in *; by rewrite Hdkg).
    destruct (IH w1 Hok1 Hrew) as [IH0 IH1].
    destruct (sign_approve_counts _ _ _ _ _ _ rid Hsa)
      as [[-> _]|(-> & Hg & Hc & Hst & d & mh & sh & HR & Hev)].
    + split; [|done]. intros HS Hne. apply IH0; [|done]. by apply Hkeep.
    + assert (Hne : "NONCE_" +:+ rid ≠ NONCE_COUNTER_LABEL).
      { intros Heq. destruct Hg as (_ & Hn & _). rewrite Heq in Hn.
        rewrite Hn in Hc. by destruct Hc. }
      split.
      * intros [v Hv]. destruct Hg as (_ & Hn & _). congruence.
      * destruct Hev as [(_ & _ & e & He)|(-> & _ & HS)].
        { destruct (approve_signer_ok w rid mh sh d node_has_index
                      commitments_decode Hok Hst HR) as [res Hres].
          congruence. }
        rewrite IH0 by done. lia.
  - apply (IH (mkWorld s (token w) (board w) (signer_files w))); done.
  - apply (IH (mkWorld (state_file w) (token w) b (signer_files w))); done.
Qed.

End Derivations.


End GuardFacts.

(** On the small curve, the multiples of the base point are those by the
    numbers below the order. *)
Lemma toy_mul_mod n P :
  @point_mul toy_curve n P = @point_mul toy_curve (n mod 31) P.
Proof.
  simpl. unfold Affine.mul. by rewrite Z.mod_mod.
Qed.

Lemma toy_commitments_decode n :
  ∃ P, @hex_to_point toy_curve
         (point_to_hex (@point_mul toy_curve n (@G toy_curve))) = Ok P.
Proof.
  rewrite toy_mul_mod.
  pose proof (Z.mod_pos_bound n 31 ltac:(lia)) as Hn.
  pattern (n mod 31). apply (PyFacts.small_cases _ 31%nat _ Hn).
  intros i Hi.
  do 31 (destruct i as [|i]; [eexists; vm_compute; reflexivity|]).
  lia.
Qed.

Lemma toy_state_ok : @local_ok toy_curve toy_state.
Proof. intros _. eexists. vm_compute. reflexivity. Qed.

(** node1 approves [tx_1], its state file and the board are put back, and
    it is asked to approve [tx_1] again. *)
Definition toy_actions : list action :=
  Approve "tx_1" toy_input
  :: RewindLocal toy_state
  :: RewindBoard (board toy_world)
  :: Approve "tx_1" toy_input :: nil.


(** ** Interpolation at zero over the field of scalars *)

Section Interpolation.
Variable q : Z.
Hypothesis q_prime : Z.prime q.

Add Field scalar_field : (Zmod.field_theory q q_prime).

(** [x^k], for a natural exponent. *)
Fixpoint fpow (x : Zmod q) (k : nat) : Zmod q :=
  match k with
  | O => Zmod.one
  | S k' => (x * fpow x k')%Zmod
  end.

(** The numerator and the denominator of the Lagrange coefficient at zero
    of the node [x] among the nodes [xs]. *)
Fixpoint lagrange_num (xs : list (Zmod q)) (x : Zmod q) : Zmod q :=
  match xs with
  | nil => Zmod.one
  | y :: rest =>
      if Zmod.eqb y x then lagrange_num rest x
      else (lagrange_num rest x * (Zmod.zero - y))%Zmod
  end.

Fixpoint lagrange_den (xs : list (Zmod q)) (x : Zmod q) : Zmod q :=
  match xs with
  | nil => Zmod.one
  | y :: rest =>
      if Zmod.eqb y x then lagrange_den rest x
      else (lagrange_den rest x * (x - y))%Zmod
  end.

(** The sum of [f x * lambda_x] over the nodes [part], the coefficients
    taken among the nodes [xs]. *)
Fixpoint interpolate (xs : list (Zmod q)) (f : Zmod q → Zmod q)
    (part : list (Zmod q)) : Zmod q :=
  match part with
  | nil => Zmod.zero
  | x :: rest =>
      (f x * Zmod.mdiv (lagrange_num xs x) (lagrange_den xs x)
       + interpolate xs f rest)%Zmod
  end.

Lemma lagrange_den_nz xs x : lagrange_den xs x ≠ Zmod.zero.
Proof using q_prime.
  induction xs as [|y xs IH]; simpl.
  - intros H. apply (f_equal Zmod.unsigned) in H.
    rewrite Zmod.unsigned_1, Zmod.unsigned_0 in H.
    destruct q_prime as [Hq _]. rewrite Z.mod_small in H; lia.
  - destruct (Zmod.eqb_spec y x) as [->|Hne]; [done|].
    intros H.
    assert (Hxy : (x - y)%Zmod ≠ Zmod.zero).
    { intros H0. apply Hne. symmetry.
      transitivity ((x - y) + y)%Zmod; [ring|]. rewrite H0. ring. }
    apply IH.
    transitivity (Zmod.mdiv (lagrange_den xs x * (x - y)) (x - y))%Zmod.
    + field. done.
    + rewrite H. field. done.
Qed.

Lemma interpolate_ext xs f g part :
  (∀ x, x ∈ part → f x = g x) →
  interpolate xs f part = interpolate xs g part.
Proof using Type.
  induction part as [|x part IH]; intros H; simpl; [done|].
  rewrite H by (apply elem_of_cons; by left).
  rewrite IH; [done|]. intros y Hy. apply H, elem_of_cons. by right.
Qed.

Lemma interpolate_linear xs f g c d part :
  interpolate xs (λ x, c * f x + d * g x)%Zmod part
  = (c * interpolate xs f part + d * interpolate xs g part)%Zmod.
Proof using q_prime.
  induction part as [|x part IH]; simpl; [ring|].
  rewrite IH. pose proof (lagrange_den_nz xs x). field. done.
Qed.

(** Removing the first node [a]: a function with the factor [x - a]. *)
Lemma interpolate_head a xs h part :
  a ∉ part →
  interpolate (a :: xs) (λ x, (x - a) * h x)%Zmod part
  = ((Zmod.zero - a) * interpolate xs h part)%Zmod.
Proof using q_prime.
  induction part as [|x part IH]; intros Hni; simpl; [ring|].
  rewrite IH by set_solver.
  destruct (Zmod.eqb_spec a x) as [->|Hne]; [set_solver|].
  pose proof (lagrange_den_nz xs x).
  assert (Hxa : (x - a)%Zmod ≠ Zmod.zero).
  { intros H0. apply Hne.
    transitivity ((x - a) + a)%Zmod; [rewrite H0|]; ring. }
  field. done.
Qed.

(** Removing the second node [b]. *)
Lemma interpolate_second a b xs h part :
  a ≠ b → b ∉ part →
  interpolate (a :: b :: xs) (λ x, (x - b) * h x)%Zmod part
  = ((Zmod.zero - b) * interpolate (a :: xs) h part)%Zmod.
Proof using q_prime.
  intros Hab.
  induction part as [|x part IH]; intros Hni; simpl; [ring|].
  rewrite IH by set_solver.
  destruct (Zmod.eqb_spec b x) as [->|Hne]; [set_solver|].
  pose proof (lagrange_den_nz xs x).
  assert (Hxb : (x - b)%Zmod ≠ Zmod.zero).
  { intros H0. apply Hne.
    transitivity ((x - b) + b)%Zmod; [rewrite H0|]; ring. }
  destruct (Zmod.eqb_spec a x) as [->|Hne'].
  - field. done.
  - assert (Hxa : (x - a)%Zmod ≠ Zmod.zero).
    { intros H0. apply Hne'.
      transitivity ((x - a) + a)%Zmod; [rewrite H0|]; ring. }
    field. done.
Qed.

Lemma interpolate_self_head a xs f :
  interpolate (a :: xs) f (a :: xs)
  = (f a * Zmod.mdiv (lagrange_num xs a) (lagrange_den xs a)
     + interpolate (a :: xs) f xs)%Zmod.
Proof. simpl. by rewrite Zmod.eqb_refl. Qed.

Lemma interpolate_head_full a xs h :
  NoDup (a :: xs) →
  interpolate (a :: xs) (λ x, (x - a) * h x)%Zmod (a :: xs)
  = ((Zmod.zero - a) * interpolate xs h xs)%Zmod.
Proof using q_prime.
  intros Hnd. apply NoDup_cons in Hnd as [Hni _].
  cbn [interpolate]. rewrite (interpolate_head a xs h xs Hni). ring.
Qed.

Lemma interpolate_second_full a b ys h :
  NoDup (a :: b :: ys) →
  interpolate (a :: b :: ys) (λ x, (x - b) * h x)%Zmod (a :: b :: ys)
  = ((Zmod.zero - b) * interpolate (a :: ys) h (a :: ys))%Zmod.
Proof using q_prime.
  intros Hnd. apply NoDup_cons in Hnd as [Ha Hnd].
  apply NoDup_cons in Hnd as [Hb _].
  assert (Hab : a ≠ b) by set_solver.
  cbn [interpolate]. rewrite (interpolate_second a b ys h ys Hab Hb).
  cbn [lagrange_num lagrange_den]. rewrite !Zmod.eqb_refl.
  destruct (Zmod.eqb_spec b a) as [->|_]; [done|].
  destruct (Zmod.eqb_spec a b) as [->|_]; [done|].
  pose proof (lagrange_den_nz ys a) as Hda.
  pose proof (lagrange_den_nz ys b) as Hdb.
  assert (Hd : (a - b)%Zmod ≠ Zmod.zero).
  { intros H0. apply Hab.
    transitivity ((a - b) + b)%Zmod; [ring|rewrite H0; ring]. }
  assert (Hd' : (b - a)%Zmod ≠ Zmod.zero).
  { intros H0. apply Hab. symmetry.
    transitivity ((b - a) + a)%Zmod; [ring|rewrite H0; ring]. }
  field. repeat split; assumption.
Qed.

(** The coefficients reproduce the value at zero of every monomial of
    degree below the number of nodes. *)
Lemma interpolate_monomial n : ∀ xs,
  length xs = n → NoDup xs → ∀ k, (k < n)%nat →
  interpolate xs (λ x, fpow x k) xs
  = match k with O => Zmod.one | S _ => Zmod.zero end.
Proof using q_prime.
  induction n as [|n IH]; intros xs Hlen Hnd k Hk; [lia|].
  destruct xs as [|a xs]; [done|]. simpl in Hlen.
  induction k as [|k IHk].
  - destruct xs as [|b ys].
    + cbn. rewrite Zmod.eqb_refl. field.
      intros H. apply (f_equal Zmod.unsigned) in H.
      rewrite Zmod.unsigned_1, Zmod.unsigned_0 in H.
      destruct q_prime as [Hq _]. rewrite Z.mod_small in H; lia.
    + assert (Hab : a ≠ b).
      { apply NoDup_cons in Hnd as [Ha _]. set_solver. }
      assert (Hd : (b - a)%Zmod ≠ Zmod.zero).
      { intros H0. apply Hab. symmetry.
        transitivity ((b - a) + a)%Zmod; [ring|rewrite H0; ring]. }
      rewrite (interpolate_ext _ _
                 (λ x, Zmod.inv (b - a) * ((x - a) * fpow x 0)
                       + (Zmod.zero - Zmod.inv (b - a)) * ((x - b) * fpow x 0))%Zmod).
      2:{ intros x _. cbn. field. done. }
      rewrite interpolate_linear, interpolate_head_full,
        interpolate_second_full by done.
      rewrite (IH (b :: ys)), (IH (a :: ys)); simpl in *; try lia.
      * field. done.
      * apply NoDup_cons in Hnd as [Ha Hnd].
        apply NoDup_cons in Hnd as [Hb Hnd].
        apply NoDup_cons. split; [set_solver|done].
      * by apply NoDup_cons in Hnd as [_ Hnd].
  - rewrite (interpolate_ext _ _
               (λ x, Zmod.one * ((x - a) * fpow x k) + a * fpow x k)%Zmod).
    2:{ intros x _. cbn. ring. }
    rewrite interpolate_linear, interpolate_head_full by done.
    rewrite IHk by lia. rewrite (IH xs); try lia.
    + destruct k; ring.
    + by apply NoDup_cons in Hnd as [_ Hnd].
Qed.

(** A polynomial by its coefficients, from the power [k] on. *)
Fixpoint peval (cs : list (Zmod q)) (k : nat) (x : Zmod q) : Zmod q :=
  match cs with
  | nil => Zmod.zero
  | c :: rest => (c * fpow x k + peval rest (S k) x)%Zmod
  end.

Lemma interpolate_zero xs part :
  interpolate xs (λ _, Zmod.zero) part = Zmod.zero.
Proof using q_prime.
  induction part as [|x part IH]; simpl; [done|].
  rewrite IH. pose proof (lagrange_den_nz xs x). field. done.
Qed.

Lemma interpolate_poly xs cs : ∀ k,
  NoDup xs → (k + length cs ≤ length xs)%nat →
  interpolate xs (peval cs k) xs
  = match k with O => hd Zmod.zero cs | S _ => Zmod.zero end.
Proof using q_prime.
  induction cs as [|c cs IH]; intros k Hnd Hlen; simpl.
  - rewrite interpolate_zero. by destruct k.
  - rewrite (interpolate_ext _ _
               (λ x, c * fpow x k + Zmod.one * peval cs (S k) x)%Zmod).
    2:{ intros x _. ring. }
    rewrite interpolate_linear.
    rewrite (interpolate_monomial (length xs)) by (simpl in Hlen; (done || lia)).
    rewrite IH by (simpl in Hlen; (done || lia)).
    destruct k; ring.
Qed.

(** Sums in the field. *)
Definition fsum (l : list (Zmod q)) : Zmod q := foldr Zmod.add Zmod.zero l.

Lemma fsum_perm l1 l2 : l1 ≡ₚ l2 → fsum l1 = fsum l2.
Proof.
  induction 1; simpl; try congruence.
  rewrite !Zmod.add_assoc, (Zmod.add_comm x y). done.
Qed.

(** The coefficients recover the constant term of a sum of polynomials of
    degree below the number of nodes. *)
Lemma interpolate_polys xs (polys : list (list (Zmod q))) :
  NoDup xs →
  Forall (λ cs, (length cs ≤ length xs)%nat) polys →
  interpolate xs (λ x, fsum (map (λ cs, peval cs 0 x) polys)) xs
  = fsum (map (hd Zmod.zero) polys).
Proof using q_prime.
  intros Hnd. induction 1 as [|cs polys Hcs _ IH]; simpl.
  - apply interpolate_zero.
  - rewrite (interpolate_ext _ _
               (λ x, Zmod.one * peval cs 0 x
                     + Zmod.one * fsum (map (λ cs, peval cs 0 x) polys))%Zmod).
    2:{ intros x _. ring. }
    rewrite interpolate_linear, IH, interpolate_poly by done. ring.
Qed.

End Interpolation.

(** ** Threshold signing over a distributed key *)

(** What the proofs take from the curve: its field and the order of its
    base point are prime, the field prime is 3 modulo 4 (so that decoding
    finds square roots), the point at infinity has the coordinates
    [(0, 0)], and the multiples of the base point are points of the curve
    that add and multiply as their scalars do modulo the order. *)
Record curve_laws {curve : Fastecdsa} : Prop := {
  field_prime : Z.prime curve_p;
  field_mod_4 : curve_p mod 4 = 3;
  order_prime : Z.prime ORDER;
  identity_is_zero : IDENTITY = mkPoint 0 0;
  multiple_valid : ∀ a, valid_point (point_mul a G);
  multiple_zero : point_mul 0 G = IDENTITY;
  multiple_add : ∀ a b,
    point_add (point_mul a G) (point_mul b G) = point_mul (a + b) G;
  multiple_mul : ∀ a b, point_mul a (point_mul b G) = point_mul (a * b) G;
  multiple_mod : ∀ a, point_mul (a mod ORDER) G = point_mul a G
}.
Arguments curve_laws : clear implicits.

(** A [for] loop whose body may raise. *)
Fixpoint foldM_res {A B} (f : B → A → res B) (l : list A) (b : B) : res B :=
  match l with
  | nil => Ok b
  | a :: l' => b' ← f b a; foldM_res f l' b'
  end.

Section Threshold.
Context {curve : Fastecdsa} {pylib : PyLib}.

(** *** The three DKG commands (main.py), the board and the token left
    out: a node is its identifier with the coefficients it samples, and
    the messages of the other nodes are computed where they are read. *)

(** [dkg-start]: the engine with its polynomial, and the commitments
    that are posted. *)
Definition dkg_start (round : string) (t n : Z) (d : string * list Z)
  : res (DKGRound * list string) :=
  dkg ← FeldmanDKG round d.1 t n;
  Ok (generate_polynomial dkg d.2).

(** [dkg.state.my_coefficients = dkg_data['coefficients']]. *)
Definition set_my_coefficients (st : DKGRound) (coeffs : list Z) : DKGRound :=
  {| round_id := round_id st; dkg_node_id := dkg_node_id st;
     dkg_my_index := dkg_my_index st;
     threshold := threshold st; total_nodes := total_nodes st;
     my_coefficients := Some coeffs; my_commitments := my_commitments st;
     shares_for_others := shares_for_others st;
     received_shares := received_shares st;
     other_commitments := other_commitments st;
     my_final_share := my_final_share st;
     group_public_key := group_public_key st |}.

(** [dkg-distribute]: the share of [d] for [target]. *)
Definition dkg_distribute (round : string) (t n : Z) (d : string * list Z)
    (target : string) : res Z :=
  dkg ← FeldmanDKG round d.1 t n;
  let dkg := set_my_coefficients dkg d.2 in
  compute_share_for dkg target.

(** The body of the loop of [dkg-finalize] that loads the commitments. *)
Definition load_commitment (round : string) (t n : Z) (dkg : DKGRound)
    (d : string * list Z) : res DKGRound :=
  '(_, cs) ← dkg_start round t n d;
  receive_commitment dkg d.1 cs.

(** [decrypt_and_verify_share] of [dkg-finalize], with the senders that
    fail collected. *)
Definition decrypt_and_verify_share (round : string) (t n : Z) (me : string)
    (acc : DKGRound * list string) (d : string * list Z)
  : res (DKGRound * list string) :=
  let '(dkg, failures) := acc in
  share_value ← dkg_distribute round t n d me;
  let '(ok, dkg') := receive_share dkg d.1 share_value in
  Ok (dkg', if ok then failures else (d.1 :: failures)%list).

(** [dkg-finalize] at the node [me]: the commitments of the others are
    loaded, their shares are verified, and when none fails the engine
    finalizes; otherwise the command stops with no result. *)
Definition dkg_finalize (round : string) (t n : Z)
    (dealers : list (string * list Z)) (me : string * list Z)
  : res (option (Z * Point)) :=
  '(_, commits) ← dkg_start round t n me;
  dkg ← FeldmanDKG round me.1 t n;
  mine ← mapM_res hex_to_point commits;
  let dkg := set_polynomial dkg me.2 mine in
  let others := List.filter (λ d, negb (String.eqb d.1 me.1)) dealers in
  dkg ← foldM_res (load_commitment round t n) others dkg;
  '(dkg, failures) ←
    foldM_res (decrypt_and_verify_share round t n me.1) others (dkg, nil);
  match failures with
  | nil => r ← finalize dkg; Ok (Some r)
  | _ => Ok None
  end.

(** *** The end of [sign-finalize]: the partial signatures of the
    participants are read into a dictionary, combined and verified. *)
Definition collect_partials (signers : string → ThresholdSigner)
    (req_id : string) (participants : list string) (nodes : list string)
    (partials : dict Z) : res (dict Z) :=
  foldM_res
    (λ partials node,
       '(partial_s, _) ←
         compute_partial_signature (signers node) req_id participants;
       s_i ← of_option ValueError (Py.int_of_str 16 partial_s);
       Ok (Dict.set partials node s_i))
    nodes partials.

Definition sign_finalize (signers : string → ThresholdSigner)
    (req_id : string) (participants : list string)
    (commitments : dict Point) (pubkey : Point) (msg_hash : Py.bytes)
  : res bool :=
  partials ← collect_partials signers req_id participants participants nil;
  '(R_hex, s_hex) ← combine_signatures partials commitments participants;
  verify_signature R_hex s_hex pubkey msg_hash.

(** A signer that is ready to sign [req_id]: it holds the share [x] and
    the group key [P], and its session has the message hash, its nonce
    [k] and the commitments [C]. *)
Definition signing_ready (signer : ThresholdSigner) (node : string)
    (x : Z) (P : Point) (req_id : string) (msg_hash : Py.bytes) (k : Z)
    (C : dict Point) : Prop :=
  node_id signer = node
  ∧ node_index node = Ok (my_index signer)
  ∧ my_share signer = x
  ∧ group_pubkey signer = P
  ∧ ∃ session, Dict.get (sessions signer) req_id = Some session
      ∧ message_hash session = msg_hash
      ∧ my_nonce_k session = Some k
      ∧ nonce_commitments session = C.

(** The index of a node, [0] where the identifier has none. *)
Definition index_of (node : string) : Z :=
  match node_index node with
  | Ok i => i
  | Raise _ => 0
  end.

(** **** Scalars *)

Section Scalars.
Hypothesis laws : curve_laws curve.

Let q_prime : Z.prime ORDER := order_prime laws.

Add Field order_field : (Zmod.field_theory ORDER q_prime).

Definition scalar (x : Z) : Zmod ORDER := Zmod.of_Z ORDER x.

Lemma order_pos : 1 < ORDER.
Proof using laws. by destruct (order_prime laws). Qed.

Lemma scalar_mod x : scalar (x mod ORDER) = scalar x.
Proof. apply Zmod.of_Z_mod. Qed.

Lemma scalar_eq x y : scalar x = scalar y ↔ x mod ORDER = y mod ORDER.
Proof. apply Zmod.of_Z_inj. Qed.

Lemma scalar_pow i k :
  scalar (Zpow_mod i (Z.of_nat k) ORDER) = fpow ORDER (scalar i) k.
Proof using laws.
  pose proof order_pos as Hq.
  rewrite Zpow_mod_correct by lia. rewrite scalar_mod.
  induction k as [|k IH]; [apply Zmod.of_Z_1|].
  rewrite Nat2Z.inj_succ, Z.pow_succ_r by lia.
  unfold scalar in *. rewrite Zmod.of_Z_mul, IH. done.
Qed.

Lemma multiple_congr a b :
  a mod ORDER = b mod ORDER → point_mul a G = point_mul b G.
Proof using laws.
  intros H. rewrite <- (multiple_mod laws a), <- (multiple_mod laws b).
  by rewrite H.
Qed.

Lemma multiple_scalar a b :
  scalar a = scalar b → point_mul a G = point_mul b G.
Proof using laws. intros H. by apply multiple_congr, scalar_eq. Qed.

Lemma multiple_decodes a :
  hex_to_point (point_to_hex (point_mul a G)) = Ok (point_mul a G).
Proof using laws.
  apply hex_to_point_of_valid;
    [apply laws|apply laws|apply laws|apply laws].
Qed.

Lemma multiples_decode (cs : list Z) :
  mapM_res hex_to_point
    (map point_to_hex (map (λ a, point_mul a G) cs))
  = Ok (map (λ a, point_mul a G) cs).
Proof using laws.
  induction cs as [|c cs IH]; [done|]. simpl.
  rewrite multiple_decodes. simpl. rewrite IH. done.
Qed.

Lemma Point_eqb_refl P : Point_eqb P P = true.
Proof. by apply Point_eqb_eq. Qed.

(** The polynomial of [compute_share_for], as a scalar. *)
Lemma scalar_eval_loop coeffs : ∀ k index result,
  scalar (eval_loop coeffs (Z.of_nat k) index result)
  = (scalar result + peval ORDER (map scalar coeffs) k (scalar index))%Zmod.
Proof using laws.
  induction coeffs as [|c cs IH]; intros k index result; simpl.
  - ring.
  - replace (Z.of_nat k + 1) with (Z.of_nat (S k)) by lia.
    rewrite IH, scalar_mod. unfold scalar at 1.
    rewrite Zmod.of_Z_add, Zmod.of_Z_mul. fold (scalar result) (scalar c).
    fold (scalar (Zpow_mod index (Z.of_nat k) ORDER)).
    rewrite scalar_pow. ring.
Qed.

(** The Feldman check of an honest share. *)
Lemma feldman_loop_honest coeffs : ∀ k index r,
  feldman_loop (map (λ a, point_mul a G) coeffs) k index (point_mul r G)
  = point_mul (eval_loop coeffs k index r) G.
Proof using laws.
  induction coeffs as [|c cs IH]; intros k index r; simpl; [done|].
  rewrite (multiple_mul laws), (multiple_add laws), <- IH.
  f_equal. apply multiple_congr. rewrite Z.mod_mod by (pose proof order_pos; lia).
  f_equal. lia.
Qed.

(** The loop of the Lagrange coefficient, as scalars. *)
Lemma scalar_lagrange_loop indices my_idx : ∀ num den,
  (∀ j, In j indices → scalar j = scalar my_idx → j = my_idx) →
  scalar (lagrange_loop indices my_idx num den).1
  = (scalar num * lagrange_num ORDER (map scalar indices) (scalar my_idx))%Zmod
  ∧ scalar (lagrange_loop indices my_idx num den).2
    = (scalar den * lagrange_den ORDER (map scalar indices) (scalar my_idx))%Zmod.
Proof using laws.
  induction indices as [|j rest IH]; intros num den Hinj;
    cbn [lagrange_loop lagrange_num lagrange_den map].
  - split; cbn [fst snd]; ring.
  - destruct (Z.eqb_spec j my_idx) as [->|Hne]; cbn [negb].
    + rewrite Zmod.eqb_refl. apply IH. intros; apply Hinj; [by right|done].
    + destruct (Zmod.eqb_spec (scalar j) (scalar my_idx)) as [He|_].
      { exfalso. apply Hne, Hinj; [by left|done]. }
      destruct (IH ((num * - j) mod ORDER) ((den * (my_idx - j)) mod ORDER))
        as [H1 H2].
      { intros; apply Hinj; [by right|done]. }
      rewrite H1, H2, !scalar_mod. unfold scalar.
      rewrite !Zmod.of_Z_mul, Zmod.of_Z_opp, Zmod.of_Z_sub. split; ring.
Qed.

Lemma mod_inverse_scalar den :
  scalar den ≠ Zmod.zero →
  mod_inverse den ORDER = Ok (Z.invmod den ORDER)
  ∧ scalar (Z.invmod den ORDER) = Zmod.inv (scalar den).
Proof using laws.
  intros Hnz. pose proof order_pos as Hq.
  assert (Hmod : den mod ORDER ≠ 0).
  { intros H0. apply Hnz. unfold scalar.
    rewrite <- Zmod.of_Z_mod, H0. apply Zmod.of_Z_0. }
  split.
  - unfold mod_inverse.
    assert (Hc : Z.coprime ORDER den).
    { apply Z.coprime_prime_l; [done|]. intros Hd.
      apply Hmod. apply Z.mod_divide in Hd; [done|lia]. }
    unfold Z.coprime in Hc. rewrite Z.gcd_comm, Hc. done.
  - apply Zmod.unsigned_inj. unfold scalar.
    rewrite Zmod.unsigned_inv, !Zmod.unsigned_of_Z.
    by rewrite Z.mod_invmod, Z.invmod_mod_l.
Qed.

(** **** An honest DKG run *)

Lemma Dict_set_fresh {V} (d : dict V) key (v : V) :
  key ∉ Dict.keys d → Dict.set d key v = (d ++ (key, v) :: nil)%list.
Proof.
  induction d as [|[k' v'] d IH]; intros Hni; simpl; [done|].
  destruct (String.eqb_spec key k') as [->|Hne].
  - exfalso. apply Hni. simpl. set_solver.
  - rewrite IH; [done|]. simpl in Hni. set_solver.
Qed.

Lemma Dict_get_elem {V} (d : dict V) key (v : V) :
  NoDup (Dict.keys d) → (key, v) ∈ d → Dict.get d key = Some v.
Proof.
  induction d as [|[k' v'] d IH]; intros Hnd Hin; simpl.
  - by apply elem_of_nil in Hin.
  - simpl in Hnd. apply NoDup_cons in Hnd as [Hni Hnd].
    apply elem_of_cons in Hin as [[= <- <-]|Hin].
    + by rewrite String.eqb_refl.
    + destruct (String.eqb_spec key k') as [->|Hne]; [|by apply IH].
      exfalso. apply Hni. unfold Dict.keys.
      apply list_elem_of_fmap. by exists (k', v).
Qed.

(** The commitments of a node, and its share for the index [i]. *)
Definition commitments_of (d : string * list Z) : list Point :=
  map (λ a, point_mul a G) d.2.

Definition share_of (i : Z) (d : string * list Z) : Z :=
  eval_loop d.2 0 i 0.

Lemma dkg_start_commits round t n d i :
  node_index d.1 = Ok i →
  ∃ st, dkg_start round t n d = Ok (st, map point_to_hex (commitments_of d)).
Proof.
  intros Hi. unfold dkg_start, FeldmanDKG. rewrite Hi. simpl. eauto.
Qed.

Lemma dkg_distribute_share round t n d target i it :
  node_index d.1 = Ok i → node_index target = Ok it →
  dkg_distribute round t n d target = Ok (share_of it d).
Proof.
  intros Hi Hit. unfold dkg_distribute, FeldmanDKG. rewrite Hi. simpl.
  unfold compute_share_for. rewrite Hit. done.
Qed.

Definition indexed (nodes : list (string * list Z)) : Prop :=
  ∀ d, d ∈ nodes → ∃ i, node_index d.1 = Ok i.

Lemma load_commitment_ok round t n dkg d i :
  node_index d.1 = Ok i →
  load_commitment round t n dkg d
  = Ok (set_other_commitments dkg
          (Dict.set (other_commitments dkg) d.1 (commitments_of d))).
Proof using laws.
  intros Hi. unfold load_commitment.
  destruct (dkg_start_commits round t n d i Hi) as [st ->]. simpl.
  unfold receive_commitment, commitments_of.
  by rewrite multiples_decode.
Qed.

Lemma commitments_loop round t n others : ∀ dkg,
  indexed others →
  NoDup (Dict.keys (other_commitments dkg) ++ map fst others) →
  foldM_res (load_commitment round t n) others dkg
  = Ok (set_other_commitments dkg
          (other_commitments dkg
           ++ map (λ d, (d.1, commitments_of d)) others)%list).
Proof using laws.
  induction others as [|d others IH]; intros dkg Hidx Hnd;
    cbn [foldM_res map].
  - rewrite app_nil_r. by destruct dkg.
  - destruct (Hidx d) as [i Hi]; [set_solver|].
    rewrite (load_commitment_ok round t n dkg d i Hi).
    rewrite Dict_set_fresh.
    2:{ apply NoDup_app in Hnd as (_ & Hd & _). intros Hin.
        apply (Hd _ Hin). simpl. set_solver. }
    cbn [mbind res_bind]. rewrite IH; simpl.
    + by rewrite <- app_assoc.
    + intros d' Hd'. apply Hidx. set_solver.
    + unfold Dict.keys in *. rewrite map_app. simpl.
      by rewrite <- app_assoc.
Qed.

Lemma decrypt_and_verify_share_ok round t n me i dkg d id :
  node_index me = Ok i → dkg_my_index dkg = i →
  node_index d.1 = Ok id →
  Dict.get (other_commitments dkg) d.1 = Some (commitments_of d) →
  decrypt_and_verify_share round t n me (dkg, nil) d
  = Ok (set_received_shares dkg
          (Dict.set (received_shares dkg) d.1 (share_of i d)), nil).
Proof using laws.
  intros Hme Hi Hid Hoc. unfold decrypt_and_verify_share.
  rewrite (dkg_distribute_share round t n d me id i Hid Hme). simpl.
  unfold receive_share. rewrite Hoc.
  rewrite <- (multiple_zero laws). unfold commitments_of.
  rewrite feldman_loop_honest. rewrite Hi. fold (share_of i d).
  by rewrite Point_eqb_refl.
Qed.

Lemma shares_loop round t n me i others : ∀ dkg,
  node_index me = Ok i → dkg_my_index dkg = i →
  indexed others →
  (∀ d, d ∈ others →
     Dict.get (other_commitments dkg) d.1 = Some (commitments_of d)) →
  NoDup (Dict.keys (received_shares dkg) ++ map fst others) →
  foldM_res (decrypt_and_verify_share round t n me) others (dkg, nil)
  = Ok (set_received_shares dkg
          (received_shares dkg ++ map (λ d, (d.1, share_of i d)) others)%list,
        nil).
Proof using laws.
  induction others as [|d others IH]; intros dkg Hme Hi Hidx Hoc Hnd;
    cbn [foldM_res map].
  - rewrite app_nil_r. by destruct dkg.
  - destruct (Hidx d) as [id Hid]; [set_solver|].
    rewrite (decrypt_and_verify_share_ok round t n me i dkg d id)
      by (done || (apply Hoc; set_solver)).
    rewrite Dict_set_fresh.
    2:{ apply NoDup_app in Hnd as (_ & Hd & _). intros Hin.
        apply (Hd _ Hin). simpl. set_solver. }
    cbn [mbind res_bind]. rewrite IH; simpl; try done.
    + by rewrite <- app_assoc.
    + intros d' Hd'. apply Hidx. set_solver.
    + intros d' Hd'. apply Hoc. set_solver.
    + unfold Dict.keys in *. rewrite map_app. simpl.
      by rewrite <- app_assoc.
Qed.

Lemma scalar_final_share shares : ∀ own,
  scalar (fold_left (λ acc share, (acc + share) mod ORDER) shares own)
  = (scalar own + fsum ORDER (map scalar shares))%Zmod.
Proof using laws.
  induction shares as [|x shares IH]; intros own; simpl; [ring|].
  rewrite IH, scalar_mod. unfold scalar. rewrite Zmod.of_Z_add. ring.
Qed.

Lemma group_key_loop (others : list (string * list Z)) : ∀ a,
  (∀ d, d ∈ others → d.2 ≠ nil) →
  fold_left (λ acc commitments,
               pk ← acc;
               c ← of_option IndexError (head commitments);
               Ok (point_add pk c))
    (map commitments_of others) (Ok (point_mul a G))
  = Ok (point_mul (a + Zsum (map (λ d, hd 0 d.2) others)) G).
Proof using laws.
  induction others as [|d others IH]; intros a Hne; cbn [map fold_left].
  - unfold Zsum. simpl. by rewrite Z.add_0_r.
  - assert (Hd : d.2 ≠ nil) by (apply Hne; set_solver).
    destruct d as [node [|c cs]]; [done|].
    cbn [map commitments_of snd head mbind res_bind of_option hd].
    rewrite (multiple_add laws), IH.
    + rewrite Zsum_cons. f_equal. f_equal. lia.
    + intros; apply Hne; set_solver.
Qed.

(** The others of [me] are the rest of the nodes. *)
Lemma others_permutation (dealers : list (string * list Z)) me :
  NoDup (map fst dealers) → me ∈ dealers →
  dealers ≡ₚ me :: List.filter (λ d, negb (String.eqb d.1 me.1)) dealers.
Proof.
  induction dealers as [|d ds IH]; intros Hnd Hin.
  - by apply elem_of_nil in Hin.
  - simpl in Hnd. apply NoDup_cons in Hnd as [Hni Hnd]. simpl.
    destruct (String.eqb_spec d.1 me.1) as [He|Hne]; simpl.
    + assert (me = d) as ->.
      { apply elem_of_cons in Hin as [->|Hin]; [done|].
        exfalso. apply Hni. rewrite He.
        apply list_elem_of_fmap. by exists me. }
      apply Permutation_cons; [done|].
      assert (Hall : List.filter (λ d0, negb (String.eqb d0.1 d.1)) ds = ds).
      { clear IH Hin Hnd He. induction ds as [|d' ds IH]; [done|]. simpl.
        destruct (String.eqb_spec d'.1 d.1) as [He|_]; simpl.
        - exfalso. apply Hni. rewrite <- He. simpl. set_solver.
        - rewrite IH; [done|]. simpl in Hni. set_solver. }
      by rewrite Hall.
    + assert (Hin' : me ∈ ds).
      { apply elem_of_cons in Hin as [->|Hin]; [done|done]. }
      rewrite (IH Hnd Hin') at 1. apply perm_swap.
Qed.

(** The secret of the group and the polynomial that shares it. *)
Definition group_secret (dealers : list (string * list Z)) : Z :=
  Zsum (map (λ d, hd 0 d.2) dealers).

Definition joint_polynomial (dealers : list (string * list Z))
    (x : Zmod ORDER) : Zmod ORDER :=
  fsum ORDER (map (λ d, peval ORDER (map scalar d.2) 0 x) dealers).

(** An honest run of the DKG succeeds at every node, with the same group
    key and with the value of the joint polynomial at the index of the
    node as its share. *)
Lemma dkg_finalize_ok round t n dealers me i :
  NoDup (map fst dealers) → indexed dealers →
  (∀ d, d ∈ dealers → d.2 ≠ nil) →
  me ∈ dealers → node_index me.1 = Ok i →
  ∃ x, dkg_finalize round t n dealers me
       = Ok (Some (x, point_mul (group_secret dealers) G))
     ∧ scalar x = joint_polynomial dealers (scalar i).
Proof using laws.
  intros Hnd Hidx Hne Hme Hi.
  pose proof (others_permutation dealers me Hnd Hme) as Hperm.
  unfold dkg_finalize.
  set (others := List.filter (λ d, negb (String.eqb d.1 me.1)) dealers) in *.
  assert (Hsub : ∀ d, d ∈ others → d ∈ dealers).
  { intros d Hd. rewrite Hperm. set_solver. }
  assert (Hnd' : NoDup (map fst others)).
  { apply (Permutation_map fst) in Hperm. rewrite Hperm in Hnd.
    simpl in Hnd. by apply NoDup_cons in Hnd as [_ Hnd]. }
  destruct (dkg_start_commits round t n me i Hi) as [st ->].
  cbn [mbind res_bind]. unfold FeldmanDKG. rewrite Hi.
  cbn [mbind res_bind]. unfold commitments_of. rewrite multiples_decode.
  cbn [mbind res_bind]. cbv zeta.
  rewrite commitments_loop; [|intros d Hd; by apply Hidx, Hsub|done].
  cbn [mbind res_bind].
  rewrite (shares_loop round t n me.1 i); try done.
  2:{ intros d Hd; by apply Hidx, Hsub. }
  2:{ intros d Hd. cbn. apply Dict_get_elem.
      - unfold Dict.keys. rewrite map_map. done.
      - apply (list_elem_of_fmap_2 (λ d, (d.1, commitments_of d))) in Hd.
        done. }
  cbn [mbind res_bind]. unfold finalize. cbn.
  assert (Hme2 : me.2 ≠ nil) by by apply Hne.
  destruct me as [node [|c cs]]; [done|]. cbn [snd map head hd of_option].
  cbn [mbind res_bind].
  unfold Dict.values. rewrite !map_map. cbn [snd].
  change (map (λ x, commitments_of x) others) with (map commitments_of others).
  rewrite (group_key_loop others c) by (intros d Hd; by apply Hne, Hsub).
  cbn [mbind res_bind]. eexists. split.
  - do 3 f_equal. unfold group_secret.
    rewrite (Zsum_perm _ _ (Permutation_map (λ d, hd 0 d.2) Hperm)).
    cbn [map snd hd]. by rewrite Zsum_cons.
  - rewrite scalar_final_share.
    change (eval_loop (c :: cs) 0 i 0) with (eval_loop (c :: cs) (Z.of_nat 0) i 0).
    rewrite scalar_eval_loop. unfold joint_polynomial.
    rewrite (fsum_perm ORDER _ _
               (Permutation_map (λ d, peval ORDER (map scalar d.2) 0 (scalar i))
                  Hperm)).
    cbn [map fsum foldr snd]. rewrite map_map.
    assert (Hz : scalar 0 = Zmod.zero) by apply Zmod.of_Z_0.
    rewrite Hz.
    assert (Hshares :
      map (λ d, scalar (share_of i d)) others
      = map (λ d, peval ORDER (map scalar d.2) 0 (scalar i)) others).
    { apply map_ext. intros d. unfold share_of.
      change (eval_loop d.2 0 i 0) with (eval_loop d.2 (Z.of_nat 0) i 0).
      rewrite scalar_eval_loop, Hz. ring. }
    rewrite Hshares. unfold fsum. ring.
Qed.

(** **** Signing *)

Lemma NoDup_map_inj {A B} (f : A → B) (l : list A) x y :
  NoDup (map f l) → x ∈ l → y ∈ l → f x = f y → x = y.
Proof.
  induction l as [|a l IH]; intros Hnd Hx Hy Hf.
  - by apply elem_of_nil in Hx.
  - simpl in Hnd. apply NoDup_cons in Hnd as [Hni Hnd].
    apply elem_of_cons in Hx as [->|Hx], Hy as [->|Hy]; try done.
    + exfalso. apply Hni. rewrite Hf. apply list_elem_of_fmap. by exists y.
    + exfalso. apply Hni. rewrite <- Hf. apply list_elem_of_fmap. by exists x.
    + by apply IH.
Qed.

Lemma scalar_Zsum l : scalar (Zsum l) = fsum ORDER (map scalar l).
Proof.
  induction l as [|x l IH]; [apply Zmod.of_Z_0|].
  rewrite Zsum_cons. unfold scalar in *. rewrite Zmod.of_Z_add, IH. done.
Qed.

Lemma fsum_linear {A} (a b : A → Zmod ORDER) c (l : list A) :
  fsum ORDER (map (λ j, a j + c * b j)%Zmod l)
  = (fsum ORDER (map a l) + c * fsum ORDER (map b l))%Zmod.
Proof using laws.
  induction l as [|x l IH]; simpl; [ring|]. rewrite IH. ring.
Qed.

Lemma interpolate_map {A} (g : A → Zmod ORDER) xs f (l : list A) :
  interpolate ORDER xs f (map g l)
  = fsum ORDER
      (map (λ j, Zmod.mdiv (lagrange_num ORDER xs (g j))
                   (lagrange_den ORDER xs (g j)) * f (g j))%Zmod l).
Proof using laws.
  induction l as [|x l IH]; simpl; [done|]. rewrite IH. ring.
Qed.

Lemma indices_of (nodes : list string) :
  (∀ j, j ∈ nodes → ∃ i, node_index j = Ok i) →
  mapM_res node_index nodes = Ok (map index_of nodes).
Proof.
  induction nodes as [|j nodes IH]; intros H; simpl; [done|].
  destruct (H j) as [i Hi]; [set_solver|].
  unfold index_of at 1. rewrite Hi. simpl.
  rewrite IH; [done|]. intros; apply H; set_solver.
Qed.

Lemma aggregate_multiples (C : dict Point) (nonces : string → Z) nodes : ∀ r,
  (∀ j, j ∈ nodes → Dict.get C j = Some (point_mul (nonces j) G)) →
  aggregate_loop C nodes (point_mul r G)
  = Ok (point_mul (r + Zsum (map nonces nodes)) G).
Proof using laws.
  induction nodes as [|j nodes IH]; intros r HC; simpl.
  - unfold Zsum. simpl. by rewrite Z.add_0_r.
  - unfold Dict.item. rewrite HC by set_solver. simpl.
    rewrite (multiple_add laws), IH by (intros; apply HC; set_solver).
    rewrite Zsum_cons. do 2 f_equal. lia.
Qed.

(** The Lagrange coefficient that [compute_partial_signature] computes
    for the index [i] among [indices]. *)
Definition lagrange_at (indices : list Z) (i : Z) : Z :=
  let r := lagrange_loop indices i 1 1 in
  (r.1 * Z.invmod r.2 ORDER) mod ORDER.

Section Signing.
Variables (signers : string → ThresholdSigner) (req_id : string)
  (msg_hash : Py.bytes) (nonces : string → Z) (C : dict Point)
  (participants : list string) (P : Point).
Hypothesis participants_indexed :
  ∀ j, j ∈ participants → ∃ i, node_index j = Ok i.
Hypothesis indices_distinct :
  NoDup (map (λ j, index_of j mod ORDER) participants).
Hypothesis commitments_posted :
  ∀ j, j ∈ participants → Dict.get C j = Some (point_mul (nonces j) G).
Hypothesis signers_ready :
  ∀ j, j ∈ participants →
    signing_ready (signers j) j (my_share (signers j)) P req_id msg_hash
      (nonces j) C.

(** The aggregate nonce, the challenge and the partial signatures. *)
Definition aggregate_nonce : Z := Zsum (map nonces participants).

Definition signing_challenge : Z :=
  challenge (point_to_hex (point_mul aggregate_nonce G)) P msg_hash.

Definition partial_value (j : string) : Z :=
  (nonces j
   + signing_challenge * lagrange_at (map index_of participants) (index_of j)
     * my_share (signers j)) mod ORDER.

Lemma scalars_distinct :
  NoDup (map scalar (map index_of participants)).
Proof using indices_distinct laws.
  rewrite map_map. revert indices_distinct.
  generalize participants as l. induction l as [|j l IH]; simpl; intros Hnd.
  - constructor.
  - apply NoDup_cons in Hnd as [Hni Hnd]. apply NoDup_cons. split; [|auto].
    intros Hin. apply Hni.
    apply list_elem_of_fmap in Hin as (j' & He & Hj').
    apply scalar_eq in He. rewrite He.
    apply list_elem_of_fmap. by exists j'.
Qed.

Lemma scalar_lagrange_at j :
  j ∈ participants →
  mod_inverse (lagrange_loop (map index_of participants) (index_of j) 1 1).2
    ORDER
  = Ok (Z.invmod
          (lagrange_loop (map index_of participants) (index_of j) 1 1).2 ORDER)
  ∧ scalar (lagrange_at (map index_of participants) (index_of j))
    = Zmod.mdiv
        (lagrange_num ORDER (map scalar (map index_of participants))
           (scalar (index_of j)))
        (lagrange_den ORDER (map scalar (map index_of participants))
           (scalar (index_of j))).
Proof using indices_distinct laws.
  intros Hj.
  destruct (scalar_lagrange_loop (map index_of participants) (index_of j) 1 1)
    as [Hnum Hden].
  { intros i Hi He. apply list_elem_of_In in Hi.
    apply (NoDup_map_inj scalar (map index_of participants));
      [apply scalars_distinct|done| |done].
    apply list_elem_of_fmap. by exists j. }
  assert (H1 : scalar 1 = Zmod.one) by apply Zmod.of_Z_1.
  rewrite H1 in Hnum, Hden.
  assert (Hnz : scalar (lagrange_loop (map index_of participants)
                          (index_of j) 1 1).2 ≠ Zmod.zero).
  { rewrite Hden. intros H0.
    apply (lagrange_den_nz ORDER q_prime
             (map scalar (map index_of participants)) (scalar (index_of j))).
    rewrite <- H0. ring. }
  destruct (mod_inverse_scalar _ Hnz) as [Hinv Hsc].
  split; [done|].
  unfold lagrange_at. cbv zeta. rewrite scalar_mod. unfold scalar at 1.
  rewrite Zmod.of_Z_mul.
  fold (scalar (lagrange_loop (map index_of participants) (index_of j) 1 1).1).
  fold (scalar (Z.invmod (lagrange_loop (map index_of participants)
                            (index_of j) 1 1).2 ORDER)).
  rewrite Hsc, Hnum, Hden, Zmod.mul_inv_r.
  f_equal; ring.
Qed.

Lemma compute_partial_signature_ok j :
  j ∈ participants →
  ∃ signer',
    compute_partial_signature (signers j) req_id participants
    = Ok (Py.format_064x (partial_value j), signer').
Proof using participants_indexed indices_distinct commitments_posted
  signers_ready laws.
  intros Hj.
  destruct (signers_ready j Hj)
    as (Hid & Hidx & _ & HP & session & Hs & Hm & Hk & HC).
  unfold compute_partial_signature, Dict.item. rewrite Hs.
  cbn [of_option mbind res_bind]. rewrite HC.
  rewrite <- (multiple_zero laws).
  rewrite (aggregate_multiples C nonces participants 0 commitments_posted).
  cbn [mbind res_bind]. rewrite (indices_of participants participants_indexed).
  cbn [mbind res_bind].
  assert (Hi : my_index (signers j) = index_of j).
  { unfold index_of. by rewrite Hidx. }
  rewrite Hi.
  destruct (scalar_lagrange_at j Hj) as [Hinv _].
  destruct (lagrange_loop (map index_of participants) (index_of j) 1 1)
    as [num den] eqn:Hloop.
  cbn [snd] in Hinv. rewrite Hinv. cbn [mbind res_bind]. rewrite Hk.
  cbn [of_option mbind res_bind].
  eexists. f_equal. f_equal. f_equal.
  unfold partial_value, signing_challenge, aggregate_nonce, lagrange_at.
  rewrite Hloop, HP, Hm. cbn [fst snd]. done.
Qed.

Lemma partial_value_range j : 0 ≤ partial_value j < ORDER.
Proof using laws.
  unfold partial_value. apply Z.mod_pos_bound. pose proof order_pos. lia.
Qed.

Lemma collect_partials_ok nodes : ∀ partials,
  (∀ j, j ∈ nodes → j ∈ participants) →
  NoDup (Dict.keys partials ++ nodes) →
  collect_partials signers req_id participants nodes partials
  = Ok (partials ++ map (λ j, (j, partial_value j)) nodes)%list.
Proof using participants_indexed indices_distinct commitments_posted
  signers_ready laws.
  unfold collect_partials.
  induction nodes as [|j nodes IH]; intros partials Hsub Hnd;
    cbn [foldM_res map].
  - by rewrite app_nil_r.
  - destruct (compute_partial_signature_ok j) as [signer' ->];
      [apply Hsub; set_solver|].
    cbn [mbind res_bind].
    rewrite PyFacts.int_of_format_064x by apply partial_value_range.
    cbn [of_option mbind res_bind].
    rewrite Dict_set_fresh.
    2:{ apply NoDup_app in Hnd as (_ & Hd & _). intros Hin.
        apply (Hd _ Hin). set_solver. }
    rewrite IH.
    + by rewrite <- app_assoc.
    + intros; apply Hsub; set_solver.
    + unfold Dict.keys in *. rewrite map_app. simpl.
      by rewrite <- app_assoc.
Qed.

End Signing.


End Scalars.

End Threshold.

(** The laws hold on the small curve: every multiple of its base point
    is one of 31 points, and the laws are checked on them. *)
Definition toy_scalars : list Z := map Z.of_nat (seq 0 31).

Definition toy_multiple (a : Z) : Point :=
  @point_mul toy_curve a (@G toy_curve).

Definition toy_add_ok (a b : Z) : bool :=
  Point_eqb (@point_add toy_curve (toy_multiple a) (toy_multiple b))
    (toy_multiple ((a + b) mod 31)).

Definition toy_mul_ok (a b : Z) : bool :=
  Point_eqb (@point_mul toy_curve a (toy_multiple b))
    (toy_multiple ((a * b) mod 31)).

Definition toy_valid_ok (a : Z) : bool :=
  let P := toy_multiple a in
  Point_eqb P (mkPoint 0 0)
  || ((0 <=? px P) && (px P <? 43) && (0 <=? py P) && (py P <? 43)
      && @is_point_on_curve toy_curve (px P) (py P)).

Lemma toy_scalars_in a : In (a mod 31) toy_scalars.
Proof.
  pose proof (Z.mod_pos_bound a 31 ltac:(lia)) as Ha.
  apply in_map_iff. exists (Z.to_nat (a mod 31)). split; [lia|].
  apply in_seq. lia.
Qed.

Lemma checked_pairs (f : Z → Z → bool) (l : list Z) :
  forallb (λ a, forallb (f a) l) l = true →
  ∀ a b, In a l → In b l → f a b = true.
Proof.
  intros H a b Ha Hb. rewrite forallb_forall in H.
  specialize (H a Ha). rewrite forallb_forall in H. by apply H.
Qed.

Lemma toy_valid_checked : forallb toy_valid_ok toy_scalars = true.
Proof. vm_compute. reflexivity. Qed.

Lemma toy_add_checked :
  forallb (λ a, forallb (toy_add_ok a) toy_scalars) toy_scalars = true.
Proof. vm_compute. reflexivity. Qed.

Lemma toy_mul_checked :
  forallb (λ a, forallb (toy_mul_ok a) toy_scalars) toy_scalars = true.
Proof. vm_compute. reflexivity. Qed.

Lemma toy_multiple_mod a : toy_multiple a = toy_multiple (a mod 31).
Proof. apply toy_mul_mod. Qed.

Lemma toy_multiple_valid a : @valid_point toy_curve (toy_multiple a).
Proof.
  rewrite toy_multiple_mod.
  pose proof (proj1 (forallb_forall _ _) toy_valid_checked _
                (toy_scalars_in a)) as Hc.
  unfold toy_valid_ok in Hc. cbv zeta in Hc.
  generalize dependent (toy_multiple (a mod 31)). intros P Hc.
  apply orb_true_iff in Hc as [Hc|Hc].
  - left. by apply Point_eqb_eq.
  - right. rewrite !andb_true_iff in Hc.
    destruct Hc as ((((H1 & H2) & H3) & H4) & H5).
    change (@curve_p toy_curve) with 43. repeat split; try lia. exact H5.
Qed.

Lemma toy_multiple_add a b :
  @point_add toy_curve (toy_multiple a) (toy_multiple b) = toy_multiple (a + b).
Proof.
  rewrite (toy_multiple_mod a), (toy_multiple_mod b), (toy_multiple_mod (a + b)).
  rewrite Zplus_mod.
  pose proof (checked_pairs _ _ toy_add_checked _ _
                (toy_scalars_in a) (toy_scalars_in b)) as Hc.
  unfold toy_add_ok in Hc. apply Point_eqb_eq in Hc. exact Hc.
Qed.

Lemma toy_multiple_mul a b :
  @point_mul toy_curve a (toy_multiple b) = toy_multiple (a * b).
Proof.
  rewrite (toy_mul_mod a), (toy_multiple_mod b), (toy_multiple_mod (a * b)).
  rewrite Zmult_mod.
  pose proof (checked_pairs _ _ toy_mul_checked _ _
                (toy_scalars_in a) (toy_scalars_in b)) as Hc.
  unfold toy_mul_ok in Hc. apply Point_eqb_eq in Hc. exact Hc.
Qed.

Lemma toy_curve_laws : curve_laws toy_curve.
Proof.
  split.
  - apply toy_p_prime.
  - reflexivity.
  - apply toy_order_prime.
  - vm_compute. reflexivity.
  - apply toy_multiple_valid.
  - vm_compute. reflexivity.
  - apply toy_multiple_add.
  - apply toy_multiple_mul.
  - intros a. symmetry. apply toy_multiple_mod.
Qed.

(** A 2-of-3 run on the small curve: three nodes with their polynomials,
    and node1 and node3 signing with the nonces 4 and 9. *)
Definition toy_dealers : list (string * list Z) :=
  ("node1", 3 :: 5 :: nil) :: ("node2", 7 :: 11 :: nil)
  :: ("node3", 13 :: 2 :: nil) :: nil.

Definition toy_participants : list string := "node1" :: "node3" :: nil.

Definition toy_nonces (node : string) : Z :=
  if String.eqb node "node1" then 4 else 9.

Definition toy_commitments : dict Point :=
  map (λ node, (node, toy_multiple (toy_nonces node))) toy_participants.

Definition toy_message_hash : Py.bytes := Py.encode "2cf24dba".

Definition toy_threshold_signer (node : string) : ThresholdSigner :=
  let coeffs :=
    match Dict.get toy_dealers node with
    | Some cs => cs
    | None => nil
    end in
  let '(x, P) :=
    match @dkg_finalize toy_curve "round_1" 2 3 toy_dealers (node, coeffs) with
    | Ok (Some r) => r
    | _ => (0, mkPoint 0 0)
    end in
  {| node_id := node; my_index := @index_of node; my_share := x;
     group_pubkey := P;
     sessions :=
       ("tx_1",
        {| request_id := "tx_1"; message_hash := toy_message_hash;
           my_nonce_k := Some (toy_nonces node);
           nonce_commitments := toy_commitments;
           partial_signatures := nil |}) :: nil |}.


(** * Further properties of the code *)

(** ** Node identifiers and their indices *)

Module PyDecimal.
Import Py.

(** The characters that [str] writes for a number that is not negative. *)
Definition dec_char (d : Z) : ascii := ascii_of_N (Z.to_N (48 + d)).

Definition is_dec (c : ascii) : bool :=
  match digit_in_base 10 c with
  | Some d => Ascii.eqb c (dec_char d)
  | None => false
  end.

Fixpoint all_dec (s : string) : bool :=
  match s with
  | EmptyString => true
  | String c s' => is_dec c && all_dec s'
  end.

(** The number of digits that [dec_digits] writes. *)
Fixpoint ndec (fuel : nat) (x : Z) : nat :=
  match fuel with
  | O => O
  | S fuel' => if x / 10 =? 0 then 1%nat else S (ndec fuel' (x / 10))
  end.

Lemma dec_char_facts d :
  0 ≤ d < 10 →
  digit_in_base 10 (dec_char d) = Some d ∧ is_dec (dec_char d) = true.
Proof.
  intros Hd. pattern d. apply (PyFacts.small_cases _ 10%nat d Hd).
  intros i Hi. do 10 (destruct i as [|i]; [vm_compute; done|]). lia.
Qed.

Lemma is_dec_facts c :
  is_dec c = true →
  is_space c = false ∧ Ascii.eqb c "_" = false
  ∧ c ≠ "-"%char ∧ c ≠ "+"%char ∧ c ≠ "n"%char
  ∧ ∃ d, digit_in_base 10 c = Some d ∧ 0 ≤ d < 10.
Proof.
  unfold is_dec.
  destruct (digit_in_base 10 c) as [d|] eqn:Hd; [|done].
  assert (Hr : 0 ≤ d < 10).
  { unfold digit_in_base, digit_value in Hd.
    repeat (match type of Hd with
            | context [if ?b then _ else _] => destruct b eqn:?
            end); simplify_eq; lia. }
  intros Hc. apply Ascii.eqb_eq in Hc. subst c. clear Hd.
  pattern d. apply (PyFacts.small_cases _ 10%nat d Hr).
  intros i Hi.
  do 10 (destruct i as [|i];
         [vm_compute; repeat split; try discriminate; eexists; split;
          [reflexivity|done]|]).
  lia.
Qed.

Lemma parse_dec_digits fuel : ∀ x acc a b,
  0 ≤ x < 10 ^ Z.of_nat fuel →
  parse_digits 10 b a (dec_digits fuel x acc)
  = parse_digits 10 (b || negb (Nat.eqb fuel 0))
      (a * 10 ^ Z.of_nat (ndec fuel x) + x) acc.
Proof.
  induction fuel as [|fuel IH]; intros x acc a b Hx.
  - simpl in *. replace x with 0 by lia. rewrite orb_false_r.
    f_equal. lia.
  - cbn [dec_digits ndec Nat.eqb negb]. rewrite orb_true_r.
    assert (H10 : 0 ≤ x mod 10 < 10) by (apply Z.mod_pos_bound; lia).
    destruct (dec_char_facts _ H10) as [Hdig Hlow].
    destruct (is_dec_facts _ Hlow) as (_ & Hus & _).
    fold (dec_char (x mod 10)).
    assert (Hstep : ∀ a' b', parse_digits 10 b' a'
                      (String (dec_char (x mod 10)) acc)
                    = parse_digits 10 true (a' * 10 + x mod 10) acc).
    { intros a' b'. cbn [parse_digits]. by rewrite Hus, Hdig. }
    destruct (Z.eqb_spec (x / 10) 0) as [H0|H0].
    + rewrite Hstep. f_equal.
      pose proof (Z.div_mod x 10 ltac:(lia)) as Hdm. simpl. lia.
    + rewrite IH.
      2:{ split; [apply Z.div_pos; lia|].
          apply Z.div_lt_upper_bound; [lia|].
          replace (Z.of_nat (S fuel)) with (Z.succ (Z.of_nat fuel)) in Hx by lia.
          rewrite Z.pow_succ_r in Hx by lia. lia. }
      rewrite Hstep. f_equal.
      replace (Z.of_nat (S (ndec fuel (x / 10))))
        with (Z.succ (Z.of_nat (ndec fuel (x / 10)))) by lia.
      rewrite Z.pow_succ_r by lia.
      pose proof (Z.div_mod x 10 ltac:(lia)) as Hdm.
      set (P := 10 ^ Z.of_nat (ndec fuel (x / 10))) in *. lia.
Qed.

Lemma all_dec_digits fuel : ∀ x acc,
  all_dec acc = true → all_dec (dec_digits fuel x acc) = true.
Proof.
  induction fuel as [|fuel IH]; intros x acc Hacc; simpl; [done|].
  assert (H10 : 0 ≤ x mod 10 < 10) by (apply Z.mod_pos_bound; lia).
  destruct (dec_char_facts _ H10) as [_ Hlow]. unfold dec_char in Hlow.
  destruct (x / 10 =? 0); [simpl; by rewrite Hlow|].
  apply IH. simpl. by rewrite Hlow.
Qed.

Lemma dec_fuel x :
  0 ≤ x → x < 10 ^ Z.of_nat (S (Z.to_nat (Z.log2 x))).
Proof.
  intros Hx. destruct (Z.eq_dec x 0) as [->|Hne].
  { apply Z.pow_pos_nonneg; lia. }
  pose proof (Z.log2_nonneg x).
  replace (Z.of_nat (S (Z.to_nat (Z.log2 x)))) with (Z.succ (Z.log2 x)) by lia.
  pose proof (Z.log2_spec x ltac:(lia)) as [_ Hlt].
  eapply Z.lt_le_trans; [exact Hlt|].
  apply Z.pow_le_mono_l. lia.
Qed.

Lemma all_dec_str_of_int x : 0 ≤ x → all_dec (str_of_int x) = true.
Proof.
  intros Hx. unfold str_of_int. destruct (Z.ltb_spec x 0); [lia|].
  by apply all_dec_digits.
Qed.

Lemma lstrip_dec s : all_dec s = true → lstrip s = s.
Proof.
  destruct s as [|c s]; simpl; [done|].
  intros [Hc _]%andb_true_iff.
  by destruct (is_dec_facts _ Hc) as (-> & _).
Qed.

Lemma rstrip_dec s : all_dec s = true → rstrip s = s.
Proof.
  induction s as [|c s IH]; simpl; [done|].
  intros [Hc Hs]%andb_true_iff. rewrite IH by done.
  destruct (is_dec_facts _ Hc) as (-> & _).
  by destruct s.
Qed.

(** [int(s)] on a string of decimal digits is the plain reading of the
    digits. *)
Lemma int_of_str_dec s :
  all_dec s = true → int_of_str 10 s = parse_digits 10 false 0 s.
Proof.
  intros Hs. unfold int_of_str. rewrite lstrip_dec, rstrip_dec by done.
  destruct s as [|c s]; [done|].
  simpl in Hs. apply andb_true_iff in Hs as [Hc Hs].
  destruct (is_dec_facts _ Hc) as (_ & _ & Hm & Hp & _).
  assert (Hsign : match String c s with
                  | String "-" r => (true, r)
                  | String "+" r => (false, r)
                  | _ => (false, String c s)
                  end = (false, String c s)).
  { destruct c as [[] [] [] [] [] [] [] []]; try done. }
  rewrite Hsign.
  change (strip_base_prefix 10 (String c s)) with (String c s).
  by destruct (parse_digits 10 false 0 (String c s)).
Qed.

Lemma int_of_str_of_int x : 0 ≤ x → int_of_str 10 (str_of_int x) = Some x.
Proof.
  intros Hx. rewrite int_of_str_dec by by apply all_dec_str_of_int.
  unfold str_of_int. destruct (Z.ltb_spec x 0); [lia|].
  rewrite parse_dec_digits.
  2:{ split; [done|]. by apply dec_fuel. }
  simpl. f_equal.
Qed.

(** Zeros in front of a numeral do not change what [int] reads. *)
Lemma int_of_zeros_str_of_int n x :
  0 ≤ x → int_of_str 10 (zeros n +:+ str_of_int x) = Some x.
Proof.
  intros Hx.
  assert (Hall : all_dec (zeros n +:+ str_of_int x) = true).
  { induction n; simpl; [by apply all_dec_str_of_int|done]. }
  rewrite int_of_str_dec by done.
  assert (Hz : ∀ b, parse_digits 10 b 0 (zeros n +:+ str_of_int x)
                    = parse_digits 10 (b || negb (Nat.eqb n 0)) 0 (str_of_int x)).
  { clear Hall. induction n as [|n IH]; intros b; simpl.
    - by rewrite orb_false_r.
    - rewrite IH. simpl. by rewrite orb_true_r. }
  rewrite Hz. unfold str_of_int. destruct (Z.ltb_spec x 0); [lia|].
  rewrite parse_dec_digits.
  2:{ split; [done|]. by apply dec_fuel. }
  cbn [Nat.eqb negb]. rewrite orb_true_r. simpl. f_equal.
Qed.

(** [replace("node", "")] finds nothing to remove among digits, and
    removes the word in front of them. *)
Lemma remove_node_dec fuel : ∀ s,
  all_dec s = true → remove_all_fuel fuel "node" s = s.
Proof.
  induction fuel as [|fuel IH]; intros s Hs; [done|].
  destruct s as [|c s]; [done|]. cbn [remove_all_fuel].
  simpl in Hs. apply andb_true_iff in Hs as [Hc Hs].
  destruct (is_dec_facts _ Hc) as (_ & _ & _ & _ & Hn & _).
  assert (Hp : String.prefix "node" (String c s) = false).
  { cbn [String.prefix].
    destruct (Ascii.ascii_dec "n" c) as [He|_]; [congruence|done]. }
  rewrite Hp. by rewrite IH.
Qed.

Lemma remove_node_prefix s :
  all_dec s = true → remove_all "node" ("node" +:+ s) = s.
Proof.
  intros Hs.
  change ("node" +:+ s) with (String "n" (String "o" (String "d" (String "e" s)))).
  assert (Hp : String.prefix "node"
                 (String "n" (String "o" (String "d" (String "e" s)))) = true).
  { apply String.prefix_correct. cbn. by destruct s. }
  unfold remove_all. change (String.eqb "node" "") with false.
  cbn [remove_all_fuel]. rewrite Hp. cbn [str_drop String.length].
  by apply remove_node_dec.
Qed.

End PyDecimal.



(** ** The DKG engine: shares and the final key share *)

(** The value of the polynomial with the coefficients [coeffs], constant
    term first. *)
Fixpoint poly_value (coeffs : list Z) (x : Z) : Z :=
  match coeffs with
  | nil => 0
  | c :: rest => c + x * poly_value rest x
  end.

Section ShareFacts.
Context {curve : Fastecdsa} {pylib : PyLib}.
Hypothesis order_positive : 0 < ORDER.

Lemma eval_loop_value coeffs : ∀ k index result,
  eval_loop coeffs (Z.of_nat k) index result mod ORDER
  = (result + index ^ Z.of_nat k * poly_value coeffs index) mod ORDER.
Proof using order_positive.
  induction coeffs as [|c cs IH]; intros k index result; simpl.
  - f_equal. lia.
  - replace (Z.of_nat k + 1) with (Z.of_nat (S k)) by lia.
    rewrite IH, Zpow_mod_correct by lia.
    rewrite Nat2Z.inj_succ, Z.pow_succ_r by lia.
    rewrite Zplus_mod_idemp_l.
    set (e := index ^ Z.of_nat k). rewrite (Z.mod_eq e ORDER) by lia.
    replace (result + c * (e - ORDER * (e / ORDER))
             + index * e * poly_value cs index)
      with (result + e * (c + index * poly_value cs index)
            + (- (c * (e / ORDER))) * ORDER) by ring.
    apply Z_mod_plus_full.
Qed.

Lemma eval_loop_range coeffs : ∀ k index result,
  0 ≤ result < ORDER → 0 ≤ eval_loop coeffs k index result < ORDER.
Proof using order_positive.
  induction coeffs as [|c cs IH]; intros k index result Hr; simpl; [done|].
  apply IH. apply Z.mod_pos_bound. lia.
Qed.

Lemma eval_loop_poly coeffs index :
  eval_loop coeffs 0 index 0 = poly_value coeffs index mod ORDER.
Proof using order_positive.
  pose proof (eval_loop_value coeffs 0 index 0) as H.
  pose proof (eval_loop_range coeffs 0 index 0 ltac:(lia)) as Hr.
  change (Z.of_nat 0) with 0 in H.
  rewrite Z.mod_small in H by done. rewrite H. f_equal. lia.
Qed.

(** X2: [compute_share_for] evaluates the polynomial of the stored
    coefficients at the index of the target and reduces it modulo the
    order; it raises [ValueError] when the target has no index, and
    [TypeError] when no polynomial was generated. *)
Theorem compute_share_for_polynomial (st : DKGRound) (target : string) :
  match node_index target, my_coefficients st with
  | Ok i, Some coeffs =>
      compute_share_for st target = Ok (poly_value coeffs i mod ORDER)
      ∧ 0 ≤ poly_value coeffs i mod ORDER < ORDER
  | Ok _, None => compute_share_for st target = Raise TypeError
  | Raise _, _ => compute_share_for st target = Raise ValueError
  end.
Proof using order_positive.
  unfold compute_share_for, node_index.
  destruct (Py.int_of_str 10 _) as [i|]; simpl; [|done].
  destruct (my_coefficients st) as [coeffs|]; simpl; [|done].
  split; [by rewrite eval_loop_poly|]. apply Z.mod_pos_bound. lia.
Qed.

(** The sum that [finalize] keeps reduced. *)
Lemma final_share_sum shares : ∀ own,
  0 ≤ own < ORDER →
  fold_left (λ acc share, (acc + share) mod ORDER) shares own
  = (own + Zsum shares) mod ORDER.
Proof using order_positive.
  induction shares as [|x shares IH]; intros own Hown; simpl.
  - unfold Zsum. simpl. rewrite Z.add_0_r. by rewrite Z.mod_small.
  - rewrite IH by (apply Z.mod_pos_bound; lia).
    rewrite Zsum_cons, Zplus_mod_idemp_l. f_equal. lia.
Qed.

Lemma group_key_fold (others : list (list Point)) : ∀ pk,
  fold_left (λ acc commitments,
               pk ← acc;
               c ← of_option IndexError (head commitments);
               Ok (point_add pk c))
    others (Ok pk)
  = if forallb (λ cs, negb (Nat.eqb (length cs) 0)) others
    then Ok (fold_left point_add (map (hd IDENTITY) others) pk)
    else Raise IndexError.
Proof.
  induction others as [|cs others IH]; intros pk; simpl; [done|].
  destruct cs as [|c cs]; simpl.
  - clear IH. induction others as [|cs' others IH']; simpl; [done|].
    apply IH'.
  - apply IH.
Qed.

(** X3: [finalize] returns exactly when the node has its polynomial and
    its commitments and no list of commitments is empty. Its share is then
    the node's own value plus all received shares, reduced modulo the
    order (so it does not depend on the order in which the shares came
    in), and its key is the sum of the first commitments. Without the
    polynomial or the commitments it raises [TypeError], with an empty
    list of commitments [IndexError]. *)
Theorem finalize_result (st : DKGRound) :
  match my_coefficients st, my_commitments st with
  | Some coeffs, Some mine =>
      if forallb (λ cs, negb (Nat.eqb (length cs) 0))
           (mine :: Dict.values (other_commitments st))
      then
        finalize st
        = Ok ((poly_value coeffs (dkg_my_index st)
               + Zsum (Dict.values (received_shares st))) mod ORDER,
              fold_left point_add
                (map (hd IDENTITY) (Dict.values (other_commitments st)))
                (hd IDENTITY mine))
      else finalize st = Raise IndexError
  | _, _ => finalize st = Raise TypeError
  end.
Proof using order_positive.
  unfold finalize.
  destruct (my_coefficients st) as [coeffs|]; simpl; [|done].
  destruct (my_commitments st) as [mine|]; simpl; [|done].
  destruct mine as [|c0 mine]; simpl; [done|].
  rewrite group_key_fold.
  destruct (forallb _ _); simpl; [|done].
  rewrite eval_loop_poly.
  rewrite final_share_sum by (apply Z.mod_pos_bound; lia).
  by rewrite Zplus_mod_idemp_l.
Qed.

End ShareFacts.

(** A session of node1 on the small curve after [generate_polynomial] with
    the polynomial [3 + 4 x], holding the commitments of node2 for
    [5 + 6 x] and the share of node2. *)
Definition toy_final_session : DKGRound :=
  {| round_id := "r1"; dkg_node_id := "node1"; dkg_my_index := 1;
     threshold := 2; total_nodes := 2;
     my_coefficients := Some (3 :: 4 :: nil);
     my_commitments :=
       Some (@point_mul toy_curve 3 (@G toy_curve)
             :: @point_mul toy_curve 4 (@G toy_curve) :: nil);
     shares_for_others := nil;
     received_shares := ("node2", 11) :: nil;
     other_commitments :=
       ("node2", @point_mul toy_curve 5 (@G toy_curve)
                 :: @point_mul toy_curve 6 (@G toy_curve) :: nil) :: nil;
     my_final_share := None; group_public_key := None |}.

Lemma compute_share_for_polynomial_witness :
  @compute_share_for toy_curve toy_final_session "node2"
  = Ok (poly_value (3 :: 4 :: nil) 2 mod 31)
  ∧ 0 ≤ poly_value (3 :: 4 :: nil) 2 mod 31 < 31.
Proof.
  apply (compute_share_for_polynomial (curve := toy_curve) eq_refl
           toy_final_session "node2").
Defined.

Lemma finalize_result_witness :
  @finalize toy_curve toy_final_session
  = Ok ((poly_value (3 :: 4 :: nil) 1 + Zsum (11 :: nil)) mod 31,
        fold_left (@point_add toy_curve)
          (@point_mul toy_curve 5 (@G toy_curve) :: nil)
          (@point_mul toy_curve 3 (@G toy_curve))).
Proof.
  apply (finalize_result (curve := toy_curve) eq_refl toy_final_session).
Defined.

Section FeldmanHonest.
Context {curve : Fastecdsa} {pylib : PyLib}.
Hypothesis laws : curve_laws curve.

(** X4: the commitments that [generate_polynomial] returns are accepted
    by [receive_commitment]; against them, [receive_share] accepts every
    share that is the value of the dealer's polynomial at the receiver's
    index modulo the order, and, when different scalars modulo the order
    give different multiples of the base point, it accepts no other
    share. *)
Theorem feldman_check_honest_and_binding
    (dealer st : DKGRound) (coeffs : list Z) (from_node : string) :
  ∃ st',
    receive_commitment st from_node (snd (generate_polynomial dealer coeffs))
    = Ok st'
    ∧ dkg_my_index st' = dkg_my_index st
    ∧ ∀ share_value,
        (share_value mod ORDER
         = poly_value coeffs (dkg_my_index st) mod ORDER →
         fst (receive_share st' from_node share_value) = true)
        ∧ ((∀ a b, point_mul a G = point_mul b G →
                   a mod ORDER = b mod ORDER) →
           fst (receive_share st' from_node share_value) = true →
           share_value mod ORDER
           = poly_value coeffs (dkg_my_index st) mod ORDER).
Proof using laws.
  pose proof (order_pos laws) as Hq.
  assert (Hq0 : 0 < ORDER) by lia.
  unfold generate_polynomial, receive_commitment. cbn [snd].
  rewrite (multiples_decode laws). cbn [mbind res_bind].
  eexists. split; [reflexivity|]. split; [reflexivity|].
  intros share_value. unfold receive_share. cbn [other_commitments
    set_other_commitments dkg_my_index].
  rewrite Dict_get_set_eq, <- (multiple_zero laws).
  rewrite (feldman_loop_honest laws).
  rewrite (eval_loop_poly Hq0).
  split.
  - intros Hs.
    rewrite (multiple_congr laws share_value
               (poly_value coeffs (dkg_my_index st) mod ORDER)).
    + by rewrite Point_eqb_refl.
    + rewrite Z.mod_mod by lia. done.
  - intros Hinj.
    destruct (Point_eqb _ _) eqn:E; simpl; [|done]. intros _.
    apply Point_eqb_eq in E. apply Hinj in E.
    by rewrite Z.mod_mod in E by lia.
Qed.

End FeldmanHonest.

(** On the small curve, different scalars below the order give different
    multiples of the base point. *)
Definition toy_distinct_ok (a b : Z) : bool :=
  implb (Point_eqb (toy_multiple a) (toy_multiple b)) (a =? b).

Lemma toy_distinct_checked :
  forallb (λ a, forallb (toy_distinct_ok a) toy_scalars) toy_scalars = true.
Proof. vm_compute. reflexivity. Qed.

Lemma toy_multiple_injective a b :
  @point_mul toy_curve a (@G toy_curve) = @point_mul toy_curve b (@G toy_curve) →
  a mod @ORDER toy_curve = b mod @ORDER toy_curve.
Proof.
  fold (toy_multiple a) (toy_multiple b).
  rewrite (toy_multiple_mod a), (toy_multiple_mod b). intros H.
  pose proof (checked_pairs _ _ toy_distinct_checked _ _
                (toy_scalars_in a) (toy_scalars_in b)) as Hc.
  unfold toy_distinct_ok in Hc. rewrite H, Point_eqb_refl in Hc.
  simpl in Hc. by apply Z.eqb_eq in Hc.
Qed.

Lemma feldman_check_honest_and_binding_witness :
  ∃ st',
    @receive_commitment toy_curve toy_final_session "node3"
      (snd (@generate_polynomial toy_curve toy_final_session (5 :: 6 :: nil)))
    = Ok st'
    ∧ fst (@receive_share toy_curve st' "node3" 42) = true
    ∧ (fst (@receive_share toy_curve st' "node3" 12) = true →
       12 mod 31 = poly_value (5 :: 6 :: nil) 1 mod 31).
Proof.
  destruct (feldman_check_honest_and_binding (curve := toy_curve)
              toy_curve_laws toy_final_session toy_final_session
              (5 :: 6 :: nil) "node3") as (st' & H1 & _ & H2).
  exists st'. split; [exact H1|]. split.
  - apply (proj1 (H2 42)). reflexivity.
  - apply (proj2 (H2 12)). apply toy_multiple_injective.
Defined.

(** ** The signer engine: one partial signature per session *)

Lemma ndigits_bound fuel : ∀ (n : nat) x,
  (1 ≤ n)%nat → 0 ≤ x < 16 ^ Z.of_nat n → (PyFacts.ndigits fuel x ≤ n)%nat.
Proof.
  induction fuel as [|fuel IH]; intros n x Hn Hx; simpl; [lia|].
  destruct (Z.eqb_spec (x / 16) 0) as [H0|H0]; [done|].
  destruct n as [|[|n]]; [lia| |].
  - exfalso. apply H0. apply Z.div_small. simpl in Hx. lia.
  - apply le_n_S, IH; [lia|].
    split; [apply Z.div_pos; lia|].
    apply Z.div_lt_upper_bound; [lia|].
    replace (Z.of_nat (S (S n))) with (Z.succ (Z.of_nat (S n))) in Hx by lia.
    rewrite Z.pow_succ_r in Hx by lia. lia.
Qed.

Lemma length_zeros n s :
  String.length (Py.zeros n +:+ s) = (n + String.length s)%nat.
Proof. induction n; simpl; auto. Qed.

(** [format(x, '064x')] writes exactly 64 characters for a number below
    [16^64] that is not negative. *)
Lemma length_format_064x x :
  0 ≤ x < 16 ^ 64 → String.length (Py.format_064x x) = 64%nat.
Proof.
  intros Hx. unfold Py.format_064x. destruct (Z.ltb_spec x 0); [lia|].
  rewrite length_zeros. unfold Py.hex_of_nonneg.
  rewrite PyFacts.length_hex_digits. simpl String.length.
  pose proof (ndigits_bound (S (Z.to_nat (Z.log2 x))) 64 x ltac:(lia) Hx).
  lia.
Qed.

Section SignerOnce.
Context {curve : Fastecdsa} {pylib : PyLib}.

(** X5: after [compute_partial_signature] has returned for a request, a
    second call for that request never returns: with the same
    participants it raises [TypeError], since the nonce is gone. *)
Theorem compute_partial_signature_once
    (signer signer' : ThresholdSigner) (req_id : string)
    (participants : list string) (s_hex : string) :
  compute_partial_signature signer req_id participants = Ok (s_hex, signer') →
  compute_partial_signature signer' req_id participants = Raise TypeError
  ∧ ∀ others r, compute_partial_signature signer' req_id others ≠ Ok r.
Proof.
  unfold compute_partial_signature at 1. unfold Dict.item.
  destruct (Dict.get (sessions signer) req_id) as [session|] eqn:Hs;
    simpl; [|discriminate].
  destruct (aggregate_loop _ _ _) as [R|] eqn:HR; simpl; [|discriminate].
  destruct (mapM_res _ _) as [idx|] eqn:Hidx; simpl; [|discriminate].
  destruct (lagrange_loop _ _ _ _) as [num den] eqn:Hl.
  destruct (mod_inverse _ _) as [den_inv|] eqn:Hinv; simpl; [|discriminate].
  destruct (my_nonce_k session) as [k0|] eqn:Hk; simpl; [|discriminate].
  intros [= _ <-]. split.
  - unfold compute_partial_signature, Dict.item. simpl.
    rewrite Dict_get_set_eq. simpl. rewrite HR. simpl. rewrite Hidx. simpl.
    rewrite Hl, Hinv. done.
  - intros others r. unfold compute_partial_signature, Dict.item. simpl.
    rewrite Dict_get_set_eq. simpl. clear.
    destruct (aggregate_loop (nonce_commitments session) others IDENTITY);
      simpl; [|discriminate].
    destruct (mapM_res node_index others) as [idx'|]; simpl; [|discriminate].
    destruct (lagrange_loop idx' (my_index signer) 1 1) as [num' den'].
    destruct (mod_inverse den' ORDER); simpl; discriminate.
Qed.

Hypothesis order_positive : 0 < ORDER.

(** X6: the string that [compute_partial_signature] returns reads back,
    in base 16, as the number below the order that the call stored for
    the node in [partial_signatures]; it has 64 characters when the order
    is at most [16^64]. The call keeps the commitments and the message
    hash of the session, the share and the key of the signer, and the
    sessions of the other requests. *)
Theorem compute_partial_signature_output
    (signer signer' : ThresholdSigner) (req_id : string)
    (participants : list string) (s_hex : string) :
  compute_partial_signature signer req_id participants = Ok (s_hex, signer') →
  ∃ session session' s_i,
    Dict.get (sessions signer) req_id = Some session
    ∧ Dict.get (sessions signer') req_id = Some session'
    ∧ 0 ≤ s_i < ORDER
    ∧ Py.int_of_str 16 s_hex = Some s_i
    ∧ Dict.get (partial_signatures session') (node_id signer) = Some s_i
    ∧ (ORDER ≤ 16 ^ 64 → String.length s_hex = 64%nat)
    ∧ nonce_commitments session' = nonce_commitments session
    ∧ message_hash session' = message_hash session
    ∧ my_share signer' = my_share signer
    ∧ group_pubkey signer' = group_pubkey signer
    ∧ ∀ other, other ≠ req_id →
        Dict.get (sessions signer') other = Dict.get (sessions signer) other.
Proof using order_positive.
  unfold compute_partial_signature, Dict.item.
  destruct (Dict.get (sessions signer) req_id) as [session|] eqn:Hs;
    simpl; [|discriminate].
  destruct (aggregate_loop _ _ _) as [R|]; simpl; [|discriminate].
  destruct (mapM_res _ _) as [idx|]; simpl; [|discriminate].
  destruct (lagrange_loop _ _ _ _) as [num den].
  destruct (mod_inverse _ _) as [den_inv|]; simpl; [|discriminate].
  destruct (my_nonce_k session) as [k0|] eqn:Hk; simpl; [|discriminate].
  intros [= <- <-].
  set (s_i := (k0 + _ * _ * _) mod ORDER).
  assert (Hr : 0 ≤ s_i < ORDER) by (apply Z.mod_pos_bound; lia).
  eexists session, _, s_i. simpl. rewrite Dict_get_set_eq.
  split; [done|]. split; [reflexivity|]. split; [done|].
  split; [apply PyFacts.int_of_format_064x; lia|]. simpl.
  split; [apply Dict_get_set_eq|].
  split; [intros Hle; apply length_format_064x; lia|].
  repeat split; try done.
  intros other Hne. by apply Dict_get_set_ne.
Qed.

(** X7: [receive_nonce_commitment] decodes the commitment before it looks
    for the session: an encoding that does not decode raises whether or
    not there is a session, and a missing session raises [KeyError] only
    for an encoding that decodes. When it returns, the session holds the
    decoded point for the sender, and everything else (the other
    commitments, the nonce, the partial signatures, the other sessions)
    is as before. *)
Theorem receive_nonce_commitment_result
    (signer : ThresholdSigner) (req_id from_node R_hex : string) :
  match hex_to_point R_hex, Dict.get (sessions signer) req_id with
  | Raise e, _ =>
      receive_nonce_commitment signer req_id from_node R_hex = Raise e
  | Ok _, None =>
      receive_nonce_commitment signer req_id from_node R_hex = Raise KeyError
  | Ok R_j, Some session =>
      ∃ signer' session',
        receive_nonce_commitment signer req_id from_node R_hex = Ok signer'
        ∧ Dict.get (sessions signer') req_id = Some session'
        ∧ Dict.get (nonce_commitments session') from_node = Some R_j
        ∧ (∀ j, j ≠ from_node →
             Dict.get (nonce_commitments session') j
             = Dict.get (nonce_commitments session) j)
        ∧ my_nonce_k session' = my_nonce_k session
        ∧ partial_signatures session' = partial_signatures session
        ∧ message_hash session' = message_hash session
        ∧ my_share signer' = my_share signer
        ∧ group_pubkey signer' = group_pubkey signer
        ∧ ∀ other, other ≠ req_id →
            Dict.get (sessions signer') other = Dict.get (sessions signer) other
  end.
Proof.
  unfold receive_nonce_commitment, Dict.item.
  destruct (hex_to_point R_hex) as [R_j|e]; simpl; [|done].
  destruct (Dict.get (sessions signer) req_id) as [session|]; simpl; [|done].
  eexists _, _. split; [reflexivity|]. simpl. rewrite Dict_get_set_eq.
  split; [reflexivity|]. simpl. split; [apply Dict_get_set_eq|].
  split; [intros j Hj; by apply Dict_get_set_ne|].
  repeat split; try done.
  intros other Hne. by apply Dict_get_set_ne.
Qed.

End SignerOnce.

Section EncodingLength.
Context {curve : Fastecdsa}.

(** X8: on a curve whose field prime is at most [16^64], the encoding of
    a point that the library holds has 2 characters for the point at
    infinity and 66 for every other point. *)
Theorem point_to_hex_length (P : Point) :
  curve_p ≤ 16 ^ 64 → valid_point P →
  String.length (point_to_hex P) = if is_identity P then 2%nat else 66%nat.
Proof.
  intros Hp HP. unfold point_to_hex.
  destruct (is_identity P) eqn:Hi; [done|].
  destruct HP as [->|(Hx & _)]; [done|].
  assert (Hl : String.length (Py.format_064x (px P)) = 64%nat)
    by (apply length_format_064x; lia).
  destruct (py P mod 2 =? 0).
  - change (S (S (String.length (Py.format_064x (px P)))) = 66%nat).
    by rewrite Hl.
  - change (S (S (String.length (Py.format_064x (px P)))) = 66%nat).
    by rewrite Hl.
Qed.

End EncodingLength.

(** A signer of node1 on the small curve with a session that holds the
    commitments of node1 and node2. *)
Definition toy_session_signer : ThresholdSigner :=
  {| node_id := "node1"; my_index := 1; my_share := 5;
     group_pubkey := @point_mul toy_curve 7 (@G toy_curve);
     sessions :=
       ("tx_9",
        {| request_id := "tx_9"; message_hash := x2c :: xf2 :: nil;
           my_nonce_k := Some 3;
           nonce_commitments :=
             ("node1", @point_mul toy_curve 3 (@G toy_curve))
             :: ("node2", @point_mul toy_curve 4 (@G toy_curve)) :: nil;
           partial_signatures := nil |}) :: nil |}.

Definition toy_session_partial : string * ThresholdSigner :=
  Eval vm_compute in
    match @compute_partial_signature toy_curve toy_pylib toy_session_signer
            "tx_9" ("node1" :: "node2" :: nil) with
    | Ok r => r
    | Raise _ => (EmptyString, toy_session_signer)
    end.

Lemma compute_partial_signature_once_witness :
  @compute_partial_signature toy_curve toy_pylib (snd toy_session_partial)
    "tx_9" ("node1" :: "node2" :: nil) = Raise TypeError.
Proof.
  apply (compute_partial_signature_once (curve := toy_curve)
           (pylib := toy_pylib) toy_session_signer (snd toy_session_partial)
           "tx_9" ("node1" :: "node2" :: nil) (fst toy_session_partial)).
  vm_compute. reflexivity.
Defined.

Lemma compute_partial_signature_output_witness :
  ∃ s_i, 0 ≤ s_i < 31
         ∧ Py.int_of_str 16 (fst toy_session_partial) = Some s_i
         ∧ String.length (fst toy_session_partial) = 64%nat.
Proof.
  destruct (compute_partial_signature_output (curve := toy_curve)
              (pylib := toy_pylib) eq_refl toy_session_signer
              (snd toy_session_partial) "tx_9" ("node1" :: "node2" :: nil)
              (fst toy_session_partial))
    as (session & session' & s_i & _ & _ & Hr & Hint & _ & Hlen & _).
  - vm_compute. reflexivity.
  - exists s_i. split; [exact Hr|]. split; [exact Hint|].
    apply Hlen. vm_compute. discriminate.
Defined.

Lemma point_to_hex_length_witness :
  String.length (@point_to_hex (@point_mul toy_curve 3 (@G toy_curve)))
  = 66%nat.
Proof.
  apply (point_to_hex_length (curve := toy_curve)
           (@point_mul toy_curve 3 (@G toy_curve))).
  - vm_compute. discriminate.
  - right. vm_compute. repeat split; (discriminate || reflexivity).
Defined.

(** ** The token: shares, commitments and the derivation system *)

Lemma label_app_inj (p a b : string) : p +:+ a = p +:+ b → a = b.
Proof.
  induction p as [|c p IH]; simpl; [done|]. intros [= H]. by apply IH.
Qed.

Section TokenFacts.
Context {curve : Fastecdsa} {pylib : PyLib}.

(** X9: in demo mode the share that [store_dkg_share] stores for a round
    is the one that [get_dkg_share] returns for it, also when the round
    had a share before, and the number that dkg-finalize writes as 32
    bytes is the number that sign-approve reads back; in production mode
    [get_dkg_share] raises [SecurityError]. Storing a share leaves the
    shares of the other rounds, the nonce commitments, the master seed
    and the counter as they were. *)
Theorem dkg_share_store_then_get
    (hsm : HardwareToken) (round_id : string) (share_bytes : Py.bytes) :
  get_dkg_share (store_dkg_share hsm round_id share_bytes) round_id
  = (if is_production_mode hsm then Raise SecurityError else Ok share_bytes)
  ∧ (∀ x, is_production_mode hsm = false →
          Py.to_bytes 32 x = Some share_bytes →
          ∃ bs, get_dkg_share (store_dkg_share hsm round_id share_bytes)
                  round_id = Ok bs
                ∧ Py.int_from_bytes bs = x)
  ∧ (∀ other, other ≠ round_id →
       get_dkg_share (store_dkg_share hsm round_id share_bytes) other
       = get_dkg_share hsm other)
  ∧ (∀ request_id,
       objects (store_dkg_share hsm round_id share_bytes)
         !! ("NONCE_" +:+ request_id)
       = objects hsm !! ("NONCE_" +:+ request_id)).
Proof.
  assert (Hget : ∀ L, objects (store_dkg_share hsm round_id share_bytes) !! L
                      = if decide (L = "DKG_SHARE_" +:+ round_id)
                        then Some share_bytes else objects hsm !! L).
  { intros L. unfold store_dkg_share, get_key.
    destruct (objects hsm !! ("DKG_SHARE_" +:+ round_id)) eqn:E; simpl;
      destruct (decide (L = "DKG_SHARE_" +:+ round_id)) as [->|Hne];
      rewrite ?lookup_insert_eq, ?lookup_insert_ne, ?lookup_delete_ne by done;
      done. }
  assert (Hmode : is_production_mode (store_dkg_share hsm round_id share_bytes)
                  = is_production_mode hsm).
  { unfold store_dkg_share. by destruct (get_key hsm _). }
  assert (H1 : get_dkg_share (store_dkg_share hsm round_id share_bytes) round_id
               = (if is_production_mode hsm then Raise SecurityError
                  else Ok share_bytes)).
  { unfold get_dkg_share, get_key. rewrite Hmode, Hget.
    destruct (is_production_mode hsm); [done|].
    by destruct (decide _). }
  split; [done|]. split; [|split].
  - intros x Hdemo Hx. exists share_bytes. rewrite H1, Hdemo.
    split; [done|]. by apply (int_from_to_bytes 32).
  - intros other Hne. unfold get_dkg_share, get_key. rewrite Hmode, Hget.
    destruct (decide _) as [He|_]; [|done].
    apply label_app_inj in He. done.
  - intros request_id. rewrite Hget.
    destruct (decide _) as [He|_]; [|done]. discriminate He.
Qed.

(** The token after a sequence of operations. *)
Definition hsm_after (hsm : HardwareToken) (ops : list hsm_op) : HardwareToken :=
  fold_left (λ h op, fst (hsm_step h op)) ops hsm.

Lemma store_dkg_share_keeps hsm r s L :
  is_Some (objects hsm !! L) → is_Some (objects (store_dkg_share hsm r s) !! L).
Proof.
  intros HL. unfold store_dkg_share, get_key.
  destruct (objects hsm !! ("DKG_SHARE_" +:+ r)) eqn:E; simpl.
  - destruct (decide (L = "DKG_SHARE_" +:+ r)) as [->|Hne].
    + rewrite lookup_insert_eq. by eexists.
    + by rewrite lookup_insert_ne, lookup_delete_ne.
  - by apply insert_keeps.
Qed.

Lemma hsm_step_keeps hsm op L :
  L ≠ NONCE_COUNTER_LABEL →
  is_Some (objects hsm !! L) → is_Some (objects (fst (hsm_step hsm op)) !! L).
Proof.
  intros Hne HL. destruct op as [r s|r c|seed|r m]; simpl.
  - by apply store_dkg_share_keeps.
  - by apply store_nonce_commitment_keeps.
  - unfold initialize_nonce_derivation.
    destruct (has_nonce_master_seed hsm); simpl; [done|].
    by do 2 apply insert_keeps.
  - destruct (derive_nonce hsm r m) as [[d|e] hsm'] eqn:Hd; simpl;
      by apply (derive_nonce_keeps _ _ _ _ _ _ Hd).
Qed.


(** X11: [initialize_nonce_derivation] sets the system up once. On a
    token without a master seed it stores the seed and a counter that
    reads 0 (in demo mode; in production mode neither can be read); on a
    token with a master seed it answers [False] and changes nothing, so
    that a second initialization keeps the seed and the counter. *)
Theorem initialize_nonce_derivation_once :
  (∀ hsm seed,
     has_nonce_master_seed hsm = true →
     initialize_nonce_derivation hsm seed = (false, hsm))
  ∧ (∀ hsm seed,
       has_nonce_master_seed hsm = false →
       let hsm' := snd (initialize_nonce_derivation hsm seed) in
       fst (initialize_nonce_derivation hsm seed) = true
       ∧ has_nonce_master_seed hsm' = true
       ∧ _get_nonce_counter hsm'
         = (if is_production_mode hsm then Raise SecurityError else Ok 0)
       ∧ _get_nonce_master_seed hsm'
         = (if is_production_mode hsm then Raise SecurityError else Ok seed))
  ∧ (∀ hsm seed seed',
       initialize_nonce_derivation
         (snd (initialize_nonce_derivation hsm seed)) seed'
       = (false, snd (initialize_nonce_derivation hsm seed))).
Proof.
  assert (H1 : ∀ hsm seed, has_nonce_master_seed hsm = true →
                 initialize_nonce_derivation hsm seed = (false, hsm)).
  { intros hsm seed H. unfold initialize_nonce_derivation. by rewrite H. }
  assert (H2 : ∀ hsm seed,
                 has_nonce_master_seed
                   (snd (initialize_nonce_derivation hsm seed)) = true).
  { intros hsm seed. unfold initialize_nonce_derivation.
    destruct (has_nonce_master_seed hsm) eqn:E; simpl; [done|].
    unfold has_nonce_master_seed, get_key. simpl.
    rewrite lookup_insert_ne by label_ne. by rewrite lookup_insert_eq. }
  split; [done|]. split.
  - intros hsm seed H. cbv zeta. split.
    { unfold initialize_nonce_derivation. by rewrite H. }
    split; [apply H2|].
    unfold initialize_nonce_derivation. rewrite H. simpl.
    unfold _get_nonce_counter, _get_nonce_master_seed, is_production_mode,
      get_key. simpl.
    rewrite lookup_insert_eq, lookup_insert_ne by label_ne.
    rewrite lookup_insert_eq.
    destruct (String.eqb (HSM_MODE hsm) "production"); done.
  - intros hsm seed seed'. apply H1, H2.
Qed.

(** X12: [derive_nonce] refuses, with [SecurityError] and the token as it
    was, when there is no master seed and when the token is in production
    mode. When it returns, the nonce is a number from 1 to the order of
    secp256k1 less one, the commitment is the encoding of the nonce times
    the base point, the request and the message hash are those of the
    call, and the token holds a derivation record under the counter. *)
Theorem derive_nonce_result :
  (∀ hsm request_id msg_hash,
     has_nonce_master_seed hsm = false →
     derive_nonce hsm request_id msg_hash = (Raise SecurityError, hsm))
  ∧ (∀ hsm request_id msg_hash,
       is_production_mode hsm = true →
       derive_nonce hsm request_id msg_hash = (Raise SecurityError, hsm))
  ∧ (∀ hsm request_id msg_hash d hsm',
       derive_nonce hsm request_id msg_hash = (Ok d, hsm') →
       0 < k d < CURVE_ORDER
       ∧ R_hex d = point_to_hex (point_mul (k d) G)
       ∧ nd_request_id d = request_id
       ∧ message_hash_hex d = Py.bytes_hex msg_hash
       ∧ is_production_mode hsm = false
       ∧ is_Some (objects hsm'
                    !! ("NONCE_DERIV_" +:+ Py.str_of_int (counter d)))).
Proof.
  split; [|split].
  - intros hsm r m H. unfold derive_nonce. by rewrite H.
  - intros hsm r m H. unfold derive_nonce.
    destruct (has_nonce_master_seed hsm); simpl; [|done].
    unfold _increment_nonce_counter. by rewrite H.
  - intros hsm r m d hsm'. unfold derive_nonce.
    destruct (has_nonce_master_seed hsm); simpl; [|discriminate].
    unfold _increment_nonce_counter.
    destruct (is_production_mode hsm) eqn:Hmode; [discriminate|].
    destruct (get_key hsm NONCE_COUNTER_LABEL); [|discriminate].
    destruct (Py.to_bytes 8 _) as [cb|] eqn:Hcb; [|discriminate].
    destruct (_get_nonce_master_seed _); [|discriminate].
    rewrite Hcb. cbv zeta.
    match goal with
    | |- context [if ?x mod CURVE_ORDER =? 0 then _ else _] =>
        pose proof (Z.mod_pos_bound x CURVE_ORDER ltac:(done)) as Hrange;
        destruct (Z.eqb_spec (x mod CURVE_ORDER) 0) as [|Hk]; [discriminate|]
    end.
    intros [= <- <-]. simpl. repeat split; try done; try lia.
    unfold _store_derivation_record. simpl. rewrite lookup_insert_eq.
    by eexists.
Qed.

End TokenFacts.

(** A demo token with the derivation system set up, the bytes of the
    share 5, and a derivation on the small curve. *)
Definition toy_demo_token : HardwareToken :=
  snd (initialize_nonce_derivation (mkToken ∅ "demo") (x01 :: x02 :: nil)).

Definition toy_share_bytes : Py.bytes :=
  Eval vm_compute in default nil (Py.to_bytes 32 5).

Definition toy_derived : res NonceDerivation * HardwareToken :=
  Eval vm_compute in
    @derive_nonce toy_curve toy_pylib toy_demo_token "tx_7" (x2c :: nil).

Lemma dkg_share_store_then_get_witness :
  ∃ bs, get_dkg_share (store_dkg_share toy_demo_token "r1" toy_share_bytes) "r1"
        = Ok bs
        ∧ Py.int_from_bytes bs = 5.
Proof.
  apply (proj1 (proj2 (dkg_share_store_then_get toy_demo_token "r1"
                         toy_share_bytes)) 5).
  - reflexivity.
  - vm_compute. reflexivity.
Defined.


Lemma initialize_nonce_derivation_once_witness :
  _get_nonce_counter toy_demo_token = Ok 0
  ∧ _get_nonce_master_seed toy_demo_token = Ok (x01 :: x02 :: nil).
Proof.
  destruct (proj1 (proj2 initialize_nonce_derivation_once)
              (mkToken ∅ "demo") (x01 :: x02 :: nil))
    as (_ & _ & Hc & Hs).
  - vm_compute. reflexivity.
  - split; [exact Hc|exact Hs].
Defined.

Lemma derive_nonce_result_witness :
  ∃ d, fst toy_derived = Ok d
       ∧ 0 < k d < CURVE_ORDER
       ∧ R_hex d = @point_to_hex (@point_mul toy_curve (k d) (@G toy_curve)).
Proof.
  destruct toy_derived as [[d|e] hsm'] eqn:E; [|discriminate E].
  exists d. split; [reflexivity|].
  destruct (proj2 (proj2 (derive_nonce_result (curve := toy_curve)
                            (pylib := toy_pylib)))
              toy_demo_token "tx_7" (x2c :: nil) d hsm') as (Hk & HR & _).
  - rewrite <- E. vm_compute. reflexivity.
  - split; [exact Hk|exact HR].
Defined.

(** *** The audit list of the token *)

(** [list_used_nonces]: the request identifiers of the objects whose
    label starts with [NONCE_], those of the derivation system left out.
    The order in which the token enumerates its objects is not specified;
    the list is taken in the order of the labels, and the properties are
    about what the list contains. *)
Definition list_used_nonces (hsm : HardwareToken) : list string :=
  let excluded_prefixes :=
    "NONCE_MASTER_SEED" :: "NONCE_COUNTER" :: "NONCE_DERIV_" :: nil in
  flat_map
    (λ label,
       if String.prefix "NONCE_" label then
         if existsb (λ p, String.prefix p label) excluded_prefixes
         then nil
         else Py.str_drop 6 label :: nil
       else nil)
    (map fst (map_to_list (objects hsm))).

Lemma prefix_app_same (p a b : string) :
  String.prefix (p +:+ a) (p +:+ b) = String.prefix a b.
Proof.
  induction p as [|c p IH]; [done|]. cbn [String.app String.prefix].
  change (String.prefix (String c (p +:+ a)) (String c (p +:+ b))
          = String.prefix a b).
  cbn [String.prefix]. by destruct (Ascii.ascii_dec c c).
Qed.

Lemma prefix_split (p l : string) :
  String.prefix p l = true → l = p +:+ Py.str_drop (String.length p) l.
Proof.
  revert l. induction p as [|c p IH]; intros l; [done|].
  destruct l as [|c' l]; cbn [String.prefix]; [discriminate|].
  destruct (Ascii.ascii_dec c c') as [<-|]; [|discriminate].
  intros H. cbn [String.length Py.str_drop].
  change (String c l = String c (p +:+ Py.str_drop (String.length p) l)).
  f_equal. by apply IH.
Qed.

Lemma str_drop_app (p s : string) : Py.str_drop (String.length p) (p +:+ s) = s.
Proof. induction p as [|c p IH]; [by destruct s|]. exact IH. Qed.

(** X13: [list_used_nonces] lists a request exactly when the token has
    an object [NONCE_<request>] and the request does not begin with
    [MASTER_SEED], [COUNTER] or [DERIV_]: the commitment of such a
    request is in the token but not in the audit list. *)
Theorem list_used_nonces_contains (hsm : HardwareToken) (request_id : string) :
  request_id ∈ list_used_nonces hsm
  ↔ is_Some (objects hsm !! ("NONCE_" +:+ request_id))
    ∧ String.prefix "MASTER_SEED" request_id = false
    ∧ String.prefix "COUNTER" request_id = false
    ∧ String.prefix "DERIV_" request_id = false.
Proof.
  unfold list_used_nonces. cbv zeta.
  rewrite list_elem_of_In, in_flat_map.
  assert (Hex : ∀ r, existsb (λ p, String.prefix p ("NONCE_" +:+ r))
                       ("NONCE_MASTER_SEED" :: "NONCE_COUNTER"
                        :: "NONCE_DERIV_" :: nil)
                     = String.prefix "MASTER_SEED" r
                       || String.prefix "COUNTER" r
                       || String.prefix "DERIV_" r).
  { intros r. cbn [existsb].
    change "NONCE_MASTER_SEED" with ("NONCE_" +:+ "MASTER_SEED").
    change "NONCE_COUNTER" with ("NONCE_" +:+ "COUNTER").
    change "NONCE_DERIV_" with ("NONCE_" +:+ "DERIV_").
    rewrite !prefix_app_same. by rewrite orb_false_r, orb_assoc. }
  split.
  - intros (label & Hin & Hr).
    destruct (String.prefix "NONCE_" label) eqn:Hp; [|done].
    apply prefix_split in Hp. cbn [String.length] in Hp.
    remember (Py.str_drop 6 label) as r eqn:Er. clear Er. subst label.
    rewrite Hex in Hr.
    destruct (_ || _) eqn:Ho; [done|].
    destruct Hr as [<-|[]].
    apply orb_false_iff in Ho as [Ho H3].
    apply orb_false_iff in Ho as [H1 H2].
    split; [|done].
    apply in_map_iff in Hin as ([l v] & Hl & Hin). simpl in Hl. subst l.
    apply list_elem_of_In, elem_of_map_to_list in Hin.
    by eexists.
  - intros ([v Hv] & H1 & H2 & H3).
    exists ("NONCE_" +:+ request_id). split.
    + apply in_map_iff. exists ("NONCE_" +:+ request_id, v). split; [done|].
      by apply list_elem_of_In, elem_of_map_to_list.
    + assert (Hp : String.prefix "NONCE_" ("NONCE_" +:+ request_id) = true).
      { change "NONCE_" with ("NONCE_" +:+ "") at 1.
        rewrite prefix_app_same. by destruct request_id. }
      rewrite Hp, Hex, H1, H2, H3. cbn [orb].
      pose proof (str_drop_app "NONCE_" request_id) as Hd.
      cbn [String.length] in Hd. rewrite Hd. by left.
Qed.

Lemma list_used_nonces_contains_witness :
  "tx_7" ∈ list_used_nonces
             (snd (store_nonce_commitment toy_demo_token "tx_7" "02ab"))
  ∧ ¬ "DERIV_x" ∈ list_used_nonces
                     (snd (store_nonce_commitment toy_demo_token "DERIV_x" "02ab")).
Proof.
  split.
  - apply (proj2 (list_used_nonces_contains _ "tx_7")).
    split; [|by vm_compute]. vm_compute. by eexists.
  - intros H. apply (proj1 (list_used_nonces_contains _ "DERIV_x")) in H.
    destruct H as (_ & _ & _ & H). vm_compute in H. discriminate H.
Defined.

(** ** The node-state store: what is recorded stays recorded *)

(** X14: no operation of the store takes back what was recorded: a
    request that is used stays used, a DKG share that is marked stored
    stays marked, an initialized node stays initialized, and the node
    identifier never changes. *)
Theorem store_records_are_kept (ops : list store_op) (s : NodeState) :
  let s' := fold_left store_step ops s in
  (∀ request_id,
     check_nonce_unused s request_id = false →
     check_nonce_unused s' request_id = false)
  ∧ (my_share_stored (dkg s) = true → my_share_stored (dkg s') = true)
  ∧ (initialized s = true → initialized s' = true)
  ∧ (identity_key_posted s = true → identity_key_posted s' = true)
  ∧ ns_node_id s' = ns_node_id s.
Proof.
  revert s. induction ops as [|op ops IH]; intros s; [by simpl|].
  cbn [fold_left]. cbv zeta. specialize (IH (store_step s op)).
  cbv zeta in IH. destruct IH as (IH1 & IH2 & IH3 & IH4 & IH5).
  assert (Hstep :
    (∀ r, check_nonce_unused s r = false →
          check_nonce_unused (store_step s op) r = false)
    ∧ (my_share_stored (dkg s) = true →
       my_share_stored (dkg (store_step s op)) = true)
    ∧ (initialized s = true → initialized (store_step s op) = true)
    ∧ (identity_key_posted s = true →
       identity_key_posted (store_step s op) = true)
    ∧ ns_node_id (store_step s op) = ns_node_id s).
  { destruct op as [|? ? ?| |?|rid ?|rid ? ? ?]; simpl;
      unfold update, record_nonce_use,
      record_nonce_derivation, update, check_nonce_unused; simpl;
      repeat split; try done;
      intros r; destruct (decide (rid = r)) as [->|Hne];
      rewrite ?lookup_insert_eq, ?lookup_insert_ne by done; done. }
  destruct Hstep as (H1 & H2 & H3 & H4 & H5).
  repeat split; [by auto|by auto|by auto|by auto|congruence].
Qed.

(** X15: the record of a request changes only when that request is
    recorded: operations that record no use and no derivation for a
    request leave its entry in [used_nonces] and its derivation metadata
    as they were. *)
Theorem store_request_record_is_stable
    (ops : list store_op) (s : NodeState) (request_id : string) :
  Forall (λ op, match op with
                | OpRecordNonceUse r _ => r ≠ request_id
                | OpRecordNonceDerivation r _ _ _ => r ≠ request_id
                | _ => True
                end) ops →
  used_nonces (signing (fold_left store_step ops s)) !! request_id
  = used_nonces (signing s) !! request_id
  ∧ get_derivation_info (fold_left store_step ops s) request_id
    = get_derivation_info s request_id.
Proof.
  intros Hops. revert s. induction Hops as [|op ops Hop _ IH]; intros s;
    [done|].
  cbn [fold_left]. destruct (IH (store_step s op)) as [-> ->].
  unfold get_derivation_info.
  destruct op; simpl; unfold update, record_nonce_use,
    record_nonce_derivation, update; simpl; try done;
    rewrite ?lookup_insert_ne by done; done.
Qed.

Lemma store_records_are_kept_witness :
  check_nonce_unused
    (fold_left store_step
       (OpDkgStart "r2" 2 3 :: OpRecordNonceUse "tx_2" "02ab" :: nil)
       (record_nonce_use (NodeState_default "node1") "tx_1" "03cd"))
    "tx_1" = false.
Proof.
  apply (proj1 (store_records_are_kept
                  (OpDkgStart "r2" 2 3 :: OpRecordNonceUse "tx_2" "02ab" :: nil)
                  (record_nonce_use (NodeState_default "node1") "tx_1" "03cd"))).
  vm_compute. reflexivity.
Defined.

Lemma store_request_record_is_stable_witness :
  get_derivation_info
    (fold_left store_step
       (OpInit :: OpRecordNonceUse "tx_2" "02ab" :: nil)
       (record_nonce_derivation (NodeState_default "node1") "tx_1" 1 "03cd" "2c"))
    "tx_1"
  = get_derivation_info
      (record_nonce_derivation (NodeState_default "node1") "tx_1" 1 "03cd" "2c")
      "tx_1".
Proof.
  apply (store_request_record_is_stable
           (OpInit :: OpRecordNonceUse "tx_2" "02ab" :: nil)).
  repeat constructor. discriminate.
Defined.

(** ** sign-approve: refusals, approval, replay and recovery *)

Section ApproveOutcomes.
Context {curve : Fastecdsa} {pylib : PyLib}.
Variable NODE_ID : string.

(** The outcomes in which sign-approve has refused before deriving. *)
Definition refusal (o : outcome) : Prop :=
  o = DkgNotComplete ∨ o = NonceUsedLocal ∨ o = NonceUsedHSM
  ∨ o = RequestNotFound ∨ o = Rejected ∨ o = ProductionMode.

Ltac not_refused :=
  let H := fresh in
  intros H; exfalso;
  destruct H as [H|[H|[H|[H|[H|H]]]]]; discriminate H.



(** X18: once a call of sign-approve has built a commitment for a
    request, whether it was posted (the call ends approved) or the post
    failed, every later call for that request on the world it left is
    refused by the first layer and changes nothing. *)
Theorem sign_approve_replay_refused (w w' : World) (request_id : string)
    (inp : approve_input) (o : outcome) (evs : list event) (R : string) :
  sign_approve NODE_ID w request_id inp = (w', o, evs) →
  Committed request_id R ∈ evs →
  ∀ inp', sign_approve NODE_ID w' request_id inp' = (w', NonceUsedLocal, nil).
Proof.
  intros H Hin inp'.
  destruct (sign_approve_inv NODE_ID w request_id inp w' o evs H)
    as [(-> & _)|(msg_hash & share & d & hsm1 & Hdkg & Hguard & Hd & Hr)].
  { by apply elem_of_nil in Hin. }
  destruct Hr as [(e & _ & -> & _)|(r & signer & Hs & -> & Ht & Hf & Hfile)].
  { apply elem_of_cons in Hin as [Hin|Hin]; [discriminate Hin|].
    by apply elem_of_nil in Hin. }
  assert (Hstored : my_share_stored (dkg (state_file w')) = true).
  { by rewrite Hf. }
  assert (Hused : check_nonce_unused (state_file w') request_id = false).
  { unfold check_nonce_unused. rewrite Hf.
    destruct (record_nonce_derivation_both (state_file w) request_id
                (counter d) (R_hex d) (message_hash_hex d)) as [-> _]. done. }
  unfold sign_approve. by rewrite Hstored, Hused.
Qed.

(** X19: when the first two layers pass and the board has a commitment of
    the node for the request, sign-approve derives nothing and posts
    nothing. If the commitment on the board is a JSON object whose
    [R_commitment] is a string, the call records that string in the
    token and in the state file, so that the next call is refused by the
    first layer; if the object has no [R_commitment], it records the
    word [unknown] in its place; if the commitment does not parse, or is
    no object, the world is left as it was. *)
Theorem sign_approve_recovery (w : World) (request_id : string)
    (inp : approve_input) (existing : Py.bytes) :
  my_share_stored (dkg (state_file w)) = true →
  check_nonce_unused (state_file w) request_id = true →
  has_nonce_commitment (token w) request_id = false →
  mailbox_read (board w) (commitment_path NODE_ID request_id) = Some existing →
  existing ≠ nil →
  ∃ w',
    sign_approve NODE_ID w request_id inp = (w', CommitmentOnBoard, nil)
    ∧ board w' = board w ∧ signer_files w' = signer_files w
    ∧ dkg (state_file w') = dkg (state_file w)
    ∧ match json_loads existing with
      | Ok (JObj fields) =>
          ∀ R, fields_get fields "R_commitment" = Some (JStr R)
               ∨ (fields_get fields "R_commitment" = None ∧ R = "unknown") →
               used_nonces (signing (state_file w')) !! request_id = Some R
               ∧ objects (token w') !! ("NONCE_" +:+ request_id)
                 = Some (Py.encode R)
               ∧ ∀ inp', sign_approve NODE_ID w' request_id inp'
                         = (w', NonceUsedLocal, nil)
      | _ => w' = w
      end.
Proof.
  intros Hdkg Hl1 Hl2 Hb Hne.
  assert (Ht : truthy (mailbox_read (board w)
                         (commitment_path NODE_ID request_id)) = true).
  { rewrite Hb. by destruct existing. }
  eexists. split.
  { unfold sign_approve. rewrite Hdkg, Hl1, Hl2, Ht. simpl. reflexivity. }
  rewrite Hb. simpl. unfold recover.
  destruct (json_loads existing) as [[| | | |fields]|]; try done.
  destruct (fields_get fields "R_commitment") as [[| | |R|]|] eqn:HR;
    try (split; [done|]; split; [done|]; split; [done|];
         intros R' [[=]|[[=] _]]).
  - unfold store_nonce_commitment. rewrite Hl2. simpl.
    split; [done|]. split; [done|]. split; [done|].
    intros R' [[= <-]|[[=] _]].
    split; [unfold record_nonce_use, update; simpl;
            by rewrite lookup_insert_eq|].
    split; [by rewrite lookup_insert_eq|].
    intros inp'. unfold sign_approve. simpl. rewrite Hdkg. simpl.
    unfold check_nonce_unused. simpl. by rewrite lookup_insert_eq.
  - unfold store_nonce_commitment. rewrite Hl2. simpl.
    split; [done|]. split; [done|]. split; [done|].
    intros R' [[=]|[_ ->]].
    split; [unfold record_nonce_use, update; simpl;
            by rewrite lookup_insert_eq|].
    split; [by rewrite lookup_insert_eq|].
    intros inp'. unfold sign_approve. simpl. rewrite Hdkg. simpl.
    unfold check_nonce_unused. simpl. by rewrite lookup_insert_eq.
Qed.

End ApproveOutcomes.

(** node1 before its DKG, the run of the approval of [tx_1] on the small
    curve, and a world in which a document is on the board at the place
    of the node's commitment. *)
Definition toy_fresh_world : World :=
  {| state_file := NodeState_default "node1"; token := toy_token;
     board := ∅; signer_files := ∅ |}.

Definition toy_approval_run : World * outcome * list event :=
  Eval vm_compute in
    @sign_approve toy_curve toy_pylib "node1" toy_world "tx_1" toy_input.

Definition toy_restored_world : World :=
  {| state_file := toy_state; token := toy_token;
     board := {[ commitment_path "node1" "tx_1"
                 := Py.encode (toy_dumps toy_request) ]};
     signer_files := ∅ |}.



Lemma sign_approve_replay_refused_witness :
  @sign_approve toy_curve toy_pylib "node1" (toy_approval_run.1.1) "tx_1"
    toy_input
  = (toy_approval_run.1.1, NonceUsedLocal, nil).
Proof.
  eapply (sign_approve_replay_refused (curve := toy_curve)
            (pylib := toy_pylib) "node1" toy_world (toy_approval_run.1.1)
            "tx_1" toy_input Approved (toy_approval_run.2)).
  - vm_compute. reflexivity.
  - unfold toy_approval_run. cbn [snd].
    apply elem_of_cons. right. apply elem_of_cons. left. reflexivity.
Defined.

Lemma sign_approve_recovery_witness :
  ∃ w',
    @sign_approve toy_curve toy_pylib "node1" toy_restored_world "tx_1"
      toy_input = (w', CommitmentOnBoard, nil)
    ∧ used_nonces (signing (state_file w')) !! "tx_1" = Some "unknown".
Proof.
  destruct (sign_approve_recovery (curve := toy_curve) (pylib := toy_pylib)
              "node1" toy_restored_world "tx_1" toy_input
              (Py.encode (toy_dumps toy_request)))
    as (w' & Hrun & _ & _ & _ & Hrec).
  - reflexivity.
  - reflexivity.
  - vm_compute. reflexivity.
  - vm_compute. reflexivity.
  - discriminate.
  - exists w'. split; [exact Hrun|].
    assert (Hl : @json_loads toy_pylib (Py.encode (toy_dumps toy_request))
                 = Ok toy_request) by (vm_compute; reflexivity).
    rewrite Hl in Hrec. unfold toy_request in Hrec.
    apply (proj1 (Hrec "unknown" (or_intror (conj eq_refl eq_refl)))).
Defined.

(** ** The participant set that the first finalizer locks *)

(** [sorted(xs)] on a list of [str]: the order of [str] compares character
    by character; equal strings are the same string, so that the place of
    equal elements makes no difference. *)
Fixpoint sorted_insert (x : string) (xs : list string) : list string :=
  match xs with
  | [] => [x]
  | y :: ys =>
      if String.leb x y then x :: y :: ys else y :: sorted_insert x ys
  end.

Definition sorted (xs : list string) : list string :=
  fold_right sorted_insert [] xs.

(** [xs[:n]]: a negative bound counts from the end of the list. *)
Definition slice_to {A} (n : Z) (xs : list A) : list A :=
  if n <? 0 then take (Z.to_nat (Z.of_nat (length xs) + n)) xs
  else take (Z.to_nat n) xs.

(** [sign_finalize] when the board has no [session.json]: the threshold
    first commitments in the order of their names, or this node's
    commitment with the first ones of the others. *)
Definition selected_commits (NODE_ID : string) (threshold : Z)
    (commit_files : list string) : list string :=
  let my_commit := NODE_ID +:+ ".json" in
  let sorted_commits := sorted commit_files in
  if bool_decide (my_commit ∈ slice_to threshold sorted_commits)
  then slice_to threshold sorted_commits
  else
    let others := filter (λ c, c ≠ my_commit) sorted_commits in
    sorted (my_commit :: slice_to (threshold - 1) others).

Definition locked_participants (NODE_ID : string) (threshold : Z)
    (commit_files : list string) : list string :=
  map (Py.remove_all ".json") (selected_commits NODE_ID threshold commit_files).

Definition str_le (a b : string) : Prop := String.leb a b = true.

Lemma sorted_insert_perm x xs : sorted_insert x xs ≡ₚ x :: xs.
Proof.
  induction xs as [|y ys IH]; [done|]. cbn [sorted_insert].
  destruct (String.leb x y); [done|].
  rewrite IH. apply Permutation_swap.
Qed.

Lemma sorted_perm xs : sorted xs ≡ₚ xs.
Proof.
  induction xs as [|x xs IH]; [done|].
  cbn [sorted fold_right]. fold (sorted xs).
  by rewrite sorted_insert_perm, IH.
Qed.

Lemma sorted_insert_Sorted x xs :
  Sorted str_le xs → Sorted str_le (sorted_insert x xs).
Proof.
  induction 1 as [|y ys Hys IH Hhd]; cbn [sorted_insert].
  - by repeat constructor.
  - destruct (String.leb x y) eqn:E.
    + constructor; [by constructor|by constructor].
    + constructor; [done|].
      assert (Hyx : str_le y x).
      { destruct (String.leb_total x y) as [H|H]; [congruence|done]. }
      destruct ys as [|z zs]; cbn [sorted_insert]; [by constructor|].
      destruct (String.leb x z); constructor; [done|].
      by inversion Hhd.
Qed.

Lemma sorted_Sorted xs : Sorted str_le (sorted xs).
Proof.
  induction xs as [|x xs IH]; [constructor|].
  cbn [sorted fold_right]. by apply sorted_insert_Sorted.
Qed.

Lemma take_Sorted n : ∀ xs, Sorted str_le xs → Sorted str_le (take n xs).
Proof.
  induction n as [|n IH]; intros xs Hxs; [destruct xs; constructor|].
  destruct Hxs as [|x xs Hxs Hhd]; cbn [take]; [constructor|].
  constructor; [by apply IH|].
  destruct Hhd as [|y ys Hxy]; [destruct n; constructor|].
  destruct n; by constructor.
Qed.

Lemma slice_to_take {A} (n : Z) (xs : list A) :
  0 ≤ n → slice_to n xs = take (Z.to_nat n) xs.
Proof. intros Hn. unfold slice_to. by rewrite (proj2 (Z.ltb_ge n 0)). Qed.

(** A name without a dot loses its [.json] ending and nothing else. *)
Lemma remove_json_fuel s : ∀ fuel,
  (∀ c, In c (list_ascii_of_string s) → c ≠ "."%char) →
  (String.length s + 2 ≤ fuel)%nat →
  Py.remove_all_fuel fuel ".json" (s +:+ ".json") = s.
Proof.
  induction s as [|c s IH]; intros fuel Hs Hfuel.
  - destruct fuel as [|[|fuel]]; [simpl in Hfuel; lia..|]. done.
  - destruct fuel as [|fuel]; [simpl in Hfuel; lia|].
    change (String c s +:+ ".json") with (String c (s +:+ ".json")).
    cbn [Py.remove_all_fuel].
    assert (Hp : String.prefix ".json" (String c (s +:+ ".json")) = false).
    { cbn [String.prefix].
      destruct (Ascii.ascii_dec "." c) as [He|_]; [|done].
      exfalso. apply (Hs c); [by left|done]. }
    rewrite Hp. f_equal. apply IH.
    + intros c' Hc'. apply Hs. by right.
    + simpl in Hfuel. lia.
Qed.

Lemma remove_json_suffix s :
  (∀ c, In c (list_ascii_of_string s) → c ≠ "."%char) →
  Py.remove_all ".json" (s +:+ ".json") = s.
Proof.
  intros Hs. unfold Py.remove_all.
  change (String.eqb ".json" "") with false. cbn match.
  apply remove_json_fuel; [done|].
  assert (Hlen : ∀ a b, String.length (a +:+ b)
                        = (String.length a + String.length b)%nat).
  { induction a as [|? a IHa]; intros b; [done|]. simpl. by rewrite IHa. }
  rewrite Hlen. simpl. lia.
Qed.

(** X20: when at least threshold commitments are on the board, this
    node's among them, the set that the first finalizer locks has exactly
    threshold members, in the order of their names, all of them taken from
    the board; this node's commitment is one of them, no file is taken
    twice, and this node is among the participants when its name has no
    dot. *)
Theorem selected_commits_lock (NODE_ID : string) (threshold : Z)
    (commit_files : list string) :
  1 ≤ threshold ≤ Z.of_nat (length commit_files) →
  NODE_ID +:+ ".json" ∈ commit_files →
  let selected := selected_commits NODE_ID threshold commit_files in
  let participants := locked_participants NODE_ID threshold commit_files in
  Z.of_nat (length selected) = threshold
  ∧ NODE_ID +:+ ".json" ∈ selected
  ∧ (∀ c, c ∈ selected → c ∈ commit_files)
  ∧ Sorted str_le selected
  ∧ (NoDup commit_files → NoDup selected)
  ∧ Z.of_nat (length participants) = threshold
  ∧ ((∀ c, In c (list_ascii_of_string NODE_ID) → c ≠ "."%char) →
     NODE_ID ∈ participants).
Proof.
  intros Ht Hmine selected participants.
  set (my_commit := NODE_ID +:+ ".json") in *.
  set (sorted_commits := sorted commit_files).
  assert (Hperm : sorted_commits ≡ₚ commit_files) by apply sorted_perm.
  assert (Hlen : length sorted_commits = length commit_files)
    by by rewrite Hperm.
  assert (Hsel : Z.of_nat (length selected) = threshold
                 ∧ my_commit ∈ selected
                 ∧ (∀ c, c ∈ selected → c ∈ commit_files)
                 ∧ Sorted str_le selected
                 ∧ (NoDup commit_files → NoDup selected)).
  { subst selected. unfold selected_commits.
    fold my_commit. fold sorted_commits.
    rewrite !slice_to_take by lia.
    case_bool_decide as Hin.
    - split; [rewrite length_take; lia|]. split; [done|].
      split.
      { intros c Hc. rewrite <- Hperm.
        apply elem_of_take in Hc as (i & Hc & _).
        by eapply list_elem_of_lookup_2. }
      split; [apply take_Sorted, sorted_Sorted|].
      intros Hnd. eapply sublist_NoDup; [|apply sublist_take].
      by rewrite Hperm.
    - set (others := filter (λ c, c ≠ my_commit) sorted_commits).
      assert (Hothers : (Z.to_nat threshold ≤ length others)%nat).
      { subst others.
        rewrite <- (take_drop (Z.to_nat threshold) sorted_commits).
        rewrite filter_app, length_app.
        assert (Hall : filter (λ c, c ≠ my_commit)
                         (take (Z.to_nat threshold) sorted_commits)
                       = take (Z.to_nat threshold) sorted_commits).
        { clear -Hin. induction (take (Z.to_nat threshold) sorted_commits)
            as [|x l IH]; [done|].
          rewrite filter_cons. case_decide as Hx.
          - f_equal. apply IH. intros H. apply Hin. by right.
          - exfalso. apply Hin. apply elem_of_cons. left.
            destruct (decide (x = my_commit)) as [He|He]; [done|].
            by destruct Hx. }
        rewrite Hall, length_take. lia. }
      set (rest := take (Z.to_nat (threshold - 1)) others).
      assert (Hrest : ∀ c, c ∈ rest → c ∈ sorted_commits ∧ c ≠ my_commit).
      { intros c Hc. apply elem_of_take in Hc as (i & Hc & _).
        apply list_elem_of_lookup_2 in Hc.
        by apply list_elem_of_filter in Hc as [? ?]. }
      assert (Hp : sorted (my_commit :: rest) ≡ₚ my_commit :: rest)
        by apply sorted_perm.
      split.
      { rewrite Hp. cbn [length]. subst rest. rewrite length_take. lia. }
      split; [rewrite Hp; by left|].
      split.
      { intros c Hc. rewrite Hp in Hc.
        apply elem_of_cons in Hc as [->|Hc]; [done|].
        rewrite <- Hperm. by apply Hrest. }
      split; [apply sorted_Sorted|].
      intros Hnd. rewrite Hp. apply NoDup_cons. split.
      + intros Hc. by apply Hrest in Hc as [_ Hc].
      + subst rest. eapply sublist_NoDup; [|apply sublist_take].
        subst others. apply NoDup_filter. by rewrite Hperm. }
  destruct Hsel as (H1 & H2 & H3 & H4 & H5).
  repeat (split; [done|]). split.
  - subst participants. unfold locked_participants.
    by rewrite length_map.
  - intros Hdot. subst participants. unfold locked_participants.
    apply list_elem_of_fmap. exists my_commit. split; [|done].
    symmetry. by apply remove_json_suffix.
Qed.

Lemma selected_commits_lock_witness :
  let commit_files := ["node3.json"; "node1.json"; "node2.json"] in
  let selected := selected_commits "node3" 2 commit_files in
  let participants := locked_participants "node3" 2 commit_files in
  (selected = ["node1.json"; "node3.json"]
   ∧ participants = ["node1"; "node3"])
  ∧ Z.of_nat (length selected) = 2
  ∧ "node3" +:+ ".json" ∈ selected
  ∧ (∀ c, c ∈ selected → c ∈ commit_files)
  ∧ Sorted str_le selected
  ∧ (NoDup commit_files → NoDup selected)
  ∧ Z.of_nat (length participants) = 2
  ∧ ((∀ c, In c (list_ascii_of_string "node3") → c ≠ "."%char) →
     "node3" ∈ participants).
Proof.
  split; [by vm_compute|].
  apply (selected_commits_lock "node3" 2
           ["node3.json"; "node1.json"; "node2.json"]).
  - simpl. lia.
  - left.
Defined.
